(** * WOL server: wake-on-LAN dispatch, schedules and MAC validation

    A shallow embedding of [app/wol.py], [app/schemas.py], [app/database.py]
    and the request handlers and job closure of [app/main.py], with the
    properties of the specification proved (or refuted) against it.

    Conventions of the embedding:
    - a Python [str] is a [string] of 8-bit characters (code points below
      256); every character class the code tests (hex digits, [':'], ['-'],
      white space) is decided on such characters; [upper] and [lower] on
      them are those of ASCII, so properties about the case of letters are
      stated for ASCII text; the field validator, which sees arbitrary text,
      is also given over lists of code points ([UStr]);
    - an identifier handed to the record store is within the range of an
      [INTEGER] unless a definition says otherwise ([add_schedule] has the
      [OverflowError] of the driver);
    - a Python [bytes] is a [list Z] of values in [0, 256);
    - a raised exception is the left injection of a state-and-exception
      monad [M]; the state is kept when an exception is raised, as in Python;
    - the record store is a pair of tables (lists of rows), the job table of
      the scheduler is a [gmap] from job identifiers to jobs;
    - a JSON text column holding a list of strings is represented by the list
      itself ([json.loads] after [json.dumps] is the identity on them). *)

From Stdlib Require Import ZArith List String Ascii Bool Lia.
From stdpp Require Import base option list gmap strings pretty fin_maps.

Local Open Scope string_scope.
Local Open Scope list_scope.
Local Open Scope Z_scope.

(** ** Characters and strings of the Python runtime *)

Module PyStr.

(** [_PyLong_DigitValue] restricted to the values below 16: the value of a
    hexadecimal digit, [None] for every other character. *)
Definition digit_value (c : ascii) : option Z :=
  let n := Z.of_N (N_of_ascii c) in
  if (48 <=? n) && (n <=? 57) then Some (n - 48)
  else if (97 <=? n) && (n <=? 102) then Some (n - 87)
  else if (65 <=? n) && (n <=? 70) then Some (n - 55)
  else None.

(** [Py_ISSPACE]: the six ASCII white-space characters. *)
Definition Py_ISSPACE (c : ascii) : bool :=
  let n := Z.of_N (N_of_ascii c) in
  ((9 <=? n) && (n <=? 13)) || (n =? 32).

(** [str.isspace] on one character, as [str.strip()] uses it: the Unicode
    white space below code point 256. *)
Definition isspace (c : ascii) : bool :=
  let n := Z.of_N (N_of_ascii c) in
  ((9 <=? n) && (n <=? 13)) || ((28 <=? n) && (n <=? 32))
  || (n =? 133) || (n =? 160).

(** [str.upper] on one character: ASCII letters are raised, the rest is
    kept. This is [str.upper] on ASCII text only; the case mapping of the
    other characters is in [UStr], over code points. *)
Definition upper_char (c : ascii) : ascii :=
  let n := N_of_ascii c in
  if ((97 <=? n) && (n <=? 122))%N then ascii_of_N (n - 32) else c.

Fixpoint upper (s : string) : string :=
  match s with
  | EmptyString => EmptyString
  | String c r => String (upper_char c) (upper r)
  end.

Fixpoint lstrip (s : string) : string :=
  match s with
  | EmptyString => EmptyString
  | String c r => if isspace c then lstrip r else s
  end.

(** [rstrip] drops the white space at the end: a character is kept when it
    is not white space or when something is kept after it. *)
Fixpoint rstrip (s : string) : string :=
  match s with
  | EmptyString => EmptyString
  | String c r =>
      match rstrip r with
      | EmptyString => if isspace c then EmptyString else String c EmptyString
      | r' => String c r'
      end
  end.

Definition strip (s : string) : string := rstrip (lstrip s).

(** [s.replace(c, "")] for a one-character [c]. *)
Fixpoint remove_char (c : ascii) (s : string) : string :=
  match s with
  | EmptyString => EmptyString
  | String d r => if Ascii.eqb d c then remove_char c r else String d (remove_char c r)
  end.

(** [bytes.fromhex]: white space is skipped before each byte, a byte is two
    adjacent hexadecimal digits; anything else raises [ValueError] (here
    [None]). *)
Fixpoint fromhex (s : string) : option (list Z) :=
  match s with
  | EmptyString => Some []
  | String c rest =>
      if Py_ISSPACE c then fromhex rest
      else
        match digit_value c, rest with
        | Some top, String d rest' =>
            match digit_value d with
            | Some bot =>
                match fromhex rest' with
                | Some bs => Some (top * 16 + bot :: bs)
                | None => None
                end
            | None => None
            end
        | _, _ => None
        end
  end.

(** [b * n] on bytes. *)
Fixpoint bytes_mul (b : list Z) (n : nat) : list Z :=
  match n with
  | O => []
  | S k => b ++ bytes_mul b k
  end.

(** [str.lower] on one character: ASCII letters are lowered, the rest is
    kept. *)
Definition lower_char (c : ascii) : ascii :=
  let n := N_of_ascii c in
  if ((65 <=? n) && (n <=? 90))%N then ascii_of_N (n + 32) else c.

Fixpoint lower (s : string) : string :=
  match s with
  | EmptyString => EmptyString
  | String c r => String (lower_char c) (lower r)
  end.

(** [s.split(c)] for a one-character separator: the pieces between the
    occurrences of [c]; there is always at least one piece. *)
Fixpoint split (c : ascii) (s : string) : list string :=
  match s with
  | EmptyString => [EmptyString]
  | String d r =>
      if Ascii.eqb d c then EmptyString :: split c r
      else match split c r with
           | piece :: pieces => String d piece :: pieces
           | [] => [String d EmptyString]
           end
  end.

(** [s.split(c, 1)]: [s] cut at the first occurrence of [c], or [s] alone
    when [c] does not occur. *)
Fixpoint split1 (c : ascii) (s : string) : list string :=
  match s with
  | EmptyString => [EmptyString]
  | String d r =>
      if Ascii.eqb d c then [EmptyString; r]
      else match split1 c r with
           | piece :: pieces => String d piece :: pieces
           | [] => [String d EmptyString]
           end
  end.

(** [s.isascii()]. *)
Fixpoint isascii (s : string) : bool :=
  match s with
  | EmptyString => true
  | String c r => (Z.of_N (N_of_ascii c) <? 128) && isascii r
  end.

End PyStr.

(** ** app/wol.py: the packet builder *)

Definition normalize_mac (mac : string) : option (list Z) :=
  let clean := PyStr.remove_char "-" (PyStr.remove_char ":" mac) in
  PyStr.fromhex clean.

(** The payload built in the first two lines of [send_magic_packet]. *)
Definition build_packet (mac : string) : option (list Z) :=
  match normalize_mac mac with
  | Some mac_bytes => Some (PyStr.bytes_mul [255] 6 ++ PyStr.bytes_mul mac_bytes 16)
  | None => None
  end.

(** ** app/schemas.py: request validation *)

(** The character class [[0-9A-Fa-f]] of [MAC_REGEX]. *)
Definition is_hex_char (c : ascii) : bool :=
  let n := Z.of_N (N_of_ascii c) in
  ((48 <=? n) && (n <=? 57)) || ((65 <=? n) && (n <=? 70))
  || ((97 <=? n) && (n <=? 102)).

(** [[0-9A-Fa-f]{2}]: consumes two characters of the class. *)
Definition re_hex2 (s : string) : option string :=
  match s with
  | String a (String b r) => if is_hex_char a && is_hex_char b then Some r else None
  | _ => None
  end.

(** [([0-9A-Fa-f]{2}:)]: one group of the repetition. *)
Definition re_group (s : string) : option string :=
  match re_hex2 s with
  | Some (String c r) => if Ascii.eqb c ":" then Some r else None
  | _ => None
  end.

(** [p{n}]: [p] matched [n] times in a row. *)
Fixpoint re_repeat (n : nat) (p : string -> option string) (s : string) : option string :=
  match n with
  | O => Some s
  | S k => match p s with
           | Some r => re_repeat k p r
           | None => None
           end
  end.

(** [$] without [re.MULTILINE]: the end of the string, or the position
    before a newline that ends the string. *)
Definition re_end (s : string) : bool :=
  match s with
  | EmptyString => true
  | String c EmptyString => Ascii.eqb c "010"
  | _ => false
  end.

(** [MAC_REGEX.match(value)] for
    [^([0-9A-Fa-f]{2}:){5}[0-9A-Fa-f]{2}$]. The pattern has no
    alternative and only fixed counts, so matching is a single pass. *)
Definition MAC_REGEX_match (value : string) : bool :=
  match re_repeat 5 re_group value with
  | Some r => match re_hex2 r with
              | Some r' => re_end r'
              | None => false
              end
  | None => false
  end.

(** Exceptions of the program. [ValueError], [OSError] and [OverflowError]
    carry the text that [str(exc)] gives; the exact wording of the runtime
    is not modelled. *)
Inductive Exc : Type :=
| ValueError (msg : string)
| OSError (msg : string)
| OverflowError (msg : string)
| JobLookupError (job_id : string)
| HTTPException (status_code : Z) (detail : string).

Definition exc_str (e : Exc) : string :=
  match e with
  | ValueError m => m
  | OSError m => m
  | OverflowError m => m
  | JobLookupError j => j
  | HTTPException _ d => d
  end.

(** [WakeRequest.validate_mac] and [DeviceCreate.validate_mac] (the two
    bodies are the same text). *)
Definition validate_mac (value : string) : Exc + string :=
  let value := PyStr.upper (PyStr.strip value) in
  if negb (MAC_REGEX_match value)
  then inl (ValueError "Invalid MAC address format. Use AA:BB:CC:DD:EE:FF")
  else inr value.

(** [broadcast: str | list[str] | None]. *)
Inductive RawBroadcast : Type :=
| BNone
| BStr (s : string)
| BList (l : list string).

Record WakeRequest : Type := {
  wr_mac : string;
  wr_broadcast : RawBroadcast
}.

Record DeviceCreate : Type := {
  dc_name : string;
  dc_mac : string;
  dc_ip : option string;
  dc_broadcasts : option (list string);
  dc_shutdown_url : option string
}.

Record ScheduleCreate : Type := {
  sc_device_id : Z;
  sc_cron : string;
  sc_broadcasts : option (list string)
}.

Definition strlen (s : string) : Z := Z.of_nat (String.length s).

Definition opt_max_length (n : Z) (o : option string) : bool :=
  match o with
  | None => true
  | Some s => strlen s <=? n
  end.

(** Construction of a [WakeRequest] from the request body: the field
    validator runs on [mac]. *)
Definition WakeRequest_validate (mac : string) (broadcast : RawBroadcast)
  : Exc + WakeRequest :=
  match validate_mac mac with
  | inl e => inl e
  | inr m => inr {| wr_mac := m; wr_broadcast := broadcast |}
  end.

(** Construction of a [DeviceCreate]: the [Field] length constraints and the
    field validator on [mac]. *)
Definition DeviceCreate_validate (name mac : string) (ip : option string)
    (broadcasts : option (list string)) (shutdown_url : option string)
  : Exc + DeviceCreate :=
  if negb ((1 <=? strlen name) && (strlen name <=? 100))
  then inl (ValueError "name: length out of range")
  else match validate_mac mac with
       | inl e => inl e
       | inr m =>
           if negb (opt_max_length 255 ip)
           then inl (ValueError "ip: too long")
           else if negb (opt_max_length 500 shutdown_url)
           then inl (ValueError "shutdown_url: too long")
           else inr {| dc_name := name; dc_mac := m; dc_ip := ip;
                       dc_broadcasts := broadcasts;
                       dc_shutdown_url := shutdown_url |}
       end.

(** [ApiMessage.data], one constructor per shape the handlers build. *)
Inductive ApiData : Type :=
| DataWake (mac : string) (broadcasts : list string)
| DataId (id : Z).

Record ApiMessage : Type := {
  success : bool;
  message : string;
  data : option ApiData
}.

(** ** app/config.py *)

Record Settings : Type := {
  default_broadcasts : list string
}.

(** ** app/database.py: the record store *)

Record DeviceRow : Type := {
  d_id : Z;
  d_name : string;
  d_mac : string;
  d_ip : option string;
  d_broadcasts : list string;
  d_shutdown_url : option string;
  d_created_at : string
}.

Record ScheduleRow : Type := {
  s_id : Z;
  s_device_id : Z;
  s_cron_expr : string;
  s_broadcasts : option (list string);
  s_enabled : Z;
  s_created_at : string
}.

(** The two tables, with the [AUTOINCREMENT] counters of [sqlite_sequence]
    (the largest row id ever given out by each table). *)
Record Database : Type := {
  devices : list DeviceRow;
  schedules : list ScheduleRow;
  devices_seq : Z;
  schedules_seq : Z
}.

(** The statements of [app/database.py] as functions on the tables. An
    identifier given to them is one the driver can bind, a number within
    the range of an [INTEGER]; for any other the driver raises
    [OverflowError] before the statement runs (see [sqlite_bind]). *)
Module Db.

Definition get_device (db : Database) (device_id : Z) : option DeviceRow :=
  List.find (fun r => d_id r =? device_id) (devices db).

Definition add_device (db : Database) (name mac : string) (ip : option string)
    (broadcasts_json : list string) (shutdown_url : option string)
    (created_at : string) : Z * Database :=
  let device_id := devices_seq db + 1 in
  let row := {| d_id := device_id; d_name := name; d_mac := mac; d_ip := ip;
                d_broadcasts := broadcasts_json;
                d_shutdown_url := shutdown_url; d_created_at := created_at |} in
  (device_id,
   {| devices := devices db ++ [row]; schedules := schedules db;
      devices_seq := device_id; schedules_seq := schedules_seq db |}).

(** Both [DELETE] statements; the result is [cursor.rowcount] of the
    second. *)
Definition delete_device (db : Database) (device_id : Z) : Z * Database :=
  let schedules' := List.filter (fun s => negb (s_device_id s =? device_id)) (schedules db) in
  let gone := List.filter (fun r => d_id r =? device_id) (devices db) in
  let devices' := List.filter (fun r => negb (d_id r =? device_id)) (devices db) in
  (Z.of_nat (length gone),
   {| devices := devices'; schedules := schedules';
      devices_seq := devices_seq db; schedules_seq := schedules_seq db |}).

Definition add_schedule (db : Database) (device_id : Z) (cron_expr : string)
    (broadcasts_json : option (list string)) (created_at : string) : Z * Database :=
  let schedule_id := schedules_seq db + 1 in
  let row := {| s_id := schedule_id; s_device_id := device_id;
                s_cron_expr := cron_expr; s_broadcasts := broadcasts_json;
                s_enabled := 1; s_created_at := created_at |} in
  (schedule_id,
   {| devices := devices db; schedules := schedules db ++ [row];
      devices_seq := devices_seq db; schedules_seq := schedule_id |}).

Definition list_schedule_ids_for_device (db : Database) (device_id : Z) : list Z :=
  List.map s_id (List.filter (fun s => s_device_id s =? device_id) (schedules db)).

Definition delete_schedule (db : Database) (schedule_id : Z) : Z * Database :=
  let gone := List.filter (fun s => s_id s =? schedule_id) (schedules db) in
  (Z.of_nat (length gone),
   {| devices := devices db;
      schedules := List.filter (fun s => negb (s_id s =? schedule_id)) (schedules db);
      devices_seq := devices_seq db; schedules_seq := schedules_seq db |}).

(** [ORDER BY key ASC]: insertion of each row into the sorted rest. *)
Fixpoint insert_sorted {A : Type} (key : A -> Z) (x : A) (l : list A) : list A :=
  match l with
  | [] => [x]
  | y :: r => if key x <=? key y then x :: l else y :: insert_sorted key x r
  end.

Definition order_by {A : Type} (key : A -> Z) (l : list A) : list A :=
  List.fold_right (insert_sorted key) [] l.

Definition list_devices (db : Database) : list DeviceRow :=
  order_by d_id (devices db).

(** The [JOIN] of [list_schedules]: each schedule with the name of each
    device whose id is its [device_id], ordered by schedule id. *)
Definition list_schedules (db : Database) : list (ScheduleRow * string) :=
  order_by (fun item => s_id (fst item))
    (List.flat_map
       (fun s => List.map (fun d => (s, d_name d))
                   (List.filter (fun d => d_id d =? s_device_id s) (devices db)))
       (schedules db)).

End Db.

(** ** The world the handlers and jobs run in *)

Inductive LogEntry : Type :=
| wake_sent (mac broadcast : string)
| wake_failed (mac broadcast error : string)
| scheduled_wake_sent (schedule_id device_id : Z) (broadcast : string)
| scheduled_wake_failed (schedule_id device_id : Z) (broadcast error : string)
| schedule_device_not_found (schedule_id device_id : Z)
| device_created (device_id : Z) (name : string)
| device_deleted (device_id : Z)
| schedule_created (schedule_id device_id : Z)
| job_raised (job_id error : string).

Inductive Level : Type := INFO | WARNING | ERROR.

(** The logger method each event is emitted with. *)
Definition level (e : LogEntry) : Level :=
  match e with
  | wake_failed _ _ _ | scheduled_wake_failed _ _ _ _ | job_raised _ _ => ERROR
  | schedule_device_not_found _ _ => WARNING
  | _ => INFO
  end.

(** One call of [sock.sendto(packet, (host, port))] and whether it went
    through. *)
Record SendCall : Type := {
  tx_packet : list Z;
  tx_host : string;
  tx_port : Z;
  tx_ok : bool
}.

(** The trigger compiled by [CronTrigger.from_crontab], represented by the
    expression it was compiled from. *)
Record CronTrigger : Type := { trigger_expr : string }.

(** A job of the scheduler. The callable returned by [schedule_job] is
    represented by the three variables its closure captures. *)
Record Job : Type := {
  job_schedule_id : Z;
  job_device_id : Z;
  job_broadcasts : option (list string);
  job_trigger : CronTrigger
}.

(** [link k host port] tells whether the [k]-th call of [sendto] of the
    process (counted from 0) goes through when it is addressed to
    [(host, port)]; [now] is the reading of the wall clock. *)
Record World : Type := {
  db : Database;
  jobs : gmap string Job;
  sendto_calls : list SendCall;
  log : list LogEntry;
  link : nat -> string -> Z -> bool;
  now : string
}.

Definition set_db (d : Database) (w : World) : World :=
  {| db := d; jobs := jobs w; sendto_calls := sendto_calls w; log := log w;
     link := link w; now := now w |}.

Definition set_jobs (j : gmap string Job) (w : World) : World :=
  {| db := db w; jobs := j; sendto_calls := sendto_calls w; log := log w;
     link := link w; now := now w |}.

Definition add_sendto_call (c : SendCall) (w : World) : World :=
  {| db := db w; jobs := jobs w; sendto_calls := sendto_calls w ++ [c];
     log := log w; link := link w; now := now w |}.

Definition add_log (e : LogEntry) (w : World) : World :=
  {| db := db w; jobs := jobs w; sendto_calls := sendto_calls w;
     log := log w ++ [e]; link := link w; now := now w |}.

(** State and exceptions. *)
Definition M (A : Type) : Type := World -> (Exc + A) * World.

Definition ret {A : Type} (a : A) : M A := fun w => (inr a, w).

Definition raise {A : Type} (e : Exc) : M A := fun w => (inl e, w).

Definition bind {A B : Type} (m : M A) (f : A -> M B) : M B :=
  fun w => match m w with
           | (inl e, w') => (inl e, w')
           | (inr a, w') => f a w'
           end.

(** [try: body except Exception as exc: handler]. *)
Definition try_except {A : Type} (body : M A) (handler : Exc -> M A) : M A :=
  fun w => match body w with
           | (inl e, w') => handler e w'
           | (inr a, w') => (inr a, w')
           end.

Notation "'do' x <- m ; k" := (bind m (fun x => k))
  (at level 10, x name, m at level 100, k at level 200).

(** [for x in l: body]. *)
Fixpoint for_each {A : Type} (l : list A) (body : A -> M unit) : M unit :=
  match l with
  | [] => ret tt
  | x :: rest => do _ <- body x; for_each rest body
  end.

Definition get_world : M World := fun w => (inr w, w).

Definition logger (e : LogEntry) : M unit := fun w => (inr tt, add_log e w).

(** [sock.sendto]: the call is recorded; it raises [OSError] when the link
    does not take the datagram. Creating the socket, setting [SO_BROADCAST]
    and closing it are taken to succeed. *)
Definition sendto (packet : list Z) (host : string) (port : Z) : M unit :=
  fun w =>
    let ok := link w (length (sendto_calls w)) host port in
    let w' := add_sendto_call {| tx_packet := packet; tx_host := host;
                                 tx_port := port; tx_ok := ok |} w in
    if ok then (inr tt, w') else (inl (OSError "sendto failed"), w').

(** The range of an [INTEGER] of SQLite: a signed 64-bit number. *)
Definition sqlite_int64 (n : Z) : bool :=
  (-9223372036854775808 <=? n) && (n <=? 9223372036854775807).

(** Binding a Python [int] to a parameter of a statement: the driver raises
    [OverflowError], before the statement runs, when the number is outside
    the range of an [INTEGER]. *)
Definition sqlite_bind (n : Z) : M unit :=
  if sqlite_int64 n then ret tt
  else raise (OverflowError "Python int too large to convert to SQLite INTEGER").

(** ** app/wol.py: sending *)

Definition send_magic_packet (mac broadcast : string) (port : Z) : M unit :=
  match normalize_mac mac with
  | None => raise (ValueError "non-hexadecimal number found in fromhex() arg")
  | Some mac_bytes =>
      let packet := PyStr.bytes_mul [255] 6 ++ PyStr.bytes_mul mac_bytes 16 in
      sendto packet broadcast port
  end.

(** ** The scheduler's job table (APScheduler) *)

Module Scheduler.

(** [add_job(..., id=job_id, replace_existing=True)]. *)
Definition add_job (job_id : string) (j : Job) : M unit :=
  fun w => (inr tt, set_jobs (<[job_id := j]> (jobs w)) w).

Definition get_job (job_id : string) : M (option Job) :=
  fun w => (inr (jobs w !! job_id), w).

Definition remove_job (job_id : string) : M unit :=
  fun w => match jobs w !! job_id with
           | Some _ => (inr tt, set_jobs (delete job_id (jobs w)) w)
           | None => (inl (JobLookupError job_id), w)
           end.

End Scheduler.

(** The job identifier [f"schedule-{schedule_id}"]. *)
Definition job_id_of (schedule_id : Z) : string := "schedule-" +:+ pretty schedule_id.

(** Truth value of [list[str] | None]. *)
Definition truthy (o : option (list string)) : bool :=
  match o with
  | Some (_ :: _) => true
  | _ => false
  end.

(** ** app/main.py *)

Definition parse_broadcasts (raw_broadcast : RawBroadcast) (defaults : list string)
  : list string :=
  match raw_broadcast with
  | BNone => defaults
  | BStr s => [s]
  | BList l => List.filter (fun x => negb (String.eqb x "")) l
  end.

Section App.

(** [settings] is what [load_settings()] returned when the application was
    created; [crontab_valid] is the set of expressions that
    [CronTrigger.from_crontab] of APScheduler accepts. The text of the
    [ValueError] it raises on the others depends on the expression and is
    not modelled: one fixed text stands for it, and no property below
    depends on what it is. *)
Variable settings : Settings.
Variable crontab_valid : string -> bool.

Definition from_crontab (expr : string) : M CronTrigger :=
  if crontab_valid expr
  then ret {| trigger_expr := expr |}
  else raise (ValueError "Wrong number of fields or unrecognized expression").

(** The callable [_job] returned by [schedule_job(schedule_id, device_id,
    broadcasts)]. *)
Definition schedule_job (schedule_id device_id : Z)
    (broadcasts : option (list string)) : M unit :=
  do w <- get_world;
  match Db.get_device (db w) device_id with
  | None => logger (schedule_device_not_found schedule_id device_id)
  | Some device =>
      let selected :=
        if truthy broadcasts then default [] broadcasts else d_broadcasts device in
      for_each selected (fun broadcast =>
        try_except
          (do _ <- send_magic_packet (d_mac device) broadcast 9;
           logger (scheduled_wake_sent schedule_id device_id broadcast))
          (fun exc =>
             logger (scheduled_wake_failed schedule_id device_id broadcast
                       (exc_str exc))))
  end.

(** The body of the loop of [wake], with the list [sent] threaded
    through. *)
Fixpoint wake_loop (mac : string) (broadcasts sent : list string) : M (list string) :=
  match broadcasts with
  | [] => ret sent
  | broadcast :: rest =>
      do sent' <-
        try_except
          (do _ <- send_magic_packet mac broadcast 9;
           do _ <- logger (wake_sent mac broadcast);
           ret (sent ++ [broadcast]))
          (fun exc =>
             do _ <- logger (wake_failed mac broadcast (exc_str exc));
             raise (HTTPException 500 ("Error sending WOL packet: " +:+ exc_str exc)));
      wake_loop mac rest sent'
  end.

Definition wake (payload : WakeRequest) : M ApiMessage :=
  let broadcasts := parse_broadcasts (wr_broadcast payload) (default_broadcasts settings) in
  do sent <- wake_loop (wr_mac payload) broadcasts [];
  ret {| success := true; message := "Magic packet sent";
         data := Some (DataWake (wr_mac payload) sent) |}.

Definition add_device (payload : DeviceCreate) : M ApiMessage :=
  let broadcasts :=
    if truthy (dc_broadcasts payload) then default [] (dc_broadcasts payload)
    else default_broadcasts settings in
  do w <- get_world;
  let created_at := now w in
  let '(device_id, db') :=
    Db.add_device (db w) (PyStr.strip (dc_name payload)) (dc_mac payload)
      (match dc_ip payload with
       | Some ip => if String.eqb ip "" then None else Some (PyStr.strip ip)
       | None => None
       end)
      broadcasts
      (match dc_shutdown_url payload with
       | Some u => if String.eqb u "" then None else Some (PyStr.strip u)
       | None => None
       end)
      created_at in
  do _ <- (fun w => (inr tt, set_db db' w));
  do _ <- logger (device_created device_id (dc_name payload));
  ret {| success := true; message := "Device added"; data := Some (DataId device_id) |}.

(** [delete_device], for an identifier within the range of an [INTEGER];
    for any other [db.list_schedule_ids_for_device] raises [OverflowError],
    a path this definition does not have. *)
Definition delete_device (device_id : Z) : M ApiMessage :=
  do w <- get_world;
  let schedule_ids := Db.list_schedule_ids_for_device (db w) device_id in
  let '(deleted, db') := Db.delete_device (db w) device_id in
  do _ <- (fun w => (inr tt, set_db db' w));
  if deleted =? 0 then raise (HTTPException 404 "Device not found")
  else
    do _ <- for_each schedule_ids (fun schedule_id =>
              let job_id := job_id_of schedule_id in
              do j <- Scheduler.get_job job_id;
              match j with
              | Some _ => Scheduler.remove_job job_id
              | None => ret tt
              end);
    do _ <- logger (device_deleted device_id);
    ret {| success := true; message := "Device deleted"; data := None |}.

(** [add_schedule]. The device identifier of the request is any Python
    [int]: [db.get_device] binds it first, which can raise
    [OverflowError]. *)
Definition add_schedule (payload : ScheduleCreate) : M ApiMessage :=
  do _ <- sqlite_bind (sc_device_id payload);
  do w <- get_world;
  match Db.get_device (db w) (sc_device_id payload) with
  | None => raise (HTTPException 404 "Device not found")
  | Some device =>
      do trigger <-
        try_except (from_crontab (sc_cron payload))
          (fun exc => raise (HTTPException 400
                               ("Invalid cron expression: " +:+ exc_str exc)));
      do w <- get_world;
      let created_at := now w in
      let broadcasts_json :=
        if truthy (sc_broadcasts payload) then sc_broadcasts payload else None in
      let '(schedule_id, db') :=
        Db.add_schedule (db w) (sc_device_id payload) (sc_cron payload)
          broadcasts_json created_at in
      do _ <- (fun w => (inr tt, set_db db' w));
      do _ <- Scheduler.add_job (job_id_of schedule_id)
                {| job_schedule_id := schedule_id;
                   job_device_id := sc_device_id payload;
                   job_broadcasts := sc_broadcasts payload;
                   job_trigger := trigger |};
      do _ <- logger (schedule_created schedule_id (sc_device_id payload));
      ret {| success := true; message := "Schedule added";
             data := Some (DataId schedule_id) |}
  end.

(** One fire of an armed job, as the scheduler's executor performs it: the
    job's callable is run, an exception it raises is logged by the executor,
    and the job table is left as it is (a cron trigger always has a next
    fire time). *)
Definition fire (job_id : string) : M unit :=
  do j <- Scheduler.get_job job_id;
  match j with
  | None => ret tt
  | Some j =>
      try_except
        (schedule_job (job_schedule_id j) (job_device_id j) (job_broadcasts j))
        (fun exc => logger (job_raised job_id (exc_str exc)))
  end.

End App.

(** ** The canonical form of a MAC address, as the specification words it *)

(** An uppercase hexadecimal digit. *)
Definition is_upper_hex (c : ascii) : bool :=
  let n := Z.of_N (N_of_ascii c) in
  ((48 <=? n) && (n <=? 57)) || ((65 <=? n) && (n <=? 70)).

(** [canonical_pairs n s]: [s] is [n + 1] pairs of uppercase hexadecimal
    digits separated by colons. *)
Fixpoint canonical_pairs (n : nat) (s : string) : bool :=
  match s with
  | String a (String b r) =>
      is_upper_hex a && is_upper_hex b &&
      match n, r with
      | O, EmptyString => true
      | S k, String c r' => Ascii.eqb c ":" && canonical_pairs k r'
      | _, _ => false
      end
  | _ => false
  end.

(** Canonical form: six uppercase hex byte-pairs separated by colons. *)
Definition is_canonical_mac (s : string) : bool := canonical_pairs 5 s.

(** The value of an uppercase hexadecimal digit. *)
Definition hex_value (c : ascii) : Z :=
  let n := Z.of_N (N_of_ascii c) in
  if n <=? 57 then n - 48 else n - 55.

(** The raw bytes a canonical MAC address denotes: one byte per pair, the
    first digit being the high half. *)
Fixpoint mac_octets (s : string) : list Z :=
  match s with
  | String a (String b r) =>
      hex_value a * 16 + hex_value b ::
      match r with
      | String _ r' => mac_octets r'
      | EmptyString => []
      end
  | _ => []
  end.

(** ** Concrete worlds for the examples *)

Definition empty_db : Database :=
  {| devices := []; schedules := []; devices_seq := 0; schedules_seq := 0 |}.

(** A freshly started process over the store [d], with the link behaviour
    [l]. *)
Definition start_world (d : Database) (l : nat -> string -> Z -> bool) : World :=
  {| db := d; jobs := ∅; sendto_calls := []; log := []; link := l;
     now := "2024-01-01T00:00:00+00:00" |}.

(** A link that takes every datagram, and one that is down for a single
    host. *)
Definition link_up : nat -> string -> Z -> bool := fun _ _ _ => true.

Definition link_down_for (host : string) : nat -> string -> Z -> bool :=
  fun _ h _ => negb (String.eqb h host).

(** A store with one device and one schedule on it, and the world in which
    that schedule is armed. *)
Definition device1 : DeviceRow :=
  {| d_id := 1; d_name := "nas"; d_mac := "AA:BB:CC:DD:EE:FF"; d_ip := None;
     d_broadcasts := ["10.0.0.255"; "10.0.1.255"]; d_shutdown_url := None;
     d_created_at := "2024-01-01T00:00:00+00:00" |}.

Definition schedule1 : ScheduleRow :=
  {| s_id := 1; s_device_id := 1; s_cron_expr := "0 7 * * 1-5";
     s_broadcasts := None; s_enabled := 1;
     s_created_at := "2024-01-01T00:00:00+00:00" |}.

Definition db1 : Database :=
  {| devices := [device1]; schedules := [schedule1];
     devices_seq := 1; schedules_seq := 1 |}.

Definition job1 : Job :=
  {| job_schedule_id := 1; job_device_id := 1; job_broadcasts := None;
     job_trigger := {| trigger_expr := "0 7 * * 1-5" |} |}.

Definition armed_world (d : Database) (l : nat -> string -> Z -> bool) : World :=
  set_jobs (<[job_id_of 1 := job1]> ∅) (start_world d l).

(** The same store before the schedule is created, and after the device's
    broadcast list has been edited. *)
Definition db0 : Database :=
  {| devices := [device1]; schedules := []; devices_seq := 1; schedules_seq := 0 |}.

Definition device1_moved : DeviceRow :=
  {| d_id := 1; d_name := "nas"; d_mac := "AA:BB:CC:DD:EE:FF"; d_ip := None;
     d_broadcasts := ["192.168.1.255"]; d_shutdown_url := None;
     d_created_at := "2024-01-01T00:00:00+00:00" |}.

Definition db1_moved : Database :=
  {| devices := [device1_moved]; schedules := [schedule1];
     devices_seq := 1; schedules_seq := 1 |}.

(** A store where the device has two schedules, both armed. *)
Definition schedule2 : ScheduleRow :=
  {| s_id := 2; s_device_id := 1; s_cron_expr := "30 22 * * *";
     s_broadcasts := Some ["10.0.0.255"]; s_enabled := 1;
     s_created_at := "2024-01-02T00:00:00+00:00" |}.

Definition db2 : Database :=
  {| devices := [device1]; schedules := [schedule1; schedule2];
     devices_seq := 1; schedules_seq := 2 |}.

Definition job2 : Job :=
  {| job_schedule_id := 2; job_device_id := 1; job_broadcasts := Some ["10.0.0.255"];
     job_trigger := {| trigger_expr := "30 22 * * *" |} |}.

Definition armed2_world : World :=
  set_jobs (<[job_id_of 2 := job2]> (<[job_id_of 1 := job1]> ∅)) (start_world db2 link_up).

(** ** Notions used in the statements *)

(** [HexText s bs]: [s] is a run of hexadecimal digit pairs, each possibly
    preceded by ASCII white space, possibly followed by white space, and
    [bs] are the bytes the pairs denote. *)
Inductive HexText : string -> list Z -> Prop :=
| HexText_end : HexText EmptyString []
| HexText_space c s bs :
    PyStr.Py_ISSPACE c = true -> HexText s bs -> HexText (String c s) bs
| HexText_byte a b s bs x y :
    PyStr.digit_value a = Some x -> PyStr.digit_value b = Some y ->
    HexText s bs -> HexText (String a (String b s)) (x * 16 + y :: bs).

(** The calls and log lines that a run of successful sends leaves. *)
Definition calls_to (packet : list Z) (ok : bool) (targets : list string) : list SendCall :=
  List.map (fun t => {| tx_packet := packet; tx_host := t; tx_port := 9; tx_ok := ok |})
    targets.

Definition after_wake_sends (mac : string) (packet : list Z) (targets : list string)
    (w : World) : World :=
  {| db := db w; jobs := jobs w;
     sendto_calls := sendto_calls w ++ calls_to packet true targets;
     log := log w ++ List.map (wake_sent mac) targets;
     link := link w; now := now w |}.

(** The log line a scheduled fire leaves for one target, and its agreement
    with the socket call made for that target. *)
Definition logged_for (sid did : Z) (b : string) (e : LogEntry) : Prop :=
  e = scheduled_wake_sent sid did b \/ exists err, e = scheduled_wake_failed sid did b err.

Definition call_logged (sid did : Z) (packet : list Z) (c : SendCall) (e : LogEntry) : Prop :=
  tx_packet c = packet /\ tx_port c = 9 /\
  e = if tx_ok c then scheduled_wake_sent sid did (tx_host c)
      else scheduled_wake_failed sid did (tx_host c) "sendto failed".

(** What the loop of [_job] over [selected] does to the world. *)
Definition job_loop_post (sid did : Z) (mac : string) (selected : list string)
    (w w' : World) : Prop :=
  db w' = db w /\ jobs w' = jobs w /\ link w' = link w /\ now w' = now w /\
  exists entries calls,
    log w' = log w ++ entries /\
    sendto_calls w' = sendto_calls w ++ calls /\
    Forall2 (logged_for sid did) selected entries /\
    match build_packet mac with
    | Some packet =>
        List.map tx_host calls = selected /\
        Forall2 (call_logged sid did packet) calls entries
    | None => calls = []
    end.

Fixpoint all_chars (P : ascii -> Prop) (s : string) : Prop :=
  match s with
  | EmptyString => True
  | String c r => P c /\ all_chars P r
  end.

Fixpoint last_char (s : string) : option ascii :=
  match s with
  | EmptyString => None
  | String c r => match last_char r with
                  | Some d => Some d
                  | None => Some c
                  end
  end.

(** The tail of [MAC_REGEX] after [n] groups are still to be matched. *)
Definition regex_tail (n : nat) (s : string) : bool :=
  match re_repeat n re_group s with
  | Some r => match re_hex2 r with
              | Some r' => re_end r'
              | None => false
              end
  | None => false
  end.

(** ** app/config.py: the whole settings record and its loader *)

Module Config.

Definition parse_bool (value : option string) (default : bool) : bool :=
  match value with
  | None => default
  | Some v =>
      let t := PyStr.lower (PyStr.strip v) in
      String.eqb t "1" || String.eqb t "true" || String.eqb t "yes" || String.eqb t "on"
  end.

Record Settings : Type := {
  port : Z;
  db_path : string;
  default_broadcasts : list string;
  enable_auth : bool;
  auth_user : string;
  auth_pass : string;
  enable_rate_limit : bool;
  rate_limit_requests : Z;
  rate_limit_window_seconds : Z;
  log_level : string
}.

(** [os.getenv(name, fallback)] over the environment [env]. *)
Definition getenv (env : string -> option string) (name fallback : string) : string :=
  match env name with
  | Some v => v
  | None => fallback
  end.

(** The list comprehension and the fallback of [load_settings]. *)
Definition load_broadcasts (env : string -> option string) : list string :=
  let raw_broadcasts := getenv env "DEFAULT_BROADCAST" "255.255.255.255" in
  let broadcasts :=
    List.map PyStr.strip
      (List.filter (fun x => negb (String.eqb (PyStr.strip x) ""))
         (PyStr.split "," raw_broadcasts)) in
  match broadcasts with
  | [] => ["255.255.255.255"]
  | _ => broadcasts
  end.

(** [load_settings()]. [py_int] is [int] of the Python runtime on a string,
    [None] when it raises [ValueError]; the result is [None] when one of the
    three conversions raises. *)
Definition load_settings (py_int : string -> option Z) (env : string -> option string)
  : option Settings :=
  let broadcasts := load_broadcasts env in
  match py_int (getenv env "PORT" "7070") with
  | None => None
  | Some port_ =>
      match py_int (getenv env "RATE_LIMIT_REQUESTS" "60") with
      | None => None
      | Some requests_ =>
          match py_int (getenv env "RATE_LIMIT_WINDOW_SECONDS" "60") with
          | None => None
          | Some window_ =>
              Some {| port := port_;
                      db_path := getenv env "DB_PATH" "/data/devices.db";
                      default_broadcasts := broadcasts;
                      enable_auth := parse_bool (Some (getenv env "ENABLE_AUTH" "false")) false;
                      auth_user := getenv env "AUTH_USER" "";
                      auth_pass := getenv env "AUTH_PASS" "";
                      enable_rate_limit :=
                        parse_bool (Some (getenv env "ENABLE_RATE_LIMIT" "true")) true;
                      rate_limit_requests := requests_;
                      rate_limit_window_seconds := window_;
                      log_level := PyStr.upper (getenv env "LOG_LEVEL" "INFO") |}
          end
      end
  end.

End Config.

(** The part of the settings that the handlers of [app/main.py] read. *)
Definition handler_settings (s : Config.Settings) : Settings :=
  {| default_broadcasts := Config.default_broadcasts s |}.

(** ** Responses of the middlewares *)

(** A [JSONResponse] built by a middleware: status, whether the header
    [WWW-Authenticate: Basic] is set, the message of the body, and the
    [data] of the body (limit and window) when there is one. *)
Record JSONResponse : Type := {
  status_code : Z;
  www_authenticate : bool;
  content_message : string;
  content_data : option (Z * Z)
}.

(** What a middleware does with a request: hand it on to [call_next],
    answer it itself, or let a [TypeError] escape. *)
Inductive Outcome : Type :=
| CallNext
| Respond (r : JSONResponse)
| RaiseTypeError.

(** ** app/rate_limit.py *)

Section RateLimit.

(** The clock values ([float] in the source) are kept abstract: [time_lt]
    is [<] on them and [time_minus t n] is [t - n] for an integer [n] that
    converts to a [float]; for a window that does not, the subtraction
    raises [OverflowError], a path this model does not have. *)
Variable Stamp : Type.
Variable time_lt : Stamp -> Stamp -> bool.
Variable time_minus : Stamp -> Z -> Stamp.

(** [while bucket and bucket[0] < window_start: bucket.popleft()]. *)
Fixpoint popleft_while (window_start : Stamp) (bucket : list Stamp) : list Stamp :=
  match bucket with
  | [] => []
  | t :: rest => if time_lt t window_start then popleft_while window_start rest else bucket
  end.

(** [rate_limit_middleware] on a request whose client host is [client]
    ([None] when [request.client] is missing), at clock reading [now], over
    the dictionary [requests_by_ip] of the closure. Reading a missing key of
    the [defaultdict] creates it. *)
Definition rate_limit_middleware (settings : Config.Settings) (client : option string)
    (now : Stamp) (requests_by_ip : gmap string (list Stamp))
  : Outcome * gmap string (list Stamp) :=
  if negb (Config.enable_rate_limit settings) then (CallNext, requests_by_ip)
  else
    let ip := match client with Some h => h | None => "unknown" end in
    let window_start := time_minus now (Config.rate_limit_window_seconds settings) in
    let bucket := match requests_by_ip !! ip with Some b => b | None => [] end in
    let bucket := popleft_while window_start bucket in
    if Z.of_nat (length bucket) >=? Config.rate_limit_requests settings
    then (Respond {| status_code := 429; www_authenticate := false;
                     content_message := "Rate limit exceeded";
                     content_data := Some (Config.rate_limit_requests settings,
                                           Config.rate_limit_window_seconds settings) |},
          <[ip := bucket]> requests_by_ip)
    else (CallNext, <[ip := bucket ++ [now]]> requests_by_ip).

(** The middleware over a sequence of requests, oldest first: the outcomes
    and the dictionary at the end. *)
Fixpoint rate_limit_run (settings : Config.Settings)
    (requests : list (option string * Stamp)) (requests_by_ip : gmap string (list Stamp))
  : list Outcome * gmap string (list Stamp) :=
  match requests with
  | [] => ([], requests_by_ip)
  | (client, now) :: rest =>
      let '(o, d) := rate_limit_middleware settings client now requests_by_ip in
      let '(os, d') := rate_limit_run settings rest d in
      (o :: os, d')
  end.

End RateLimit.

(** ** app/security.py *)

Section Security.

(** [b64decode_utf8 s] is [base64.b64decode(s).decode("utf-8")], [None]
    when either step raises. *)
Variable b64decode_utf8 : string -> option string.

Definition unauthorized (msg : string) : Outcome :=
  Respond {| status_code := 401; www_authenticate := true;
             content_message := msg; content_data := None |}.

(** [hmac.compare_digest] on two [str]: it refuses strings that are not
    ASCII. *)
Definition compare_digest (a b : string) : option bool :=
  if PyStr.isascii a && PyStr.isascii b then Some (String.eqb a b) else None.

(** [auth_middleware] on a request whose [Authorization] header is
    [authorization] ([None] when the header is missing). *)
Definition auth_middleware (settings : Config.Settings) (authorization : option string)
  : Outcome :=
  if negb (Config.enable_auth settings) then CallNext
  else if String.eqb (Config.auth_user settings) ""
          || String.eqb (Config.auth_pass settings) ""
  then Respond {| status_code := 500; www_authenticate := false;
                  content_message := "Auth enabled but AUTH_USER/AUTH_PASS are missing";
                  content_data := None |}
  else
    let auth_header := match authorization with Some h => h | None => "" end in
    if negb (String.prefix "Basic " auth_header)
    then unauthorized "Authentication required"
    else
      match PyStr.split1 " " auth_header with
      | _ :: encoded :: _ =>
          match b64decode_utf8 encoded with
          | Some raw =>
              match PyStr.split1 ":" raw with
              | [provided_user; provided_pass] =>
                  match compare_digest provided_user (Config.auth_user settings) with
                  | None => RaiseTypeError
                  | Some user_ok =>
                      match compare_digest provided_pass (Config.auth_pass settings) with
                      | None => RaiseTypeError
                      | Some pass_ok =>
                          if negb (user_ok && pass_ok)
                          then unauthorized "Invalid credentials"
                          else CallNext
                      end
                  end
              | _ => unauthorized "Invalid auth header"
              end
          | None => unauthorized "Invalid auth header"
          end
      | _ => unauthorized "Invalid auth header"
      end.

End Security.

(** ** app/main.py: the remaining handlers that change the tables *)

(** The two [logger.info] lines of these handlers; they are kept on a list
    of their own, beside the world. *)
Inductive InfoEvent : Type :=
| schedule_deleted (schedule_id : Z)
| scheduler_started.

Record Process : Type := {
  world : World;
  info_log : list InfoEvent
}.

Definition P (A : Type) : Type := Process -> (Exc + A) * Process.

(** A computation on the world, run inside the process. *)
Definition lift {A : Type} (m : M A) : P A :=
  fun p => let '(r, w) := m (world p) in
           (r, {| world := w; info_log := info_log p |}).

Definition bindP {A B : Type} (m : P A) (f : A -> P B) : P B :=
  fun p => match m p with
           | (inl e, p') => (inl e, p')
           | (inr a, p') => f a p'
           end.

Definition log_info (e : InfoEvent) : P unit :=
  fun p => (inr tt, {| world := world p; info_log := info_log p ++ [e] |}).

Section AppTables.

Variable settings : Settings.
Variable crontab_valid : string -> bool.

(** [delete_schedule], for an identifier within the range of an [INTEGER];
    for any other [db.delete_schedule] raises [OverflowError], a path this
    definition does not have. *)
Definition delete_schedule (schedule_id : Z) : P ApiMessage :=
  bindP (lift (fun w =>
                 let '(deleted, db') := Db.delete_schedule (db w) schedule_id in
                 (inr deleted, set_db db' w)))
    (fun deleted =>
       if deleted =? 0 then lift (raise (HTTPException 404 "Schedule not found"))
       else
         bindP (lift (let job_id := job_id_of schedule_id in
                      do j <- Scheduler.get_job job_id;
                      match j with
                      | Some _ => Scheduler.remove_job job_id
                      | None => ret tt
                      end))
           (fun _ =>
              bindP (log_info (schedule_deleted schedule_id))
                (fun _ => lift (ret {| success := true; message := "Schedule deleted";
                                       data := None |})))).

(** The job [startup_event] arms for a listed schedule. *)
Definition job_of_row (s : ScheduleRow) : Job :=
  {| job_schedule_id := s_id s; job_device_id := s_device_id s;
     job_broadcasts := s_broadcasts s;
     job_trigger := {| trigger_expr := s_cron_expr s |} |}.

(** [startup_event]: starting the scheduler thread changes no table; a
    [ValueError] of [from_crontab] is not caught. *)
Definition startup_event : P unit :=
  bindP (lift (do w <- get_world;
               for_each (Db.list_schedules (db w)) (fun item =>
                 if s_enabled (fst item) =? 0 then ret tt
                 else
                   do trigger <- from_crontab crontab_valid (s_cron_expr (fst item));
                   Scheduler.add_job (job_id_of (s_id (fst item)))
                     {| job_schedule_id := s_id (fst item);
                        job_device_id := s_device_id (fst item);
                        job_broadcasts := s_broadcasts (fst item);
                        job_trigger := trigger |})))
    (fun _ => log_info scheduler_started).

(** One call into the running application: a request handler, or a fire of
    the scheduler. *)
Inductive Call : Type :=
| CallWake (payload : WakeRequest)
| CallAddDevice (payload : DeviceCreate)
| CallDeleteDevice (device_id : Z)
| CallAddSchedule (payload : ScheduleCreate)
| CallDeleteSchedule (schedule_id : Z)
| CallFire (job_id : string).

Definition perform (c : Call) (p : Process) : Process :=
  match c with
  | CallWake payload => snd (lift (wake settings payload) p)
  | CallAddDevice payload => snd (lift (add_device settings payload) p)
  | CallDeleteDevice device_id => snd (lift (delete_device device_id) p)
  | CallAddSchedule payload => snd (lift (add_schedule crontab_valid payload) p)
  | CallDeleteSchedule schedule_id => snd (delete_schedule schedule_id p)
  | CallFire job_id => snd (lift (fire job_id) p)
  end.

Definition perform_all (cs : list Call) (p : Process) : Process :=
  List.fold_left (fun p c => perform c p) cs p.

End AppTables.

(** ** Well-formed stores and the job table in step with the store *)

(** Row ids are distinct and never above the counter of their table, and
    every schedule refers to a device of the store. *)
Definition store_wf (d : Database) : Prop :=
  NoDup (List.map d_id (devices d)) /\
  Forall (fun r => d_id r <= devices_seq d) (devices d) /\
  NoDup (List.map s_id (schedules d)) /\
  Forall (fun s => s_id s <= schedules_seq d) (schedules d) /\
  Forall (fun s => is_Some (Db.get_device d (s_device_id s))) (schedules d).

(** The override a job or a row carries, an empty list counting as none. *)
Definition effective_override (o : option (list string)) : option (list string) :=
  if truthy o then o else None.

(** The job [j] is the job of the schedule row [s]. *)
Definition job_matches (s : ScheduleRow) (j : Job) : Prop :=
  job_schedule_id j = s_id s /\
  job_device_id j = s_device_id s /\
  effective_override (job_broadcasts j) = effective_override (s_broadcasts s) /\
  trigger_expr (job_trigger j) = s_cron_expr s.

(** Every armed job is the job of an enabled row of the store, under the
    identifier of that row, and every enabled row has its job armed. *)
Definition in_step (w : World) : Prop :=
  store_wf (db w) /\
  (forall k j, jobs w !! k = Some j ->
     exists s, In s (schedules (db w)) /\ s_enabled s <> 0 /\
               k = job_id_of (s_id s) /\ job_matches s j) /\
  (forall s, In s (schedules (db w)) -> s_enabled s <> 0 ->
     exists j, jobs w !! job_id_of (s_id s) = Some j /\ job_matches s j).

(** [f] applied to every character of a string. *)
Fixpoint map_chars (f : ascii -> ascii) (s : string) : string :=
  match s with
  | EmptyString => EmptyString
  | String c r => String (f c) (map_chars f r)
  end.

(** The integers that convert to a [float]: the conversion raises
    [OverflowError] from [2 ^ 1024 - 2 ^ 970] on, in either direction. *)
Definition fits_float (n : Z) : bool := Z.abs n <? 2 ^ 1024 - 2 ^ 970.

(** Every bucket of the dictionary holds at most [limit] stamps. *)
Definition buckets_within {Stamp : Type} (limit : Z) (d : gmap string (list Stamp)) : Prop :=
  forall ip b, d !! ip = Some b -> Z.of_nat (length b) <= limit.

(** Settings for the examples: rate limiting on with the given limit over
    60 seconds, basic auth on with the given credentials. *)
Definition settings_with (limit : Z) (user pass : string) : Config.Settings :=
  {| Config.port := 7070; Config.db_path := "/data/devices.db";
     Config.default_broadcasts := ["255.255.255.255"];
     Config.enable_auth := true; Config.auth_user := user; Config.auth_pass := pass;
     Config.enable_rate_limit := true; Config.rate_limit_requests := limit;
     Config.rate_limit_window_seconds := 60; Config.log_level := "INFO" |}.

(** [c in s]. *)
Fixpoint has_char (c : ascii) (s : string) : bool :=
  match s with
  | EmptyString => false
  | String d r => Ascii.eqb d c || has_char c r
  end.

(** A decoder for the examples, defined on three encoded texts. *)
Definition sample_b64decode_utf8 (s : string) : option string :=
  if String.eqb s "YWRtaW46czNjcmV0" then Some "admin:s3cret"
  else if String.eqb s "YWQ6bWluOnMzY3JldA==" then Some "ad:min:s3cret"
  else if String.eqb s "w6l2ZTpwdw=="
       then Some (String (ascii_of_N 233) "ve:pw")
       else None.

(** A process for the examples: from an empty store, a device is added and
    two schedules are created on it. *)
Definition sample_settings : Settings := {| default_broadcasts := ["255.255.255.255"] |}.

Definition sample_crontab_valid (expr : string) : bool :=
  String.eqb expr "0 7 * * 1-5" || String.eqb expr "30 22 * * *".

Definition fresh_process : Process :=
  {| world := start_world empty_db link_up; info_log := [] |}.

Definition sample_device : DeviceCreate :=
  {| dc_name := " nas "; dc_mac := "AA:BB:CC:DD:EE:FF"; dc_ip := None;
     dc_broadcasts := Some ["10.0.0.255"; "10.0.1.255"]; dc_shutdown_url := None |}.

Definition sample_schedule1 : ScheduleCreate :=
  {| sc_device_id := 1; sc_cron := "0 7 * * 1-5"; sc_broadcasts := None |}.

Definition sample_schedule2 : ScheduleCreate :=
  {| sc_device_id := 1; sc_cron := "30 22 * * *"; sc_broadcasts := Some ["10.0.0.255"] |}.

Definition sample_process : Process :=
  perform_all sample_settings sample_crontab_valid
    [CallAddDevice sample_device; CallAddSchedule sample_schedule1;
     CallAddSchedule sample_schedule2] fresh_process.

(** The stamps of a sequence of requests that were handed on. *)
Fixpoint accepted {Stamp : Type} (outcomes : list Outcome) (stamps : list Stamp)
  : list Stamp :=
  match outcomes, stamps with
  | CallNext :: os, t :: ts => t :: accepted os ts
  | _ :: os, _ :: ts => accepted os ts
  | _, _ => []
  end.

(** No stamp of the list is less than an earlier one. *)
Fixpoint nondecreasing {Stamp : Type} (time_lt : Stamp -> Stamp -> bool)
    (l : list Stamp) : Prop :=
  match l with
  | [] => True
  | t :: r => (forall u, In u r -> time_lt u t = false) /\ nondecreasing time_lt r
  end.

(** The bucket of a client, empty when the dictionary has none. *)
Definition bucket_of {Stamp : Type} (d : gmap string (list Stamp)) (ip : string)
  : list Stamp :=
  match d !! ip with Some b => b | None => [] end.

(** The state of one client's bucket seen from the next clock reading [t]:
    the stamps handed on so far are some already dropped ones, all before
    the window of [t], followed by the bucket, which is in order and not
    after [t]. *)
Definition bucket_tracks {Stamp : Type} (time_lt : Stamp -> Stamp -> bool)
    (time_minus : Stamp -> Z -> Stamp) (window : Z)
    (b acc : list Stamp) (t : Stamp) : Prop :=
  exists dropped,
    acc = dropped ++ b /\
    (forall u, In u dropped -> time_lt u (time_minus t window) = true) /\
    nondecreasing time_lt b /\
    (forall u, In u b -> time_lt t u = false).

(** ** The field validator over code points

    [str.strip] and [str.upper] act on every character of a Python [str],
    not only on those below 256, and [str.upper] can turn one character
    into several (the ligature U+FB00 becomes ["FF"]). For the validator of
    [app/schemas.py], which receives text straight from a request, a [str]
    is therefore also modelled as the list of its code points. *)

Module UStr.

Definition code (c : ascii) : Z := Z.of_N (N_of_ascii c).

(** The code points of a [string]. *)
Fixpoint codes_of (s : string) : list Z :=
  match s with
  | EmptyString => []
  | String c r => code c :: codes_of r
  end.

Definition chr (c : Z) : ascii := ascii_of_N (Z.to_N c).

(** The [string] of a text whose code points are all below 256. *)
Fixpoint to_string (u : list Z) : string :=
  match u with
  | [] => EmptyString
  | c :: r => String (chr c) (to_string r)
  end.

(** [Py_UNICODE_ISSPACE]: the table [_Py_ascii_whitespace] below 128,
    [_PyUnicode_IsWhitespace] from there on. *)
Definition isspace (c : Z) : bool :=
  ((9 <=? c) && (c <=? 13)) || ((28 <=? c) && (c <=? 32))
  || (c =? 133) || (c =? 160) || (c =? 5760)
  || ((8192 <=? c) && (c <=? 8202))
  || (c =? 8232) || (c =? 8233) || (c =? 8239) || (c =? 8287) || (c =? 12288).

Fixpoint lstrip (s : list Z) : list Z :=
  match s with
  | [] => []
  | c :: r => if isspace c then lstrip r else s
  end.

Fixpoint rstrip (s : list Z) : list Z :=
  match s with
  | [] => []
  | c :: r =>
      match rstrip r with
      | [] => if isspace c then [] else [c]
      | r' => c :: r'
      end
  end.

Definition strip (s : list Z) : list Z := rstrip (lstrip s).

(** [[0-9A-Fa-f]]: the class lists ASCII characters and the pattern is
    compiled without [re.IGNORECASE], so no other code point is in it. *)
Definition is_hex_char (c : Z) : bool :=
  ((48 <=? c) && (c <=? 57)) || ((65 <=? c) && (c <=? 70))
  || ((97 <=? c) && (c <=? 102)).

Definition re_hex2 (s : list Z) : option (list Z) :=
  match s with
  | a :: b :: r => if is_hex_char a && is_hex_char b then Some r else None
  | _ => None
  end.

Definition re_group (s : list Z) : option (list Z) :=
  match re_hex2 s with
  | Some (c :: r) => if c =? 58 then Some r else None
  | _ => None
  end.

Fixpoint re_repeat (n : nat) (p : list Z -> option (list Z)) (s : list Z)
  : option (list Z) :=
  match n with
  | O => Some s
  | S k => match p s with
           | Some r => re_repeat k p r
           | None => None
           end
  end.

Definition re_end (s : list Z) : bool :=
  match s with
  | [] => true
  | [c] => c =? 10
  | _ => false
  end.

Definition MAC_REGEX_match (value : list Z) : bool :=
  match re_repeat 5 re_group value with
  | Some r => match re_hex2 r with
              | Some r' => re_end r'
              | None => false
              end
  | None => false
  end.

Section CaseTable.

(** [upper_nonascii c] is the full uppercase mapping of the code point [c]
    ([_PyUnicode_ToUpperFull], one to three code points) for [c] from 128
    on; it is a table of the Unicode database of the interpreter. *)
Variable upper_nonascii : Z -> list Z.

(** [str.upper] on one character. Below 128 the mapping is that of ASCII;
    the case mapping does not look at the neighbours of a character. *)
Definition upper_char (c : Z) : list Z :=
  if c <? 128
  then [if (97 <=? c) && (c <=? 122) then c - 32 else c]
  else upper_nonascii c.

Fixpoint upper (s : list Z) : list Z :=
  match s with
  | [] => []
  | c :: r => upper_char c ++ upper r
  end.

(** [WakeRequest.validate_mac] and [DeviceCreate.validate_mac]. *)
Definition validate_mac (value : list Z) : Exc + list Z :=
  let value := upper (strip value) in
  if negb (MAC_REGEX_match value)
  then inl (ValueError "Invalid MAC address format. Use AA:BB:CC:DD:EE:FF")
  else inr value.

(** Construction of a [WakeRequest] from the request body. The record keeps
    the validated address as a [string]: a value the validator returns has
    only code points below 128. *)
Definition WakeRequest_validate (mac : list Z) (broadcast : RawBroadcast)
  : Exc + WakeRequest :=
  match validate_mac mac with
  | inl e => inl e
  | inr m => inr {| wr_mac := to_string m; wr_broadcast := broadcast |}
  end.

(** Construction of a [DeviceCreate]: the [Field] length constraints and the
    field validator on [mac]. *)
Definition DeviceCreate_validate (name : string) (mac : list Z) (ip : option string)
    (broadcasts : option (list string)) (shutdown_url : option string)
  : Exc + DeviceCreate :=
  if negb ((1 <=? strlen name) && (strlen name <=? 100))
  then inl (ValueError "name: length out of range")
  else match validate_mac mac with
       | inl e => inl e
       | inr m =>
           if negb (opt_max_length 255 ip)
           then inl (ValueError "ip: too long")
           else if negb (opt_max_length 500 shutdown_url)
           then inl (ValueError "shutdown_url: too long")
           else inr {| dc_name := name; dc_mac := to_string m; dc_ip := ip;
                       dc_broadcasts := broadcasts;
                       dc_shutdown_url := shutdown_url |}
       end.

End CaseTable.

End UStr.

(** What the properties need of the case table: the uppercase mapping of a
    code point from 128 on is not empty, and a code point below 128 in it
    is one of the letters [A] to [Z] (as in U+00DF, mapped to [SS], U+017F,
    mapped to [S], or U+FB00, mapped to [FF]). The Unicode case tables are
    of this kind. *)
Definition case_table_ok (upper_nonascii : Z -> list Z) : Prop :=
  forall c, 128 <= c ->
    upper_nonascii c <> [] /\
    Forall (fun d => 128 <= d \/ 65 <= d <= 90) (upper_nonascii c).

(** [same_letter c d]: [c] is the character [d] of a canonical address, or
    the lowercase form of the hexadecimal letter [d]. *)
Definition same_letter (c d : Z) : Prop :=
  c = d \/ (65 <= d <= 70 /\ c = d + 32).

(** The tail of [MAC_REGEX] over code points, after [n] groups are still to
    be matched. *)
Definition code_regex_tail (n : nat) (l : list Z) : bool :=
  match UStr.re_repeat n UStr.re_group l with
  | Some r => match UStr.re_hex2 r with
              | Some r' => UStr.re_end r'
              | None => false
              end
  | None => false
  end.

(** A few rows of the case table: U+00B5, U+00DF, U+00E9, U+00FF, U+017F
    and the ligature U+FB00; every other code point is taken as having no
    uppercase form of its own. *)
Definition sample_upper_nonascii (c : Z) : list Z :=
  if c =? 181 then [924]
  else if c =? 223 then [83; 83]
  else if c =? 233 then [201]
  else if c =? 255 then [376]
  else if c =? 383 then [83]
  else if c =? 64256 then [70; 70]
  else [c].

(** [" aa:bb:cc:dd:ee:" + U+FB00 + newline], with a no-break space in
    front. *)
Definition sample_ligature_mac : list Z :=
  [160; 32] ++ UStr.codes_of "aa:bb:cc:dd:ee:" ++ [64256; 10].

(** * Properties *)

(** ** Characters *)

Ltac ascii_cases c :=
  destruct c as [[] [] [] [] [] [] [] []]; vm_compute; try discriminate;
  repeat split; try reflexivity; try discriminate.

Lemma upper_hex_digit (c : ascii) :
  is_upper_hex c = true ->
  Ascii.eqb c ":" = false /\ Ascii.eqb c "-" = false /\
  PyStr.Py_ISSPACE c = false /\ PyStr.digit_value c = Some (hex_value c).
Proof. ascii_cases c. Qed.

Lemma hex_value_range (c : ascii) :
  is_upper_hex c = true -> 0 <= hex_value c < 16.
Proof. ascii_cases c. Qed.

Lemma upper_char_no_lower_hex (c : ascii) :
  is_hex_char (PyStr.upper_char c) = is_upper_hex (PyStr.upper_char c).
Proof. ascii_cases c. Qed.

Lemma upper_char_isspace (c : ascii) :
  PyStr.isspace (PyStr.upper_char c) = PyStr.isspace c.
Proof. ascii_cases c. Qed.

Lemma newline_isspace : PyStr.isspace "010" = true.
Proof. reflexivity. Qed.

(** ** The packet builder on canonical addresses *)

Lemma remove_char_keep (c d : ascii) (r : string) :
  Ascii.eqb d c = false ->
  PyStr.remove_char c (String d r) = String d (PyStr.remove_char c r).
Proof. intros H. simpl. rewrite H. reflexivity. Qed.

Lemma remove_char_drop (c : ascii) (r : string) :
  PyStr.remove_char c (String c r) = PyStr.remove_char c r.
Proof. simpl. rewrite Ascii.eqb_refl. reflexivity. Qed.

Lemma fromhex_pair (a b : ascii) (x y : Z) (r : string) :
  PyStr.Py_ISSPACE a = false ->
  PyStr.digit_value a = Some x -> PyStr.digit_value b = Some y ->
  PyStr.fromhex (String a (String b r))
  = match PyStr.fromhex r with
    | Some bs => Some (x * 16 + y :: bs)
    | None => None
    end.
Proof. intros Hs Ha Hb. simpl. rewrite Hs, Ha, Hb. reflexivity. Qed.

Lemma normalize_mac_canonical_pairs (n : nat) :
  forall s, canonical_pairs n s = true ->
    normalize_mac s = Some (mac_octets s) /\
    length (mac_octets s) = S n /\
    Forall (fun b => 0 <= b < 256) (mac_octets s).
Proof.
  unfold normalize_mac.
  induction n as [|n IH]; intros s H;
    destruct s as [|a [|b r]]; try discriminate;
    cbn [canonical_pairs] in H;
    apply andb_true_iff in H as [Hab Hr];
    apply andb_true_iff in Hab as [Ha Hb];
    pose proof (hex_value_range a Ha) as Ra;
    pose proof (hex_value_range b Hb) as Rb;
    apply upper_hex_digit in Ha as (Ha1 & Ha2 & Ha3 & Ha4);
    apply upper_hex_digit in Hb as (Hb1 & Hb2 & Hb3 & Hb4).
  - destruct r; [|discriminate].
    rewrite !remove_char_keep by assumption.
    rewrite (fromhex_pair a b _ _ _ Ha3 Ha4 Hb4).
    split; [reflexivity | split; [reflexivity |]].
    constructor; [lia | constructor].
  - destruct r as [|c r']; [discriminate|].
    apply andb_true_iff in Hr as [Hc Hr'].
    apply Ascii.eqb_eq in Hc; subst c.
    destruct (IH r' Hr') as (IH1 & IH2 & IH3).
    rewrite (remove_char_keep _ a), (remove_char_keep _ b) by assumption.
    rewrite remove_char_drop.
    rewrite (remove_char_keep _ a), (remove_char_keep _ b) by assumption.
    rewrite (fromhex_pair a b _ _ _ Ha3 Ha4 Hb4), IH1.
    cbn [mac_octets length].
    split; [reflexivity | split; [congruence |]].
    constructor; [lia | assumption].
Qed.

Lemma send_magic_packet_build (mac broadcast : string) (port : Z) :
  send_magic_packet mac broadcast port
  = match build_packet mac with
    | Some packet => sendto packet broadcast port
    | None => raise (ValueError "non-hexadecimal number found in fromhex() arg")
    end.
Proof. unfold send_magic_packet, build_packet. destruct (normalize_mac mac); reflexivity. Qed.

Lemma packet_layout (b : list Z) :
  length b = 6%nat ->
  let packet := PyStr.bytes_mul [255] 6 ++ PyStr.bytes_mul b 16 in
  length packet = 102%nat /\
  firstn 6 packet = repeat 255 6 /\
  (forall k, (k < 16)%nat -> firstn 6 (skipn (6 + 6 * k) packet) = b).
Proof.
  intros Hb.
  destruct b as [|b0 [|b1 [|b2 [|b3 [|b4 [|b5 [|b6 b]]]]]]]; try discriminate.
  split; [reflexivity | split; [reflexivity |]].
  intros k Hk.
  do 16 (destruct k as [|k]; [reflexivity |]). lia.
Qed.

Lemma build_packet_length (mac : string) :
  is_canonical_mac mac = true ->
  exists packet, build_packet mac = Some packet /\ length packet = 102%nat.
Proof.
  intros H.
  destruct (normalize_mac_canonical_pairs 5 mac H) as (Hn & Hl & _).
  destruct (packet_layout (mac_octets mac) Hl) as (P1 & _).
  unfold build_packet. rewrite Hn. eexists. split; [reflexivity | exact P1].
Qed.

(** C3. For a MAC address in canonical form the builder yields a payload of
    exactly 102 bytes: six bytes 0xFF, then sixteen copies (at offsets 6,
    12, ..., 96) of the six bytes the address denotes; each of these bytes
    is in [0, 256), and the payload is a function of the address alone. *)
Theorem build_packet_canonical (mac : string) :
  is_canonical_mac mac = true ->
  exists packet,
    build_packet mac = Some packet /\
    length packet = 102%nat /\
    firstn 6 packet = repeat 255 6 /\
    length (mac_octets mac) = 6%nat /\
    Forall (fun b => 0 <= b < 256) (mac_octets mac) /\
    (forall k, (k < 16)%nat ->
       firstn 6 (skipn (6 + 6 * k) packet) = mac_octets mac) /\
    (forall packet', build_packet mac = Some packet' -> packet' = packet).
Proof.
  intros H.
  destruct (normalize_mac_canonical_pairs 5 mac H) as (Hn & Hl & Hr).
  destruct (packet_layout (mac_octets mac) Hl) as (P1 & P2 & P3).
  unfold build_packet. rewrite Hn.
  eexists. split; [reflexivity |].
  split; [exact P1 |]. split; [exact P2 |].
  split; [exact Hl |]. split; [exact Hr |].
  split; [exact P3 |].
  intros packet' E. congruence.
Qed.

Lemma build_packet_canonical_witness :
  is_canonical_mac "AA:BB:CC:DD:EE:FF" = true /\
  exists packet,
    build_packet "AA:BB:CC:DD:EE:FF" = Some packet /\
    length packet = 102%nat /\
    firstn 6 packet = repeat 255 6 /\
    length (mac_octets "AA:BB:CC:DD:EE:FF") = 6%nat /\
    Forall (fun b => 0 <= b < 256) (mac_octets "AA:BB:CC:DD:EE:FF") /\
    (forall k, (k < 16)%nat ->
       firstn 6 (skipn (6 + 6 * k) packet) = mac_octets "AA:BB:CC:DD:EE:FF") /\
    (forall packet', build_packet "AA:BB:CC:DD:EE:FF" = Some packet' -> packet' = packet).
Proof.
  split; [reflexivity |].
  apply (build_packet_canonical "AA:BB:CC:DD:EE:FF"). reflexivity.
Defined.

Example build_packet_sample :
  build_packet "AA:BB:CC:DD:EE:FF"
  = Some (repeat 255 6 ++ concat (repeat [170; 187; 204; 221; 238; 255] 16)).
Proof. vm_compute. reflexivity. Qed.

Example mac_octets_sample :
  mac_octets "AA:BB:CC:DD:EE:FF" = [170; 187; 204; 221; 238; 255].
Proof. reflexivity. Qed.

Example normalize_mac_dashes :
  normalize_mac "aa-bb-cc-dd-ee-ff" = Some [170; 187; 204; 221; 238; 255].
Proof. reflexivity. Qed.

Example normalize_mac_spaced : normalize_mac "AA BB:CC" = Some [170; 187; 204].
Proof. reflexivity. Qed.

Example normalize_mac_split_pair : normalize_mac "A A" = None.
Proof. reflexivity. Qed.

Example build_packet_not_hex : build_packet "AA:BB:CC:DD:EE:GG" = None.
Proof. reflexivity. Qed.

(** ** What [bytes.fromhex] accepts *)

Lemma digit_not_space (c : ascii) (x : Z) :
  PyStr.digit_value c = Some x -> PyStr.Py_ISSPACE c = false.
Proof. revert x. ascii_cases c. Qed.

Lemma fromhex_sound : forall s bs, PyStr.fromhex s = Some bs -> HexText s bs.
Proof.
  fix IH 1. intros s bs H.
  destruct s as [|c rest]; simpl in H.
  - injection H as <-. constructor.
  - destruct (PyStr.Py_ISSPACE c) eqn:Hc.
    + apply HexText_space; [exact Hc | apply IH; exact H].
    + destruct (PyStr.digit_value c) as [top|] eqn:Ht; [|discriminate].
      destruct rest as [|d rest']; [discriminate|].
      destruct (PyStr.digit_value d) as [bot|] eqn:Hb; [|discriminate].
      destruct (PyStr.fromhex rest') as [bs'|] eqn:Hr; [|discriminate].
      injection H as <-.
      apply HexText_byte; [exact Ht | exact Hb | apply IH; exact Hr].
Qed.

Lemma fromhex_complete : forall s bs, HexText s bs -> PyStr.fromhex s = Some bs.
Proof.
  induction 1 as [|c s bs Hc _ IH|a b s bs x y Ha Hb _ IH].
  - reflexivity.
  - simpl. rewrite Hc. exact IH.
  - rewrite (fromhex_pair a b x y s (digit_not_space a x Ha) Ha Hb), IH.
    reflexivity.
Qed.

(** [normalize_mac] succeeds exactly on the addresses that are hexadecimal
    text once [':'] and ['-'] are taken out. *)
Lemma normalize_mac_spec (mac : string) (bs : list Z) :
  normalize_mac mac = Some bs
  <-> HexText (PyStr.remove_char "-" (PyStr.remove_char ":" mac)) bs.
Proof. unfold normalize_mac. split; [apply fromhex_sound | apply fromhex_complete]. Qed.

(** ** C2: malformed addresses and the packet builder *)

(** C2, as stated, fails: an address that is not in canonical form (dashes
    for colons here) is decoded, and a payload built from it is handed to
    the socket. *)
Lemma malformed_mac_is_sent :
  ~ (forall (mac broadcast : string) (port : Z) (w : World),
       MAC_REGEX_match mac = false ->
       exists msg, send_magic_packet mac broadcast port w = (inl (ValueError msg), w)).
Proof.
  intros H.
  destruct (H "AA-BB-CC-DD-EE-FF" "255.255.255.255" 9 (start_world empty_db link_up) eq_refl)
    as [msg Hm].
  vm_compute in Hm. discriminate Hm.
Qed.

Example short_mac_is_sent :
  is_canonical_mac "AB" = false /\
  sendto_calls (snd (send_magic_packet "AB" "10.0.0.255" 9 (start_world empty_db link_up)))
  = [ {| tx_packet := repeat 255 6 ++ repeat 171 16; tx_host := "10.0.0.255";
         tx_port := 9; tx_ok := true |} ].
Proof. split; reflexivity. Qed.

(** C2 (amended). The builder fails, with a [ValueError] and before any
    socket call (the world is left as it was), when the address with [':']
    and ['-'] removed does not decode as hexadecimal text; when it decodes
    to [bs], whatever its form, exactly one [sendto] call is made, carrying
    six bytes 0xFF and sixteen copies of [bs]. *)
Theorem send_magic_packet_decodes (mac broadcast : string) (port : Z) (w : World) :
  (normalize_mac mac = None ->
     exists msg, send_magic_packet mac broadcast port w = (inl (ValueError msg), w)) /\
  (forall bs, normalize_mac mac = Some bs ->
     exists ok,
       sendto_calls (snd (send_magic_packet mac broadcast port w))
       = sendto_calls w ++
         [ {| tx_packet := repeat 255 6 ++ concat (repeat bs 16);
              tx_host := broadcast; tx_port := port; tx_ok := ok |} ]).
Proof.
  unfold send_magic_packet. split.
  - intros ->. eexists. reflexivity.
  - intros bs ->. unfold sendto.
    exists (link w (length (sendto_calls w)) broadcast port).
    replace (concat (repeat bs 16)) with (PyStr.bytes_mul bs 16)
      by (simpl; rewrite !app_nil_r; reflexivity).
    destruct (link w (length (sendto_calls w)) broadcast port); reflexivity.
Qed.

Lemma send_magic_packet_decodes_witness :
  (exists msg,
     send_magic_packet "AA:BB:CC:DD:EE:GG" "10.0.0.255" 9 (start_world empty_db link_up)
     = (inl (ValueError msg), start_world empty_db link_up)) /\
  (exists ok,
     sendto_calls (snd (send_magic_packet "aabbccddeeff" "10.0.0.255" 9
                          (start_world empty_db link_up)))
     = [] ++ [ {| tx_packet := repeat 255 6
                               ++ concat (repeat [170; 187; 204; 221; 238; 255] 16);
                  tx_host := "10.0.0.255"; tx_port := 9; tx_ok := ok |} ]).
Proof.
  split.
  - apply (send_magic_packet_decodes "AA:BB:CC:DD:EE:GG" "10.0.0.255" 9
             (start_world empty_db link_up)).
    reflexivity.
  - apply (send_magic_packet_decodes "aabbccddeeff" "10.0.0.255" 9
             (start_world empty_db link_up)).
    reflexivity.
Defined.

(** ** The on-demand wake path *)

Lemma after_wake_sends_nil mac packet w : after_wake_sends mac packet [] w = w.
Proof. destruct w. unfold after_wake_sends. simpl. rewrite !app_nil_r. reflexivity. Qed.

Lemma wake_loop_sends (mac : string) (packet : list Z) :
  build_packet mac = Some packet ->
  forall pre rest sent w,
    (forall i u, pre !! i = Some u ->
       link w (length (sendto_calls w) + i) u 9 = true) ->
    wake_loop mac (pre ++ rest) sent w
    = wake_loop mac rest (sent ++ pre) (after_wake_sends mac packet pre w).
Proof.
  intros Hp. induction pre as [|u pre IH]; intros rest sent w Hok.
  - rewrite after_wake_sends_nil, app_nil_r. reflexivity.
  - pose proof (Hok 0%nat u eq_refl) as H0. rewrite Nat.add_0_r in H0.
    cbn [app wake_loop]. unfold bind at 1. unfold try_except at 1.
    unfold bind at 1. rewrite send_magic_packet_build, Hp.
    unfold sendto. rewrite H0. cbn [bind logger ret].
    rewrite IH.
    + f_equal; [rewrite <- app_assoc; reflexivity |].
      unfold after_wake_sends, add_log, add_sendto_call. cbn.
      rewrite <- !app_assoc. reflexivity.
    + intros i v Hv. cbn. rewrite length_app. cbn.
      replace (length (sendto_calls w) + 1 + i)%nat
        with (length (sendto_calls w) + S i)%nat by lia.
      apply Hok. exact Hv.
Qed.

Lemma filter_nonempty_all_empty (l : list string) :
  Forall (fun x => x = "") l ->
  List.filter (fun x => negb (String.eqb x "")) l = [].
Proof. induction 1 as [|x l -> _ IH]; [reflexivity | simpl; exact IH]. Qed.

(** C9. An explicit list in the [broadcast] field that is empty or holds
    only empty strings resolves to no target at all: the configured defaults
    are not used, no socket call is made (the world is unchanged), and the
    operation returns success with an empty list of sent broadcasts. *)
Theorem wake_empty_broadcast_list (settings : Settings) (mac : string)
    (l : list string) (w : World) :
  Forall (fun x => x = "") l ->
  parse_broadcasts (BList l) (default_broadcasts settings) = [] /\
  wake settings {| wr_mac := mac; wr_broadcast := BList l |} w
  = (inr {| success := true; message := "Magic packet sent";
            data := Some (DataWake mac []) |}, w).
Proof.
  intros H. unfold wake. cbn [wr_broadcast wr_mac parse_broadcasts].
  rewrite (filter_nonempty_all_empty l H). split; reflexivity.
Qed.

Lemma wake_empty_broadcast_list_witness :
  Forall (fun x => x = "") [""; ""] /\
  parse_broadcasts (BList [""; ""]) ["255.255.255.255"] = [] /\
  wake {| default_broadcasts := ["255.255.255.255"] |}
    {| wr_mac := "AA:BB:CC:DD:EE:FF"; wr_broadcast := BList [""; ""] |}
    (start_world empty_db link_up)
  = (inr {| success := true; message := "Magic packet sent";
            data := Some (DataWake "AA:BB:CC:DD:EE:FF" []) |},
     start_world empty_db link_up).
Proof.
  assert (H : Forall (fun x => x = "") [""; ""]) by (repeat constructor).
  split; [exact H |].
  exact (wake_empty_broadcast_list {| default_broadcasts := ["255.255.255.255"] |}
           "AA:BB:CC:DD:EE:FF" [""; ""] (start_world empty_db link_up) H).
Defined.

Example wake_absent_broadcast_uses_defaults :
  parse_broadcasts BNone ["255.255.255.255"] = ["255.255.255.255"] /\
  parse_broadcasts (BList []) ["255.255.255.255"] = [].
Proof. split; reflexivity. Qed.

(** C1, as stated, fails: with two targets of which only the first is
    unreachable, the claim wants both attempted and success returned; the
    handler attempts the first alone. *)
Lemma wake_aborts_on_first_failure :
  ~ (forall (settings : Settings) (payload : WakeRequest) (w : World),
       let targets :=
         parse_broadcasts (wr_broadcast payload) (default_broadcasts settings) in
       let '(r, w') := wake settings payload w in
       let calls := skipn (length (sendto_calls w)) (sendto_calls w') in
       targets <> [] ->
       List.map tx_host calls = targets /\
       ((exists e, r = inl e) -> Forall (fun c => tx_ok c = false) calls) /\
       ((exists c, In c calls /\ tx_ok c = true) -> exists m, r = inr m)).
Proof.
  intros H.
  specialize (H {| default_broadcasts := ["255.255.255.255"] |}
                {| wr_mac := "AA:BB:CC:DD:EE:FF";
                   wr_broadcast := BList ["10.0.0.255"; "10.0.1.255"] |}
                (start_world empty_db (link_down_for "10.0.0.255"))).
  vm_compute in H.
  destruct H as [H _]; [discriminate | discriminate H].
Qed.

Example wake_aborts_on_first_failure_run :
  let w := start_world empty_db (link_down_for "10.0.0.255") in
  let '(r, w') :=
    wake {| default_broadcasts := ["255.255.255.255"] |}
      {| wr_mac := "AA:BB:CC:DD:EE:FF";
         wr_broadcast := BList ["10.0.0.255"; "10.0.1.255"] |} w in
  r = inl (HTTPException 500 "Error sending WOL packet: sendto failed") /\
  List.map tx_host (sendto_calls w') = ["10.0.0.255"] /\
  log w' = [wake_failed "AA:BB:CC:DD:EE:FF" "10.0.0.255" "sendto failed"] /\
  fst (send_magic_packet "AA:BB:CC:DD:EE:FF" "10.0.1.255" 9 w) = inr tt.
Proof. vm_compute. repeat split. Qed.

(** C1 (amended). For a wake request whose MAC address is canonical, the
    handler sends to the targets in order and stops at the first send that
    fails. When every send goes through it returns success, and the sent
    list is the whole target list. When the targets are [pre ++ t :: post],
    the sends to [pre] go through and the send to [t] fails, it raises
    HTTP 500: the calls made are those to [pre] and the failed one to [t],
    none to [post]. *)
Theorem wake_stops_at_first_failure (settings : Settings) (payload : WakeRequest)
    (w : World) :
  let mac := wr_mac payload in
  let targets := parse_broadcasts (wr_broadcast payload) (default_broadcasts settings) in
  let n0 := length (sendto_calls w) in
  is_canonical_mac mac = true ->
  exists packet, build_packet mac = Some packet /\
  ((forall i t, targets !! i = Some t -> link w (n0 + i)%nat t 9 = true) ->
     exists w',
       wake settings payload w
       = (inr {| success := true; message := "Magic packet sent";
                 data := Some (DataWake mac targets) |}, w') /\
       sendto_calls w' = sendto_calls w ++ calls_to packet true targets /\
       log w' = log w ++ List.map (wake_sent mac) targets) /\
  (forall pre t post, targets = pre ++ t :: post ->
     (forall i u, pre !! i = Some u -> link w (n0 + i)%nat u 9 = true) ->
     link w (n0 + length pre)%nat t 9 = false ->
     exists w',
       wake settings payload w
       = (inl (HTTPException 500 "Error sending WOL packet: sendto failed"), w') /\
       sendto_calls w'
       = sendto_calls w ++ calls_to packet true pre ++ calls_to packet false [t] /\
       log w' = log w ++ List.map (wake_sent mac) pre
                ++ [wake_failed mac t "sendto failed"]).
Proof.
  intros mac targets n0 Hmac.
  destruct (build_packet_length mac Hmac) as (packet & Hp & _).
  exists packet. split; [exact Hp |]. split.
  - intros Hok. exists (after_wake_sends mac packet targets w).
    unfold wake. fold mac. fold targets. unfold bind.
    rewrite <- (app_nil_r targets) at 1.
    rewrite (wake_loop_sends mac packet Hp targets [] [] w Hok).
    split; [reflexivity | split; reflexivity].
  - intros pre t post Ht Hok Hfail.
    unfold wake. fold mac. fold targets. unfold bind. rewrite Ht.
    rewrite (wake_loop_sends mac packet Hp pre (t :: post) [] w Hok).
    cbn [wake_loop]. unfold bind at 1. unfold try_except at 1.
    unfold bind at 1. rewrite send_magic_packet_build, Hp.
    unfold sendto.
    replace (link (after_wake_sends mac packet pre w)
               (length (sendto_calls (after_wake_sends mac packet pre w))) t 9)
      with false.
    + cbn. eexists. split; [reflexivity |].
      split; unfold add_log, add_sendto_call, after_wake_sends; cbn;
        rewrite <- app_assoc; reflexivity.
    + symmetry. cbn. rewrite length_app. unfold calls_to. rewrite length_map.
      exact Hfail.
Qed.

Lemma wake_stops_at_first_failure_witness :
  exists packet, build_packet "AA:BB:CC:DD:EE:FF" = Some packet /\
  (exists w',
     wake {| default_broadcasts := ["255.255.255.255"] |}
       {| wr_mac := "AA:BB:CC:DD:EE:FF"; wr_broadcast := BList ["10.0.0.255"; "10.0.1.255"] |}
       (start_world empty_db (link_down_for "10.0.1.255"))
     = (inl (HTTPException 500 "Error sending WOL packet: sendto failed"), w') /\
     sendto_calls w'
     = [] ++ calls_to packet true ["10.0.0.255"] ++ calls_to packet false ["10.0.1.255"] /\
     log w' = [] ++ List.map (wake_sent "AA:BB:CC:DD:EE:FF") ["10.0.0.255"]
              ++ [wake_failed "AA:BB:CC:DD:EE:FF" "10.0.1.255" "sendto failed"]).
Proof.
  destruct (wake_stops_at_first_failure {| default_broadcasts := ["255.255.255.255"] |}
              {| wr_mac := "AA:BB:CC:DD:EE:FF";
                 wr_broadcast := BList ["10.0.0.255"; "10.0.1.255"] |}
              (start_world empty_db (link_down_for "10.0.1.255")) eq_refl)
    as (packet & Hp & _ & Hfail).
  exists packet. split; [exact Hp |].
  apply (Hfail ["10.0.0.255"] "10.0.1.255" []).
  - reflexivity.
  - intros [|i] u Hu; [injection Hu as <-; reflexivity | destruct i; discriminate Hu].
  - reflexivity.
Defined.

(** ** Scheduled fires *)

Lemma job_loop_total (sid did : Z) (mac : string) :
  forall selected w,
  exists w',
    for_each selected (fun broadcast =>
      try_except
        (do _ <- send_magic_packet mac broadcast 9;
         logger (scheduled_wake_sent sid did broadcast))
        (fun exc => logger (scheduled_wake_failed sid did broadcast (exc_str exc)))) w
    = (inr tt, w') /\
    job_loop_post sid did mac selected w w'.
Proof.
  induction selected as [|b rest IH]; intros w.
  - exists w. split; [reflexivity |].
    unfold job_loop_post. repeat (split; [reflexivity |]).
    exists [], []. rewrite !app_nil_r.
    repeat (split; [reflexivity || constructor |]).
    destruct (build_packet mac); [split; constructor | reflexivity].
  - cbn [for_each]. unfold bind at 1. unfold try_except at 1. unfold bind at 1.
    rewrite send_magic_packet_build.
    destruct (build_packet mac) as [packet|] eqn:Hp.
    + unfold sendto.
      destruct (link w (length (sendto_calls w)) b 9) eqn:Hl; cbn [logger raise exc_str];
        match goal with
        | |- context [for_each rest ?f ?w1] =>
            destruct (IH w1) as (w' & Hrun & Hdb & Hjobs & Hlink & Hnow & entries & calls
                                 & Hlog & Hcalls & Hsel & Hpk)
        end;
        rewrite Hp in Hpk; destruct Hpk as [Hmap Hagree];
        exists w'; (split; [exact Hrun |]);
        unfold job_loop_post; rewrite Hp;
        (split; [exact Hdb |]); (split; [exact Hjobs |]);
        (split; [exact Hlink |]); (split; [exact Hnow |]).
      * exists (scheduled_wake_sent sid did b :: entries),
               ({| tx_packet := packet; tx_host := b; tx_port := 9; tx_ok := true |} :: calls).
        rewrite Hlog, Hcalls. cbn. rewrite <- !app_assoc.
        split; [reflexivity |]. split; [reflexivity |].
        split; [constructor; [left; reflexivity | exact Hsel] |].
        split; [congruence |].
        constructor; [repeat split | exact Hagree].
      * exists (scheduled_wake_failed sid did b "sendto failed" :: entries),
               ({| tx_packet := packet; tx_host := b; tx_port := 9; tx_ok := false |} :: calls).
        rewrite Hlog, Hcalls. cbn. rewrite <- !app_assoc.
        split; [reflexivity |]. split; [reflexivity |].
        split; [constructor; [right; eexists; reflexivity | exact Hsel] |].
        split; [congruence |].
        constructor; [repeat split | exact Hagree].
    + cbn [logger raise exc_str].
      match goal with
      | |- context [for_each rest ?f ?w1] =>
          destruct (IH w1) as (w' & Hrun & Hdb & Hjobs & Hlink & Hnow & entries & calls
                               & Hlog & Hcalls & Hsel & Hnone)
      end.
      rewrite Hp in Hnone.
      exists w'. split; [exact Hrun |].
      unfold job_loop_post. rewrite Hp.
      split; [exact Hdb |]. split; [exact Hjobs |].
      split; [exact Hlink |]. split; [exact Hnow |].
      exists (scheduled_wake_failed sid did b
                "non-hexadecimal number found in fromhex() arg" :: entries), calls.
      rewrite Hlog, Hcalls. cbn. rewrite <- !app_assoc.
      split; [reflexivity |]. split; [reflexivity |].
      split; [constructor; [right; eexists; reflexivity | exact Hsel] |].
      exact Hnone.
Qed.

Lemma fire_armed (job_id : string) (j : Job) (w : World) :
  jobs w !! job_id = Some j ->
  fire job_id w
  = try_except
      (schedule_job (job_schedule_id j) (job_device_id j) (job_broadcasts j))
      (fun exc => logger (job_raised job_id (exc_str exc))) w.
Proof. intros H. unfold fire, bind, Scheduler.get_job. rewrite H. reflexivity. Qed.

Lemma schedule_job_total (sid did : Z) (override : option (list string))
    (device : DeviceRow) (w : World) :
  Db.get_device (db w) did = Some device ->
  exists w',
    schedule_job sid did override w = (inr tt, w') /\
    job_loop_post sid did (d_mac device)
      (if truthy override then default [] override else d_broadcasts device) w w'.
Proof.
  intros Hd. unfold schedule_job, bind, get_world. rewrite Hd.
  apply job_loop_total.
Qed.

(** C6. A fire whose captured device identifier resolves to no Device does
    nothing but log: the run ends normally, the one line added to the log is
    the warning [schedule_device_not_found], no socket call is made, and the
    job is still in the job table, unchanged, for its next fire. *)
Theorem scheduled_fire_device_missing (job_id : string) (j : Job) (w : World) :
  jobs w !! job_id = Some j ->
  Db.get_device (db w) (job_device_id j) = None ->
  exists w',
    fire job_id w = (inr tt, w') /\
    log w' = log w ++ [schedule_device_not_found (job_schedule_id j) (job_device_id j)] /\
    level (schedule_device_not_found (job_schedule_id j) (job_device_id j)) = WARNING /\
    sendto_calls w' = sendto_calls w /\
    db w' = db w /\
    jobs w' = jobs w /\
    jobs w' !! job_id = Some j.
Proof.
  intros Hj Hd. rewrite (fire_armed job_id j w Hj).
  unfold try_except, schedule_job, bind, get_world. rewrite Hd.
  eexists. split; [reflexivity |].
  cbn. repeat split; try reflexivity. exact Hj.
Qed.

(** C7. A fire over the resolved targets ends normally whatever the sends
    do: each target gets exactly one log line, in order, either
    [scheduled_wake_sent] or [scheduled_wake_failed]; when the device's MAC
    decodes, one socket call is made per target, failed or not, and the
    line of each target tells the outcome of its call; the job table is left
    as it was, so the job is neither removed nor changed. *)
Theorem scheduled_fire_logs_failures (job_id : string) (j : Job)
    (device : DeviceRow) (w : World) :
  jobs w !! job_id = Some j ->
  Db.get_device (db w) (job_device_id j) = Some device ->
  let selected :=
    if truthy (job_broadcasts j) then default [] (job_broadcasts j)
    else d_broadcasts device in
  exists w' entries calls,
    fire job_id w = (inr tt, w') /\
    log w' = log w ++ entries /\
    sendto_calls w' = sendto_calls w ++ calls /\
    Forall2 (logged_for (job_schedule_id j) (job_device_id j)) selected entries /\
    (forall packet, build_packet (d_mac device) = Some packet ->
       List.map tx_host calls = selected /\
       Forall2 (call_logged (job_schedule_id j) (job_device_id j) packet) calls entries) /\
    jobs w' = jobs w /\
    jobs w' !! job_id = Some j.
Proof.
  intros Hj Hd selected. rewrite (fire_armed job_id j w Hj). unfold try_except.
  destruct (schedule_job_total (job_schedule_id j) (job_device_id j)
              (job_broadcasts j) device w Hd)
    as (w' & Hrun & Hdb & Hjobs & Hlink & Hnow & entries & calls
        & Hlog & Hcalls & Hsel & Hpk).
  rewrite Hrun. exists w', entries, calls.
  split; [reflexivity |]. split; [exact Hlog |]. split; [exact Hcalls |].
  split; [exact Hsel |].
  split; [intros packet Hp; rewrite Hp in Hpk; exact Hpk |].
  split; [exact Hjobs |]. rewrite Hjobs. exact Hj.
Qed.

Lemma armed_world_job1 d l : jobs (armed_world d l) !! job_id_of 1 = Some job1.
Proof. unfold armed_world, set_jobs. cbn [jobs]. apply lookup_insert_eq. Defined.

Lemma scheduled_fire_device_missing_witness :
  exists w',
    fire (job_id_of 1) (armed_world empty_db link_up) = (inr tt, w') /\
    log w' = [] ++ [schedule_device_not_found 1 1] /\
    level (schedule_device_not_found 1 1) = WARNING /\
    sendto_calls w' = [] /\
    db w' = empty_db /\
    jobs w' = jobs (armed_world empty_db link_up) /\
    jobs w' !! job_id_of 1 = Some job1.
Proof.
  exact (scheduled_fire_device_missing (job_id_of 1) job1 (armed_world empty_db link_up)
           (armed_world_job1 empty_db link_up) eq_refl).
Defined.

Lemma scheduled_fire_logs_failures_witness :
  exists w' entries calls,
    fire (job_id_of 1) (armed_world db1 (link_down_for "10.0.0.255")) = (inr tt, w') /\
    log w' = [] ++ entries /\
    sendto_calls w' = [] ++ calls /\
    Forall2 (logged_for 1 1) ["10.0.0.255"; "10.0.1.255"] entries /\
    (forall packet, build_packet "AA:BB:CC:DD:EE:FF" = Some packet ->
       List.map tx_host calls = ["10.0.0.255"; "10.0.1.255"] /\
       Forall2 (call_logged 1 1 packet) calls entries) /\
    jobs w' = jobs (armed_world db1 (link_down_for "10.0.0.255")) /\
    jobs w' !! job_id_of 1 = Some job1.
Proof.
  exact (scheduled_fire_logs_failures (job_id_of 1) job1 device1
           (armed_world db1 (link_down_for "10.0.0.255"))
           (armed_world_job1 db1 (link_down_for "10.0.0.255")) eq_refl).
Defined.

Example scheduled_fire_first_target_down :
  let w' := snd (schedule_job 1 1 None (armed_world db1 (link_down_for "10.0.0.255"))) in
  log w' = [scheduled_wake_failed 1 1 "10.0.0.255" "sendto failed";
            scheduled_wake_sent 1 1 "10.0.1.255"] /\
  List.map (fun c => (tx_host c, tx_ok c)) (sendto_calls w')
  = [("10.0.0.255", false); ("10.0.1.255", true)].
Proof. split; reflexivity. Qed.

(** ** Schedule creation *)

(** What a successful [add_schedule] leaves: the row appended to the store
    (its override column is filled only by a non-empty list) and the job
    armed under the identifier of the new schedule, capturing the override
    of the request. *)
Lemma add_schedule_inv (crontab_valid : string -> bool) (payload : ScheduleCreate)
    (w w' : World) (msg : ApiMessage) :
  add_schedule crontab_valid payload w = (inr msg, w') ->
  let sid := schedules_seq (db w) + 1 in
  crontab_valid (sc_cron payload) = true /\
  is_Some (Db.get_device (db w) (sc_device_id payload)) /\
  msg = {| success := true; message := "Schedule added"; data := Some (DataId sid) |} /\
  schedules (db w')
  = schedules (db w) ++
    [ {| s_id := sid; s_device_id := sc_device_id payload;
         s_cron_expr := sc_cron payload;
         s_broadcasts := if truthy (sc_broadcasts payload)
                         then sc_broadcasts payload else None;
         s_enabled := 1; s_created_at := now w |} ] /\
  jobs w'
  = <[ job_id_of sid :=
         {| job_schedule_id := sid; job_device_id := sc_device_id payload;
            job_broadcasts := sc_broadcasts payload;
            job_trigger := {| trigger_expr := sc_cron payload |} |} ]> (jobs w).
Proof.
  unfold add_schedule, bind, get_world, try_except, from_crontab, sqlite_bind.
  destruct (sqlite_int64 (sc_device_id payload)); [| intros H; discriminate H].
  cbn [ret].
  destruct (Db.get_device (db w) (sc_device_id payload)) as [device|] eqn:Hd;
    [| intros H; discriminate H].
  destruct (crontab_valid (sc_cron payload)) eqn:Hc; cbn; intros H;
    [| discriminate H].
  injection H as <- <-. cbn.
  repeat split; try reflexivity. eexists; reflexivity.
Qed.

(** C5. A creation request whose cron expression the parser rejects, for
    any device identifier and in any world, is answered with an error at
    once, and the world is left exactly as it was: no row is added to the
    store and no job is armed. The error is the [OverflowError] of the
    driver when the device identifier is outside the range of an
    [INTEGER], HTTP 404 of the device check when no device has the
    identifier, and otherwise HTTP 400 with the text of the parser's error
    after ["Invalid cron expression: "]; the expression is parsed after the
    device check and before the row is written. *)
Theorem add_schedule_rejects_malformed_cron (crontab_valid : string -> bool)
    (payload : ScheduleCreate) (w : World) :
  crontab_valid (sc_cron payload) = false ->
  exists e w',
    add_schedule crontab_valid payload w = (inl e, w') /\
    w' = w /\
    schedules (db w') = schedules (db w) /\
    jobs w' = jobs w /\
    if sqlite_int64 (sc_device_id payload)
    then match Db.get_device (db w) (sc_device_id payload) with
         | Some _ =>
             exists msg, e = HTTPException 400 ("Invalid cron expression: " +:+ msg)
         | None => e = HTTPException 404 "Device not found"
         end
    else exists msg, e = OverflowError msg.
Proof.
  intros Hc.
  unfold add_schedule, bind, get_world, try_except, from_crontab, sqlite_bind.
  destruct (sqlite_int64 (sc_device_id payload)).
  - cbn [ret]. destruct (Db.get_device (db w) (sc_device_id payload)) as [device|].
    + rewrite Hc. cbn. do 2 eexists. repeat split. eexists. reflexivity.
    + cbn. do 2 eexists. repeat split.
  - cbn. do 2 eexists. repeat split. eexists. reflexivity.
Qed.

Lemma add_schedule_rejects_malformed_cron_witness :
  (exists e w',
     add_schedule (fun s => String.eqb s "0 7 * * 1-5")
       {| sc_device_id := 1; sc_cron := "0 7 * * * *"; sc_broadcasts := None |}
       (armed_world db1 link_up)
     = (inl e, w') /\
     w' = armed_world db1 link_up /\
     schedules (db w') = [schedule1] /\
     jobs w' = jobs (armed_world db1 link_up) /\
     exists msg, e = HTTPException 400 ("Invalid cron expression: " +:+ msg)) /\
  (exists e w',
     add_schedule (fun s => String.eqb s "0 7 * * 1-5")
       {| sc_device_id := 9223372036854775808; sc_cron := "0 7 * * * *";
          sc_broadcasts := None |}
       (armed_world db1 link_up)
     = (inl e, w') /\
     w' = armed_world db1 link_up /\
     schedules (db w') = [schedule1] /\
     jobs w' = jobs (armed_world db1 link_up) /\
     exists msg, e = OverflowError msg).
Proof.
  split.
  - exact (add_schedule_rejects_malformed_cron (fun s => String.eqb s "0 7 * * 1-5")
             {| sc_device_id := 1; sc_cron := "0 7 * * * *"; sc_broadcasts := None |}
             (armed_world db1 link_up) eq_refl).
  - exact (add_schedule_rejects_malformed_cron (fun s => String.eqb s "0 7 * * 1-5")
             {| sc_device_id := 9223372036854775808; sc_cron := "0 7 * * * *";
                sc_broadcasts := None |}
             (armed_world db1 link_up) eq_refl).
Defined.

Example add_schedule_unknown_device_bad_cron :
  fst (add_schedule (fun s => String.eqb s "0 7 * * 1-5")
         {| sc_device_id := 5; sc_cron := "0 7 * * * *"; sc_broadcasts := None |}
         (armed_world db1 link_up))
  = inl (HTTPException 404 "Device not found").
Proof. reflexivity. Qed.

(** The targets of a fire: the captured override when it is a non-empty
    list, otherwise the broadcast list of the Device row given. *)
Lemma fire_resolves (job_id : string) (j : Job) (device : DeviceRow) (w : World) :
  jobs w !! job_id = Some j ->
  Db.get_device (db w) (job_device_id j) = Some device ->
  let resolved :=
    match job_broadcasts j with
    | Some (x :: l) => x :: l
    | _ => d_broadcasts device
    end in
  exists w' entries calls,
    fire job_id w = (inr tt, w') /\
    log w' = log w ++ entries /\
    sendto_calls w' = sendto_calls w ++ calls /\
    Forall2 (logged_for (job_schedule_id j) (job_device_id j)) resolved entries /\
    (forall packet, build_packet (d_mac device) = Some packet ->
       List.map tx_host calls = resolved).
Proof.
  intros Hj Hd resolved.
  rewrite (fire_armed _ _ w Hj). unfold try_except.
  destruct (schedule_job_total (job_schedule_id j) (job_device_id j) (job_broadcasts j)
              device w Hd)
    as (w' & Hrun & _ & _ & _ & _ & entries & calls & Hlog & Hcalls & Hsel & Hpk).
  assert (Hres : (if truthy (job_broadcasts j)
                  then default [] (job_broadcasts j)
                  else d_broadcasts device) = resolved).
  { unfold resolved. destruct (job_broadcasts j) as [[|x l]|]; reflexivity. }
  rewrite Hres in Hsel, Hpk.
  rewrite Hrun. exists w', entries, calls.
  split; [reflexivity |]. split; [exact Hlog |]. split; [exact Hcalls |].
  split; [exact Hsel |].
  intros packet Hp. rewrite Hp in Hpk. apply Hpk.
Qed.

(** C4. A fire of an armed job, in the world [w] it fires in, dispatches to
    one list, fixed before the first send: the broadcast override the job
    captured when that is a non-empty list, otherwise the broadcast list of
    the owning Device's row as the store of [w] has it, that is, as it is
    at fire time. Each entry of that list gets one log line, in order, and,
    when the MAC decodes, one socket call. *)
Theorem scheduled_fire_resolves_at_fire_time (job_id : string) (j : Job)
    (device : DeviceRow) (w : World) :
  jobs w !! job_id = Some j ->
  Db.get_device (db w) (job_device_id j) = Some device ->
  let resolved :=
    match job_broadcasts j with
    | Some (x :: l) => x :: l
    | _ => d_broadcasts device
    end in
  exists w' entries calls,
    fire job_id w = (inr tt, w') /\
    log w' = log w ++ entries /\
    sendto_calls w' = sendto_calls w ++ calls /\
    Forall2 (logged_for (job_schedule_id j) (job_device_id j)) resolved entries /\
    (forall packet, build_packet (d_mac device) = Some packet ->
       List.map tx_host calls = resolved).
Proof. exact (fire_resolves job_id j device w). Qed.

Lemma scheduled_fire_resolves_at_fire_time_witness :
  exists w' entries calls,
    fire (job_id_of 1) (armed_world db1_moved link_up) = (inr tt, w') /\
    log w' = [] ++ entries /\
    sendto_calls w' = [] ++ calls /\
    Forall2 (logged_for 1 1) ["192.168.1.255"] entries /\
    (forall packet, build_packet "AA:BB:CC:DD:EE:FF" = Some packet ->
       List.map tx_host calls = ["192.168.1.255"]).
Proof.
  exact (scheduled_fire_resolves_at_fire_time (job_id_of 1) job1 device1_moved
           (armed_world db1_moved link_up)
           (armed_world_job1 db1_moved link_up) eq_refl).
Defined.

(** The same for a job armed by a creation request: in whatever later
    world it fires, the list is the override of the request if non-empty,
    else the Device's list as that world has it, not as the world of the
    request had it. *)
Corollary created_schedule_binds_late (crontab_valid : string -> bool)
    (payload : ScheduleCreate) (w0 w0' : World) (msg : ApiMessage)
    (w : World) (device : DeviceRow) :
  add_schedule crontab_valid payload w0 = (inr msg, w0') ->
  let sid := schedules_seq (db w0) + 1 in
  jobs w !! job_id_of sid = jobs w0' !! job_id_of sid ->
  Db.get_device (db w) (sc_device_id payload) = Some device ->
  let resolved :=
    match sc_broadcasts payload with
    | Some (x :: l) => x :: l
    | _ => d_broadcasts device
    end in
  exists w' entries calls,
    fire (job_id_of sid) w = (inr tt, w') /\
    log w' = log w ++ entries /\
    sendto_calls w' = sendto_calls w ++ calls /\
    Forall2 (logged_for sid (sc_device_id payload)) resolved entries /\
    (forall packet, build_packet (d_mac device) = Some packet ->
       List.map tx_host calls = resolved).
Proof.
  intros Hadd sid Harmed Hd resolved.
  destruct (add_schedule_inv crontab_valid payload w0 w0' msg Hadd)
    as (_ & _ & _ & _ & Hjobs).
  fold sid in Hjobs. rewrite Hjobs, lookup_insert_eq in Harmed.
  exact (fire_resolves _ _ device w Harmed Hd).
Qed.

Example scheduled_fire_late_binding :
  let cv := fun s => String.eqb s "0 7 * * 1-5" in
  let payload := {| sc_device_id := 1; sc_cron := "0 7 * * 1-5"; sc_broadcasts := None |} in
  let w0' := snd (add_schedule cv payload (start_world db0 link_up)) in
  List.map tx_host (sendto_calls (snd (fire (job_id_of 1) w0')))
  = ["10.0.0.255"; "10.0.1.255"] /\
  List.map tx_host (sendto_calls (snd (fire (job_id_of 1) (set_db db1_moved w0'))))
  = ["192.168.1.255"].
Proof. split; vm_compute; reflexivity. Qed.

Example scheduled_fire_override :
  let cv := fun s => String.eqb s "0 7 * * 1-5" in
  let payload := {| sc_device_id := 1; sc_cron := "0 7 * * 1-5";
                    sc_broadcasts := Some ["172.16.0.255"] |} in
  let w0' := snd (add_schedule cv payload (start_world db0 link_up)) in
  List.map tx_host (sendto_calls (snd (fire (job_id_of 1) (set_db db1_moved w0'))))
  = ["172.16.0.255"].
Proof. vm_compute. reflexivity. Qed.

(** ** Deleting a device *)

Lemma find_some_filter {A : Type} (f : A -> bool) (l : list A) (x : A) :
  List.find f l = Some x -> (0 < length (List.filter f l))%nat.
Proof.
  induction l as [|a l IH]; simpl; [discriminate |].
  destruct (f a); simpl; [lia | exact IH].
Qed.

Lemma find_filter_negb {A : Type} (f : A -> bool) (l : list A) :
  List.find f (List.filter (fun a => negb (f a)) l) = None.
Proof.
  induction l as [|a l IH]; simpl; [reflexivity |].
  destruct (f a) eqn:Hf; simpl; [exact IH | rewrite Hf; exact IH].
Qed.

Lemma filter_filter_negb {A : Type} (f : A -> bool) (l : list A) :
  List.filter f (List.filter (fun a => negb (f a)) l) = [].
Proof.
  induction l as [|a l IH]; simpl; [reflexivity |].
  destruct (f a) eqn:Hf; simpl; [exact IH | rewrite Hf; exact IH].
Qed.

(** The loop of [delete_device] over the schedule identifiers: it ends
    normally, touches the job table only, removes the entry of every
    identifier of the list and leaves every other entry as it was. *)
Lemma remove_jobs_loop :
  forall (ids : list Z) (w : World),
  exists w',
    for_each ids (fun schedule_id =>
      let job_id := job_id_of schedule_id in
      do j <- Scheduler.get_job job_id;
      match j with
      | Some _ => Scheduler.remove_job job_id
      | None => ret tt
      end) w = (inr tt, w') /\
    db w' = db w /\ log w' = log w /\ sendto_calls w' = sendto_calls w /\
    (forall k, jobs w' !! k = None \/ jobs w' !! k = jobs w !! k) /\
    (forall sid, In sid ids -> jobs w' !! job_id_of sid = None) /\
    (forall k, (forall sid, In sid ids -> k <> job_id_of sid) ->
       jobs w' !! k = jobs w !! k).
Proof.
  induction ids as [|sid ids IH]; intros w.
  - exists w. split; [reflexivity |].
    repeat split; try reflexivity; auto. intros sid [].
  - cbn [for_each]. unfold bind at 1. unfold bind at 1.
    unfold Scheduler.get_job at 1.
    destruct (jobs w !! job_id_of sid) as [j|] eqn:Hj.
    + unfold Scheduler.remove_job at 1. rewrite Hj.
      destruct (IH (set_jobs (delete (job_id_of sid) (jobs w)) w))
        as (w' & Hrun & Hdb & Hlog & Hcalls & Hsub & Hgone & Hkeep).
      exists w'. split; [exact Hrun |].
      split; [exact Hdb |]. split; [exact Hlog |]. split; [exact Hcalls |].
      cbn [jobs set_jobs] in Hsub, Hkeep.
      split; [| split].
      * intros k. destruct (Hsub k) as [Hk|Hk]; [left; exact Hk |].
        rewrite Hk. destruct (decide (job_id_of sid = k)) as [<-|Hne].
        -- left. apply lookup_delete_eq.
        -- right. apply lookup_delete_ne. exact Hne.
      * intros s [<-|Hin]; [| apply Hgone; exact Hin].
        destruct (Hsub (job_id_of sid)) as [Hk|Hk]; [exact Hk |].
        rewrite Hk. apply lookup_delete_eq.
      * intros k Hk. rewrite Hkeep by (intros s Hs; apply Hk; right; exact Hs).
        apply lookup_delete_ne. intros E. apply (Hk sid); [left; reflexivity | congruence].
    + cbn [ret].
      destruct (IH w) as (w' & Hrun & Hdb & Hlog & Hcalls & Hsub & Hgone & Hkeep).
      exists w'. split; [exact Hrun |].
      split; [exact Hdb |]. split; [exact Hlog |]. split; [exact Hcalls |].
      split; [exact Hsub | split].
      * intros s [<-|Hin]; [| apply Hgone; exact Hin].
        destruct (Hsub (job_id_of sid)) as [Hk|Hk]; [exact Hk | congruence].
      * intros k Hk. apply Hkeep. intros s Hs. apply Hk. right. exact Hs.
Qed.

(** C8. Deleting an existing Device succeeds; afterwards the Device is gone
    from the store, the store holds no Schedule of that Device (the
    Schedules of other Devices are kept), and the job table has no entry for
    any identifier of a Schedule the Device had, while the entries of all
    other job identifiers are as before. *)
Theorem delete_device_cascades (device_id : Z) (device : DeviceRow) (w : World) :
  Db.get_device (db w) device_id = Some device ->
  exists w',
    delete_device device_id w
    = (inr {| success := true; message := "Device deleted"; data := None |}, w') /\
    Db.get_device (db w') device_id = None /\
    Db.list_schedule_ids_for_device (db w') device_id = [] /\
    (forall s, In s (schedules (db w')) <->
               In s (schedules (db w)) /\ s_device_id s <> device_id) /\
    (forall sid, In sid (Db.list_schedule_ids_for_device (db w) device_id) ->
       jobs w' !! job_id_of sid = None) /\
    (forall k, (forall sid, In sid (Db.list_schedule_ids_for_device (db w) device_id) ->
                  k <> job_id_of sid) ->
       jobs w' !! k = jobs w !! k).
Proof.
  intros Hd. unfold delete_device, bind at 1, get_world. cbn [Db.delete_device].
  unfold bind at 1.
  pose proof (find_some_filter _ _ _ Hd) as Hpos. unfold Db.get_device in Hd.
  destruct (Z.eqb_spec (Z.of_nat (length (List.filter (fun r => d_id r =? device_id)
                                            (devices (db w))))) 0) as [E|_]; [lia |].
  unfold bind at 1.
  match goal with
  | |- context [for_each _ _ ?w1] =>
      destruct (remove_jobs_loop
                  (Db.list_schedule_ids_for_device (db w) device_id) w1)
        as (w' & Hrun & Hdb & Hlog & Hcalls & _ & Hgone & Hkeep)
  end.
  cbv zeta in Hrun. rewrite Hrun. cbn [bind logger ret].
  eexists. split; [reflexivity |].
  cbn [db add_log set_db jobs] in *. rewrite Hdb.
  split; [apply (find_filter_negb (fun r => d_id r =? device_id)) |].
  split.
  { unfold Db.list_schedule_ids_for_device. cbn [schedules].
    rewrite (filter_filter_negb (fun s => s_device_id s =? device_id)). reflexivity. }
  split.
  { intros s. cbn [schedules]. rewrite filter_In, negb_true_iff, Z.eqb_neq. reflexivity. }
  split; [exact Hgone | exact Hkeep].
Qed.

Lemma delete_device_cascades_witness :
  exists w',
    delete_device 1 armed2_world
    = (inr {| success := true; message := "Device deleted"; data := None |}, w') /\
    Db.get_device (db w') 1 = None /\
    Db.list_schedule_ids_for_device (db w') 1 = [] /\
    (forall s, In s (schedules (db w')) <->
               In s [schedule1; schedule2] /\ s_device_id s <> 1) /\
    (forall sid, In sid [1; 2] -> jobs w' !! job_id_of sid = None) /\
    (forall k, (forall sid, In sid [1; 2] -> k <> job_id_of sid) ->
       jobs w' !! k = jobs armed2_world !! k).
Proof.
  exact (delete_device_cascades 1 device1 armed2_world eq_refl).
Defined.

Example delete_device_two_schedules :
  let w' := snd (delete_device 1 armed2_world) in
  jobs armed2_world !! job_id_of 1 = Some job1 /\
  jobs armed2_world !! job_id_of 2 = Some job2 /\
  jobs w' !! job_id_of 1 = None /\
  jobs w' !! job_id_of 2 = None /\
  schedules (db w') = [] /\ devices (db w') = [].
Proof. vm_compute. repeat split. Qed.

(** ** MAC validation at the public interface *)

Lemma upper_no_lower_hex (s : string) :
  all_chars (fun c => is_hex_char c = is_upper_hex c) (PyStr.upper s).
Proof.
  induction s as [|c r IH]; simpl; [exact I |].
  split; [apply upper_char_no_lower_hex | exact IH].
Qed.

Lemma upper_last_char (s : string) :
  last_char (PyStr.upper s) = option_map PyStr.upper_char (last_char s).
Proof.
  induction s as [|c r IH]; simpl; [reflexivity |].
  rewrite IH. destruct (last_char r); reflexivity.
Qed.

Lemma rstrip_last_char (s : string) (c : ascii) :
  last_char (PyStr.rstrip s) = Some c -> PyStr.isspace c = false.
Proof.
  revert c. induction s as [|a r IH]; intros c; simpl; [discriminate |].
  destruct (PyStr.rstrip r) as [|b r'] eqn:Hr.
  - destruct (PyStr.isspace a) eqn:Ha; simpl; [discriminate |].
    intros H. injection H as <-. exact Ha.
  - intros H. apply IH.
    change (last_char (String a (String b r'))) with
      (match last_char (String b r') with Some d => Some d | None => Some a end) in H.
    destruct (last_char (String b r')) as [d|] eqn:Hl; [exact H |].
    simpl in Hl. destruct (last_char r'); discriminate Hl.
Qed.

Lemma strip_upper_last_char (v : string) (c : ascii) :
  last_char (PyStr.upper (PyStr.strip v)) = Some c -> PyStr.isspace c = false.
Proof.
  rewrite upper_last_char. unfold PyStr.strip.
  destruct (last_char (PyStr.rstrip (PyStr.lstrip v))) as [d|] eqn:Hd; [|discriminate].
  simpl. intros H. injection H as <-.
  rewrite upper_char_isspace. exact (rstrip_last_char _ _ Hd).
Qed.

Lemma regex_tail_canonical (n : nat) :
  forall s,
    regex_tail n s = true ->
    all_chars (fun c => is_hex_char c = is_upper_hex c) s ->
    (forall c, last_char s = Some c -> PyStr.isspace c = false) ->
    canonical_pairs n s = true.
Proof.
  unfold regex_tail.
  induction n as [|n IH]; intros s Hm Hall Hlast;
    destruct s as [|a [|b r]]; try discriminate;
    destruct Hall as (Pa & Pb & Pr).
  - cbn [re_repeat re_hex2] in Hm.
    destruct (is_hex_char a && is_hex_char b) eqn:Hab; [|discriminate].
    apply andb_true_iff in Hab as [Ha Hb]. rewrite Pa in Ha. rewrite Pb in Hb.
    cbn [canonical_pairs]. rewrite Ha, Hb.
    destruct r as [|c [|d r]]; [reflexivity | | discriminate].
    cbn [re_end] in Hm. apply Ascii.eqb_eq in Hm. subst c.
    specialize (Hlast "010"%char eq_refl). discriminate Hlast.
  - cbn [re_repeat] in Hm. unfold re_group at 1 in Hm. cbn [re_hex2] in Hm.
    destruct (is_hex_char a && is_hex_char b) eqn:Hab; [|discriminate].
    apply andb_true_iff in Hab as [Ha Hb]. rewrite Pa in Ha. rewrite Pb in Hb.
    destruct r as [|c r]; [discriminate |].
    destruct (Ascii.eqb c ":") eqn:Hc; [|discriminate].
    cbn [canonical_pairs]. rewrite Ha, Hb, Hc. cbn [andb].
    destruct Pr as [_ Pr].
    apply IH; [exact Hm | exact Pr |].
    intros e He. apply Hlast.
    cbn [last_char]. rewrite He. reflexivity.
Qed.

Lemma upper_hex_is_hex (c : ascii) : is_upper_hex c = true -> is_hex_char c = true.
Proof. ascii_cases c. Qed.

Lemma canonical_regex_tail (n : nat) :
  forall s, canonical_pairs n s = true -> regex_tail n s = true.
Proof.
  unfold regex_tail.
  induction n as [|n IH]; intros s H;
    destruct s as [|a [|b r]]; try discriminate;
    cbn [canonical_pairs] in H;
    apply andb_true_iff in H as [Hab Hr];
    apply andb_true_iff in Hab as [Ha Hb];
    apply upper_hex_is_hex in Ha; apply upper_hex_is_hex in Hb.
  - destruct r; [|discriminate].
    cbn [re_repeat re_hex2]. rewrite Ha, Hb. reflexivity.
  - destruct r as [|c r]; [discriminate |].
    apply andb_true_iff in Hr as [Hc Hr].
    cbn [re_repeat]. unfold re_group at 1. cbn [re_hex2].
    rewrite Ha, Hb. cbn [andb]. rewrite Hc. apply IH. exact Hr.
Qed.

Lemma validate_mac_spec (v m : string) :
  validate_mac v = inr m
  <-> m = PyStr.upper (PyStr.strip v) /\ is_canonical_mac m = true.
Proof.
  unfold validate_mac.
  destruct (MAC_REGEX_match (PyStr.upper (PyStr.strip v))) eqn:Hm; cbn [negb]; split.
  - intros H. injection H as <-. split; [reflexivity |].
    apply regex_tail_canonical;
      [exact Hm | apply upper_no_lower_hex | apply strip_upper_last_char].
  - intros [-> _]. reflexivity.
  - discriminate.
  - intros [-> Hc]. apply canonical_regex_tail in Hc.
    unfold regex_tail in Hc. unfold MAC_REGEX_match in Hm. congruence.
Qed.

Example validate_mac_trims_and_raises :
  validate_mac "  aa:bb:cc:dd:ee:ff " = inr "AA:BB:CC:DD:EE:FF".
Proof. reflexivity. Qed.

Example validate_mac_rejects_dashes :
  validate_mac "AA-BB-CC-DD-EE-FF"
  = inl (ValueError "Invalid MAC address format. Use AA:BB:CC:DD:EE:FF").
Proof. reflexivity. Qed.

Example regex_end_before_newline :
  MAC_REGEX_match (String.append "AA:BB:CC:DD:EE:FF" (String "010" EmptyString)) = true.
Proof. reflexivity. Qed.

(** Every socket call of the wake loop carries the payload built from the
    address the loop was given. *)
Lemma wake_loop_calls (mac : string) :
  forall targets sent w,
  exists calls,
    sendto_calls (snd (wake_loop mac targets sent w)) = sendto_calls w ++ calls /\
    Forall (fun c => build_packet mac = Some (tx_packet c)) calls.
Proof.
  induction targets as [|t rest IH]; intros sent w.
  - exists []. rewrite app_nil_r. split; [reflexivity | constructor].
  - cbn [wake_loop]. unfold bind at 1. unfold try_except at 1. unfold bind at 1.
    rewrite send_magic_packet_build.
    destruct (build_packet mac) as [packet|] eqn:Hp.
    + unfold sendto.
      destruct (link w (length (sendto_calls w)) t 9) eqn:Hl; cbn [bind logger ret raise].
      * match goal with
        | |- context [wake_loop mac rest ?s1 ?w1] =>
            destruct (IH s1 w1) as (calls & Hc & Hall)
        end.
        rewrite Hc. cbn [sendto_calls add_log add_sendto_call].
        eexists (_ :: calls). rewrite <- app_assoc. split; [reflexivity |].
        constructor; [reflexivity | exact Hall].
      * cbn. eexists [_]. split; [reflexivity |].
        constructor; [reflexivity | constructor].
    + cbn. exists []. rewrite app_nil_r. split; [reflexivity | constructor].
Qed.

(** ** The validator over code points *)

Lemma code_range (c : ascii) : 0 <= UStr.code c < 256.
Proof.
  unfold UStr.code. pose proof (N_ascii_bounded c). lia.
Qed.

Lemma chr_code (c : ascii) : UStr.chr (UStr.code c) = c.
Proof. unfold UStr.chr, UStr.code. rewrite N2Z.id. apply ascii_N_embedding. Qed.

Lemma code_chr (c : Z) : 0 <= c < 256 -> UStr.code (UStr.chr c) = c.
Proof.
  intros H. unfold UStr.chr, UStr.code.
  rewrite N_ascii_embedding by lia. lia.
Qed.

Lemma to_string_codes_of (s : string) : UStr.to_string (UStr.codes_of s) = s.
Proof.
  induction s as [|c r IH]; [reflexivity |].
  cbn [UStr.codes_of UStr.to_string]. rewrite chr_code, IH. reflexivity.
Qed.

Lemma is_upper_hex_code (c : ascii) :
  is_upper_hex c = (((48 <=? UStr.code c) && (UStr.code c <=? 57))
                    || ((65 <=? UStr.code c) && (UStr.code c <=? 70))).
Proof. reflexivity. Qed.

Lemma colon_code (c : ascii) : Ascii.eqb c ":" = (UStr.code c =? 58).
Proof.
  destruct (Ascii.eqb c ":") eqn:E.
  - apply Ascii.eqb_eq in E. subst c. reflexivity.
  - symmetry. apply Z.eqb_neq. intros H.
    assert (c = ":"%char) as ->; [| rewrite Ascii.eqb_refl in E; discriminate].
    rewrite <- (chr_code c), H. reflexivity.
Qed.

Ltac z_cases :=
  repeat (match goal with
          | |- context [?a <=? ?b] => destruct (Z.leb_spec a b)
          | |- context [?a <? ?b] => destruct (Z.ltb_spec a b)
          | |- context [?a =? ?b] => destruct (Z.eqb_spec a b)
          | H : context [?a <=? ?b] |- _ => destruct (Z.leb_spec a b)
          | H : context [?a <? ?b] |- _ => destruct (Z.ltb_spec a b)
          | H : context [?a =? ?b] |- _ => destruct (Z.eqb_spec a b)
          end; try (exfalso; lia)).

Lemma upper_char_shape (up : Z -> list Z) (c : Z) :
  case_table_ok up ->
  UStr.upper_char up c <> [] /\
  Forall (fun d => ~ 97 <= d <= 122) (UStr.upper_char up c) /\
  (UStr.isspace c = false -> Forall (fun d => d <> 10) (UStr.upper_char up c)).
Proof.
  intros Hup. unfold UStr.upper_char.
  destruct (Z.ltb_spec c 128) as [Hc|Hc].
  - split; [discriminate |]. split.
    + constructor; [| constructor]. z_cases; cbn; lia.
    + intros Hs. constructor; [| constructor].
      unfold UStr.isspace in Hs. z_cases; cbn in *; try discriminate; lia.
  - destruct (Hup c Hc) as [Hne Hall]. split; [exact Hne |]. split.
    + eapply List.Forall_impl; [| exact Hall]. cbv beta. intros d Hd. lia.
    + intros _. eapply List.Forall_impl; [| exact Hall]. cbv beta. intros d Hd. lia.
Qed.

Lemma upper_app (up : Z -> list Z) (a b : list Z) :
  UStr.upper up (a ++ b) = UStr.upper up a ++ UStr.upper up b.
Proof.
  induction a as [|c r IH]; [reflexivity |].
  cbn [UStr.upper app]. rewrite IH, app_assoc. reflexivity.
Qed.

Lemma upper_no_lower_codes (up : Z -> list Z) (s : list Z) :
  case_table_ok up -> Forall (fun d => ~ 97 <= d <= 122) (UStr.upper up s).
Proof.
  intros Hup. induction s as [|c r IH]; [constructor |].
  cbn [UStr.upper]. apply Forall_app. split; [| exact IH].
  apply (upper_char_shape up c Hup).
Qed.

Lemma rstrip_shape (l : list Z) :
  UStr.rstrip l = [] \/
  exists l' c, UStr.rstrip l = l' ++ [c] /\ UStr.isspace c = false.
Proof.
  induction l as [|c r IH]; [left; reflexivity |].
  cbn [UStr.rstrip]. destruct (UStr.rstrip r) as [|x xs] eqn:Hr.
  - destruct (UStr.isspace c) eqn:Hc; [left; reflexivity |].
    right. exists [], c. split; [reflexivity | exact Hc].
  - destruct IH as [IH | (l' & d & IH & Hd)]; [discriminate |].
    right. exists (c :: l'), d. rewrite IH. split; [reflexivity | exact Hd].
Qed.

Lemma upper_strip_end (up : Z -> list Z) (v : list Z) :
  case_table_ok up ->
  forall X, UStr.upper up (UStr.strip v) <> X ++ [10].
Proof.
  intros Hup X. unfold UStr.strip.
  destruct (rstrip_shape (UStr.lstrip v)) as [-> | (l' & c & -> & Hc)].
  - cbn. destruct X; discriminate.
  - rewrite upper_app. cbn [UStr.upper]. rewrite app_nil_r.
    destruct (upper_char_shape up c Hup) as (Hne & _ & Hnl).
    specialize (Hnl Hc).
    destruct (exists_last Hne) as (u & d & Hu). rewrite Hu in *.
    apply Forall_app in Hnl as [_ Hd]. inversion Hd as [|? ? Hd10 _]; subst.
    rewrite app_assoc. intros E. apply app_inj_tail in E as [_ E]. contradiction.
Qed.

Lemma hex_not_lower (a : Z) :
  UStr.is_hex_char a = true -> ~ 97 <= a <= 122 ->
  0 <= a < 256 /\ is_upper_hex (UStr.chr a) = true.
Proof.
  intros Hh Hl.
  assert (Hr : (48 <= a <= 57) \/ (65 <= a <= 70)).
  { unfold UStr.is_hex_char in Hh. z_cases; cbn in Hh; try discriminate; lia. }
  split; [lia |].
  rewrite is_upper_hex_code, code_chr by lia.
  z_cases; cbn; try reflexivity; lia.
Qed.

Lemma code_regex_tail_canonical (n : nat) :
  forall l,
    code_regex_tail n l = true ->
    Forall (fun d => ~ 97 <= d <= 122) l ->
    (forall X, l <> X ++ [10]) ->
    canonical_pairs n (UStr.to_string l) = true /\
    UStr.codes_of (UStr.to_string l) = l.
Proof.
  unfold code_regex_tail.
  induction n as [|n IH]; intros l Hm Hall Hend;
    destruct l as [|a [|b r]]; try discriminate;
    inversion Hall as [|? ? Pa Hall']; subst;
    inversion Hall' as [|? ? Pb Pr]; subst.
  - cbn [UStr.re_repeat UStr.re_hex2] in Hm.
    destruct (UStr.is_hex_char a && UStr.is_hex_char b) eqn:Hab; [|discriminate].
    apply andb_true_iff in Hab as [Ha Hb].
    destruct (hex_not_lower a Ha Pa) as [Ra Ua].
    destruct (hex_not_lower b Hb Pb) as [Rb Ub].
    destruct r as [|c [|d r]]; [| | discriminate].
    + cbn [UStr.to_string canonical_pairs UStr.codes_of].
      rewrite Ua, Ub, !code_chr by assumption. split; reflexivity.
    + cbn [UStr.re_end] in Hm. apply Z.eqb_eq in Hm. subst c.
      exfalso. exact (Hend [a; b] eq_refl).
  - cbn [UStr.re_repeat] in Hm. unfold UStr.re_group at 1 in Hm.
    cbn [UStr.re_hex2] in Hm.
    destruct (UStr.is_hex_char a && UStr.is_hex_char b) eqn:Hab; [|discriminate].
    apply andb_true_iff in Hab as [Ha Hb].
    destruct (hex_not_lower a Ha Pa) as [Ra Ua].
    destruct (hex_not_lower b Hb Pb) as [Rb Ub].
    destruct r as [|c r]; [discriminate |].
    destruct (Z.eqb_spec c 58) as [->|]; [|discriminate].
    inversion Pr as [|? ? _ Pr']; subst.
    destruct (IH r Hm Pr') as [Hc Hr].
    { intros X E. apply (Hend (a :: b :: 58 :: X)). rewrite E. reflexivity. }
    cbn [UStr.to_string canonical_pairs UStr.codes_of].
    rewrite Ua, Ub, Hc, Hr, !code_chr by assumption.
    split; reflexivity.
Qed.

Lemma upper_hex_code_is_hex (c : ascii) :
  is_upper_hex c = true -> UStr.is_hex_char (UStr.code c) = true.
Proof.
  rewrite is_upper_hex_code. unfold UStr.is_hex_char. intros ->. reflexivity.
Qed.

Lemma canonical_code_regex_tail (n : nat) :
  forall s, canonical_pairs n s = true -> code_regex_tail n (UStr.codes_of s) = true.
Proof.
  unfold code_regex_tail.
  induction n as [|n IH]; intros s H;
    destruct s as [|a [|b r]]; try discriminate;
    cbn [canonical_pairs] in H;
    apply andb_true_iff in H as [Hab Hr];
    apply andb_true_iff in Hab as [Ha Hb];
    apply upper_hex_code_is_hex in Ha; apply upper_hex_code_is_hex in Hb.
  - destruct r; [|discriminate].
    cbn [UStr.codes_of UStr.re_repeat UStr.re_hex2]. rewrite Ha, Hb. reflexivity.
  - destruct r as [|c r]; [discriminate |].
    apply andb_true_iff in Hr as [Hc Hr]. rewrite colon_code in Hc.
    cbn [UStr.codes_of UStr.re_repeat]. unfold UStr.re_group at 1. cbn [UStr.re_hex2].
    rewrite Ha, Hb. cbn [andb]. rewrite Hc. apply IH. exact Hr.
Qed.

Lemma validate_mac_codes (up : Z -> list Z) (v m : list Z) :
  case_table_ok up ->
  UStr.validate_mac up v = inr m
  <-> m = UStr.upper up (UStr.strip v) /\
      exists s, m = UStr.codes_of s /\ is_canonical_mac s = true.
Proof.
  intros Hup. unfold UStr.validate_mac.
  destruct (UStr.MAC_REGEX_match (UStr.upper up (UStr.strip v))) eqn:Hm;
    cbn [negb]; split.
  - intros H. injection H as <-. split; [reflexivity |].
    destruct (code_regex_tail_canonical 5 _ Hm (upper_no_lower_codes up _ Hup)
                (upper_strip_end up v Hup)) as [Hc Hr].
    exists (UStr.to_string (UStr.upper up (UStr.strip v))).
    split; [symmetry; exact Hr | exact Hc].
  - intros [-> _]. reflexivity.
  - discriminate.
  - intros [-> (s & Hs & Hc)]. apply canonical_code_regex_tail in Hc.
    unfold code_regex_tail in Hc. unfold UStr.MAC_REGEX_match in Hm.
    rewrite Hs in Hm. congruence.
Qed.

Lemma lstrip_spaces (pre l : list Z) :
  Forall (fun c => UStr.isspace c = true) pre ->
  UStr.lstrip (pre ++ l) = UStr.lstrip l.
Proof.
  induction 1 as [|c r Hc _ IH]; [reflexivity |].
  cbn [app UStr.lstrip]. rewrite Hc. exact IH.
Qed.

Lemma rstrip_spaces (l post : list Z) :
  Forall (fun c => UStr.isspace c = true) post ->
  UStr.rstrip (l ++ post) = UStr.rstrip l.
Proof.
  intros Hp.
  assert (Hnil : UStr.rstrip post = []).
  { induction Hp as [|c r Hc _ IH]; [reflexivity |].
    cbn [UStr.rstrip]. rewrite IH, Hc. reflexivity. }
  induction l as [|c r IH]; [exact Hnil |].
  cbn [app UStr.rstrip]. rewrite IH. reflexivity.
Qed.

Lemma rstrip_no_space (l : list Z) :
  Forall (fun c => UStr.isspace c = false) l -> UStr.rstrip l = l.
Proof.
  induction 1 as [|c r Hc _ IH]; [reflexivity |].
  cbn [UStr.rstrip]. rewrite IH, Hc. destruct r; reflexivity.
Qed.

(** [strip] removes the white space around a text that holds none. *)
Lemma strip_trims (pre core post : list Z) :
  Forall (fun c => UStr.isspace c = true) pre ->
  Forall (fun c => UStr.isspace c = false) core ->
  Forall (fun c => UStr.isspace c = true) post ->
  UStr.strip (pre ++ core ++ post) = core.
Proof.
  intros Hpre Hcore Hpost. unfold UStr.strip.
  rewrite (lstrip_spaces pre _ Hpre).
  destruct Hcore as [|c r Hc Hr].
  - cbn [app]. rewrite <- (app_nil_r post), (lstrip_spaces post [] Hpost). reflexivity.
  - cbn [app UStr.lstrip]. rewrite Hc.
    change (c :: r ++ post) with ((c :: r) ++ post).
    rewrite (rstrip_spaces _ _ Hpost). apply rstrip_no_space.
    constructor; assumption.
Qed.

Lemma canonical_codes (n : nat) :
  forall s, canonical_pairs n s = true ->
    Forall (fun d => 48 <= d <= 58 \/ 65 <= d <= 70) (UStr.codes_of s).
Proof.
  assert (Hhex : forall c, is_upper_hex c = true ->
                   48 <= UStr.code c <= 58 \/ 65 <= UStr.code c <= 70).
  { intros c. rewrite is_upper_hex_code. intros H. z_cases; cbn in H; try discriminate; lia. }
  induction n as [|n IH]; intros s H;
    destruct s as [|a [|b r]]; try discriminate;
    cbn [canonical_pairs] in H;
    apply andb_true_iff in H as [Hab Hr];
    apply andb_true_iff in Hab as [Ha Hb];
    cbn [UStr.codes_of];
    (constructor; [exact (Hhex a Ha) |]);
    (constructor; [exact (Hhex b Hb) |]).
  - destruct r; [constructor | discriminate].
  - destruct r as [|c r]; [discriminate |].
    apply andb_true_iff in Hr as [Hc Hr]. rewrite colon_code in Hc.
    apply Z.eqb_eq in Hc. cbn [UStr.codes_of].
    constructor; [lia | apply IH; exact Hr].
Qed.

(** A text that differs from a canonical address by the case of its
    hexadecimal letters holds no white space, and [upper] turns it into
    that address, whatever the case table is. *)
Lemma same_letter_upper (up : Z -> list Z) (core target : list Z) :
  Forall2 same_letter core target ->
  Forall (fun d => 48 <= d <= 58 \/ 65 <= d <= 70) target ->
  UStr.upper up core = target /\
  Forall (fun c => UStr.isspace c = false) core.
Proof.
  induction 1 as [|c d core target Hcd _ IH]; intros Ht.
  - split; [reflexivity | constructor].
  - inversion Ht as [|? ? Hd Ht']; subst. destruct (IH Ht') as [IHu IHs].
    cbn [UStr.upper]. rewrite IHu.
    assert (Hc : UStr.upper_char up c = [d] /\ UStr.isspace c = false).
    { unfold UStr.upper_char, UStr.isspace.
      destruct Hcd as [->|[Hr ->]]; z_cases; cbn; split; try reflexivity;
        try (f_equal; lia); lia. }
    destruct Hc as [-> Hs]. split; [reflexivity | constructor; assumption].
Qed.

Lemma validate_mac_accepts (up : Z -> list Z) (pre core post : list Z) (s : string) :
  Forall (fun c => UStr.isspace c = true) pre ->
  Forall (fun c => UStr.isspace c = true) post ->
  is_canonical_mac s = true ->
  Forall2 same_letter core (UStr.codes_of s) ->
  UStr.validate_mac up (pre ++ core ++ post) = inr (UStr.codes_of s).
Proof.
  intros Hpre Hpost Hs Hcore.
  destruct (same_letter_upper up core _ Hcore (canonical_codes 5 s Hs)) as [Hu Hns].
  unfold UStr.validate_mac.
  rewrite (strip_trims pre core post Hpre Hns Hpost), Hu.
  apply canonical_code_regex_tail in Hs. unfold code_regex_tail in Hs.
  unfold UStr.MAC_REGEX_match. rewrite Hs. reflexivity.
Qed.

Lemma sample_case_table_ok : case_table_ok sample_upper_nonascii.
Proof.
  intros c Hc. unfold sample_upper_nonascii.
  z_cases; (split; [discriminate |]); repeat constructor; lia.
Qed.

(** C10. The field validator, on any text (a list of code points) and for
    any case table of the interpreter. It returns a value exactly when the
    trimmed, uppercased input is six uppercase hex byte-pairs separated by
    colons, and the value is that address; every other input is rejected
    with [ValueError]. Trimming and uppercasing, stated on the input: a
    canonical address written with its letters [A] to [F] in either case
    and with any white space around it is accepted and gives the canonical
    address. Hence a [DeviceCreate] or [WakeRequest] that was constructed
    holds a canonical address: the row that [add_device] appends to the
    store carries it unchanged, and every socket call of [wake] carries the
    102-byte payload built from it. *)
Theorem validated_mac_is_canonical (upper_nonascii : Z -> list Z) :
  case_table_ok upper_nonascii ->
  (forall v m,
     UStr.validate_mac upper_nonascii v = inr m
     <-> m = UStr.upper upper_nonascii (UStr.strip v) /\
         exists s, m = UStr.codes_of s /\ is_canonical_mac s = true) /\
  (forall v,
     (forall s, is_canonical_mac s = true ->
                UStr.upper upper_nonascii (UStr.strip v) <> UStr.codes_of s) ->
     UStr.validate_mac upper_nonascii v
     = inl (ValueError "Invalid MAC address format. Use AA:BB:CC:DD:EE:FF")) /\
  (forall pre core post s,
     Forall (fun c => UStr.isspace c = true) pre ->
     Forall (fun c => UStr.isspace c = true) post ->
     is_canonical_mac s = true ->
     Forall2 same_letter core (UStr.codes_of s) ->
     UStr.validate_mac upper_nonascii (pre ++ core ++ post) = inr (UStr.codes_of s)) /\
  (forall name v ip broadcasts shutdown_url payload settings w,
     UStr.DeviceCreate_validate upper_nonascii name v ip broadcasts shutdown_url
     = inr payload ->
     is_canonical_mac (dc_mac payload) = true /\
     UStr.codes_of (dc_mac payload) = UStr.upper upper_nonascii (UStr.strip v) /\
     exists row,
       devices (db (snd (add_device settings payload w))) = devices (db w) ++ [row] /\
       d_mac row = dc_mac payload) /\
  (forall v broadcast payload settings w,
     UStr.WakeRequest_validate upper_nonascii v broadcast = inr payload ->
     is_canonical_mac (wr_mac payload) = true /\
     UStr.codes_of (wr_mac payload) = UStr.upper upper_nonascii (UStr.strip v) /\
     exists calls,
       sendto_calls (snd (wake settings payload w)) = sendto_calls w ++ calls /\
       Forall (fun c => build_packet (wr_mac payload) = Some (tx_packet c) /\
                        length (tx_packet c) = 102%nat) calls).
Proof.
  intros Hup.
  split; [intros v m; apply validate_mac_codes; exact Hup |].
  split.
  { intros v Hn. destruct (UStr.validate_mac upper_nonascii v) as [e|m] eqn:Hv.
    - unfold UStr.validate_mac in Hv. destruct (negb _); [symmetry; exact Hv | discriminate].
    - apply (validate_mac_codes upper_nonascii v m Hup) in Hv as [-> (s & Hs & Hc)].
      exfalso. exact (Hn s Hc Hs). }
  split; [intros pre core post s; apply validate_mac_accepts |].
  split.
  - intros name v ip broadcasts shutdown_url payload settings w Hv.
    unfold UStr.DeviceCreate_validate in Hv.
    destruct (negb _); [discriminate |].
    destruct (UStr.validate_mac upper_nonascii v) as [e|m] eqn:Hm; [discriminate |].
    destruct (negb (opt_max_length 255 ip)); [discriminate |].
    destruct (negb (opt_max_length 500 shutdown_url)); [discriminate |].
    injection Hv as <-.
    apply (validate_mac_codes upper_nonascii v m Hup) in Hm as [Hmv (s & Hs & Hc)].
    cbn [dc_mac]. rewrite Hs, to_string_codes_of.
    split; [exact Hc |]. split; [congruence |].
    unfold add_device, bind, get_world. cbn.
    eexists. split; reflexivity.
  - intros v broadcast payload settings w Hv.
    unfold UStr.WakeRequest_validate in Hv.
    destruct (UStr.validate_mac upper_nonascii v) as [e|m] eqn:Hm; [discriminate |].
    injection Hv as <-.
    apply (validate_mac_codes upper_nonascii v m Hup) in Hm as [Hmv (s & Hs & Hc)].
    cbn [wr_mac wr_broadcast]. rewrite Hs, to_string_codes_of.
    split; [exact Hc |]. split; [congruence |].
    unfold wake, bind. cbn [wr_mac wr_broadcast].
    destruct (wake_loop_calls s
                (parse_broadcasts broadcast (default_broadcasts settings)) [] w)
      as (calls & Hcalls & Hall).
    exists calls. split.
    + destruct (wake_loop _ _ _ w) as [[e|sent] w']; exact Hcalls.
    + destruct (build_packet_length s Hc) as (packet & Hp & Hlen).
      eapply List.Forall_impl; [| exact Hall].
      intros c Hcp. split; [exact Hcp |]. cbv beta in Hcp. congruence.
Qed.

Lemma validated_mac_is_canonical_witness :
  case_table_ok sample_upper_nonascii /\
  UStr.validate_mac sample_upper_nonascii
    ([160; 32] ++ UStr.codes_of "aa:bB:cc:Dd:ee:ff" ++ [10; 8232])
  = inr (UStr.codes_of "AA:BB:CC:DD:EE:FF") /\
  (exists s,
     UStr.upper sample_upper_nonascii (UStr.strip sample_ligature_mac) = UStr.codes_of s /\
     is_canonical_mac s = true) /\
  UStr.validate_mac sample_upper_nonascii (UStr.codes_of "AA-BB-CC-DD-EE-FF")
  = inl (ValueError "Invalid MAC address format. Use AA:BB:CC:DD:EE:FF") /\
  (exists row,
     devices (db (snd (add_device {| default_broadcasts := ["255.255.255.255"] |}
                         {| dc_name := "nas"; dc_mac := "AA:BB:CC:DD:EE:FF";
                            dc_ip := None; dc_broadcasts := None;
                            dc_shutdown_url := None |}
                         (start_world empty_db link_up))))
     = [row] /\
     d_mac row = "AA:BB:CC:DD:EE:FF") /\
  (exists calls,
     sendto_calls (snd (wake {| default_broadcasts := ["255.255.255.255"] |}
                          {| wr_mac := "AA:BB:CC:DD:EE:FF"; wr_broadcast := BNone |}
                          (start_world empty_db link_up)))
     = calls /\
     Forall (fun c => build_packet "AA:BB:CC:DD:EE:FF" = Some (tx_packet c) /\
                      length (tx_packet c) = 102%nat) calls).
Proof.
  destruct (validated_mac_is_canonical sample_upper_nonascii sample_case_table_ok)
    as (H1 & H2 & H3 & H4 & H5).
  split; [exact sample_case_table_ok |].
  split.
  { apply (H3 [160; 32] (UStr.codes_of "aa:bB:cc:Dd:ee:ff") [10; 8232]
              "AA:BB:CC:DD:EE:FF").
    - repeat (apply List.Forall_cons; [reflexivity |]). apply List.Forall_nil.
    - repeat (apply List.Forall_cons; [reflexivity |]). apply List.Forall_nil.
    - reflexivity.
    - vm_compute UStr.codes_of.
      repeat (constructor; [unfold same_letter; lia |]). constructor. }
  split.
  { destruct (proj1 (H1 sample_ligature_mac (UStr.codes_of "AA:BB:CC:DD:EE:FF"))
                eq_refl) as [_ (s & Hs & Hc)].
    exists s. split; [| exact Hc]. rewrite <- Hs. reflexivity. }
  split.
  { apply H2. intros s Hs E.
    apply (f_equal UStr.to_string) in E. rewrite to_string_codes_of in E.
    subst s. discriminate Hs. }
  split.
  - destruct (H4 "nas" sample_ligature_mac None None None _
                {| default_broadcasts := ["255.255.255.255"] |}
                (start_world empty_db link_up) eq_refl)
      as (_ & _ & row & Hrow & Hmac).
    exists row. split; [exact Hrow | exact Hmac].
  - destruct (H5 sample_ligature_mac BNone _
                {| default_broadcasts := ["255.255.255.255"] |}
                (start_world empty_db link_up) eq_refl)
      as (_ & _ & calls & Hcalls & Hall).
    exists calls. split; [exact Hcalls | exact Hall].
Defined.

(** *** Agreement with the validator over [string]s

    On ASCII text the validator over code points is the validator over
    [string]s, for any case table. *)

Lemma isspace_code (c : ascii) : PyStr.isspace c = UStr.isspace (UStr.code c).
Proof. ascii_cases c. Qed.

Lemma is_hex_char_code (c : ascii) : is_hex_char c = UStr.is_hex_char (UStr.code c).
Proof. ascii_cases c. Qed.

Lemma lstrip_codes (s : string) :
  UStr.codes_of (PyStr.lstrip s) = UStr.lstrip (UStr.codes_of s).
Proof.
  induction s as [|c r IH]; [reflexivity |].
  cbn [PyStr.lstrip UStr.codes_of UStr.lstrip]. rewrite <- isspace_code.
  destruct (PyStr.isspace c); [exact IH | reflexivity].
Qed.

Lemma rstrip_codes (s : string) :
  UStr.codes_of (PyStr.rstrip s) = UStr.rstrip (UStr.codes_of s).
Proof.
  induction s as [|c r IH]; [reflexivity |].
  cbn [PyStr.rstrip UStr.codes_of UStr.rstrip]. rewrite <- IH, <- isspace_code.
  destruct (PyStr.rstrip r); [destruct (PyStr.isspace c) |]; reflexivity.
Qed.

Lemma lstrip_isascii (s : string) :
  PyStr.isascii s = true -> PyStr.isascii (PyStr.lstrip s) = true.
Proof.
  induction s as [|c r IH]; [reflexivity |]. intros H.
  cbn [PyStr.lstrip]. destruct (PyStr.isspace c); [| exact H].
  cbn [PyStr.isascii] in H. apply andb_true_iff in H as [_ H]. exact (IH H).
Qed.

Lemma rstrip_isascii (s : string) :
  PyStr.isascii s = true -> PyStr.isascii (PyStr.rstrip s) = true.
Proof.
  induction s as [|c r IH]; [reflexivity |]. intros H.
  cbn [PyStr.isascii] in H. apply andb_true_iff in H as [Hc H].
  specialize (IH H). cbn [PyStr.rstrip].
  destruct (PyStr.rstrip r) as [|d r'].
  - destruct (PyStr.isspace c); [reflexivity |].
    cbn [PyStr.isascii]. rewrite Hc. reflexivity.
  - cbn [PyStr.isascii] in *. rewrite Hc. exact IH.
Qed.

Lemma upper_char_code (up : Z -> list Z) (c : ascii) :
  (UStr.code c <? 128) = true ->
  UStr.upper_char up (UStr.code c) = [UStr.code (PyStr.upper_char c)].
Proof. ascii_cases c. Qed.

Lemma upper_codes (up : Z -> list Z) (s : string) :
  PyStr.isascii s = true ->
  UStr.codes_of (PyStr.upper s) = UStr.upper up (UStr.codes_of s).
Proof.
  induction s as [|c r IH]; [reflexivity |]. intros H.
  cbn [PyStr.isascii] in H. apply andb_true_iff in H as [Hc H].
  cbn [PyStr.upper UStr.codes_of UStr.upper].
  rewrite (upper_char_code up c Hc), (IH H). reflexivity.
Qed.

Lemma re_hex2_codes (s : string) :
  UStr.re_hex2 (UStr.codes_of s) = option_map UStr.codes_of (re_hex2 s).
Proof.
  destruct s as [|a [|b r]]; try reflexivity.
  cbn [UStr.codes_of UStr.re_hex2 re_hex2]. rewrite <- !is_hex_char_code.
  destruct (is_hex_char a && is_hex_char b); reflexivity.
Qed.

Lemma re_group_codes (s : string) :
  UStr.re_group (UStr.codes_of s) = option_map UStr.codes_of (re_group s).
Proof.
  unfold UStr.re_group, re_group. rewrite re_hex2_codes.
  destruct (re_hex2 s) as [[|c r]|]; try reflexivity.
  cbn [option_map UStr.codes_of]. rewrite colon_code.
  destruct (UStr.code c =? 58); reflexivity.
Qed.

Lemma re_repeat_codes (n : nat) :
  forall s,
    UStr.re_repeat n UStr.re_group (UStr.codes_of s)
    = option_map UStr.codes_of (re_repeat n re_group s).
Proof.
  induction n as [|n IH]; intros s; [reflexivity |].
  cbn [UStr.re_repeat re_repeat]. rewrite re_group_codes.
  destruct (re_group s) as [r|]; [exact (IH r) | reflexivity].
Qed.

Lemma re_end_codes (s : string) : UStr.re_end (UStr.codes_of s) = re_end s.
Proof.
  destruct s as [|c [|d r]]; try reflexivity.
  cbn [UStr.codes_of UStr.re_end re_end].
  destruct (Ascii.eqb c "010") eqn:E.
  - apply Ascii.eqb_eq in E. subst c. reflexivity.
  - apply Z.eqb_neq. intros H.
    assert (c = "010"%char) as ->; [| rewrite Ascii.eqb_refl in E; discriminate].
    rewrite <- (chr_code c), H. reflexivity.
Qed.

Lemma MAC_REGEX_match_codes (s : string) :
  UStr.MAC_REGEX_match (UStr.codes_of s) = MAC_REGEX_match s.
Proof.
  unfold UStr.MAC_REGEX_match, MAC_REGEX_match. rewrite re_repeat_codes.
  destruct (re_repeat 5 re_group s) as [r|]; [| reflexivity].
  cbn [option_map]. rewrite re_hex2_codes.
  destruct (re_hex2 r) as [r'|]; [| reflexivity].
  cbn [option_map]. apply re_end_codes.
Qed.

Lemma validate_mac_ascii (up : Z -> list Z) (v : string) :
  PyStr.isascii v = true ->
  UStr.validate_mac up (UStr.codes_of v)
  = match validate_mac v with
    | inl e => inl e
    | inr m => inr (UStr.codes_of m)
    end.
Proof.
  intros H. unfold UStr.validate_mac, validate_mac, UStr.strip, PyStr.strip.
  rewrite <- lstrip_codes, <- rstrip_codes.
  rewrite <- (upper_codes up) by (apply rstrip_isascii, lstrip_isascii; exact H).
  rewrite MAC_REGEX_match_codes.
  destruct (MAC_REGEX_match _); reflexivity.
Qed.

Lemma WakeRequest_validate_ascii (up : Z -> list Z) (mac : string)
    (broadcast : RawBroadcast) :
  PyStr.isascii mac = true ->
  UStr.WakeRequest_validate up (UStr.codes_of mac) broadcast
  = WakeRequest_validate mac broadcast.
Proof.
  intros H. unfold UStr.WakeRequest_validate, WakeRequest_validate.
  rewrite (validate_mac_ascii up mac H).
  destruct (validate_mac mac); [reflexivity |].
  rewrite to_string_codes_of. reflexivity.
Qed.

Lemma DeviceCreate_validate_ascii (up : Z -> list Z) (name mac : string)
    (ip : option string) (broadcasts : option (list string))
    (shutdown_url : option string) :
  PyStr.isascii mac = true ->
  UStr.DeviceCreate_validate up name (UStr.codes_of mac) ip broadcasts shutdown_url
  = DeviceCreate_validate name mac ip broadcasts shutdown_url.
Proof.
  intros H. unfold UStr.DeviceCreate_validate, DeviceCreate_validate.
  rewrite (validate_mac_ascii up mac H).
  destruct (validate_mac mac); [reflexivity |].
  rewrite to_string_codes_of. reflexivity.
Qed.

(** * Further properties of the code *)

(** ** Strings: [strip], [upper], [lower] *)

Lemma upper_char_keeps_canonical (c : ascii) :
  is_upper_hex c = true \/ c = ":"%char ->
  PyStr.upper_char c = c /\ PyStr.isspace c = false.
Proof. intros [H| ->]; [revert H; ascii_cases c | split; reflexivity]. Qed.

Lemma canonical_pairs_chars (n : nat) :
  forall s, canonical_pairs n s = true ->
    all_chars (fun c => PyStr.upper_char c = c /\ PyStr.isspace c = false) s.
Proof.
  induction n as [|n IH]; intros s H;
    destruct s as [|a [|b r]]; try discriminate;
    cbn [canonical_pairs] in H;
    apply andb_true_iff in H as [Hab Hr];
    apply andb_true_iff in Hab as [Ha Hb];
    cbn [all_chars];
    (split; [apply upper_char_keeps_canonical; left; exact Ha |]);
    (split; [apply upper_char_keeps_canonical; left; exact Hb |]).
  - destruct r; [exact I | discriminate].
  - destruct r as [|c r]; [discriminate |].
    apply andb_true_iff in Hr as [Hc Hr]. apply Ascii.eqb_eq in Hc. subst c.
    cbn [all_chars]. split; [split; reflexivity | apply IH; exact Hr].
Qed.

Lemma upper_fixed (s : string) :
  all_chars (fun c => PyStr.upper_char c = c /\ PyStr.isspace c = false) s ->
  PyStr.upper s = s.
Proof.
  induction s as [|c r IH]; simpl; [reflexivity |].
  intros [[Hc _] Hr]. rewrite Hc, IH by exact Hr. reflexivity.
Qed.

Lemma rstrip_fixed (s : string) :
  all_chars (fun c => PyStr.upper_char c = c /\ PyStr.isspace c = false) s ->
  PyStr.rstrip s = s.
Proof.
  induction s as [|c r IH]; simpl; [reflexivity |].
  intros [[_ Hc] Hr]. rewrite IH by exact Hr. rewrite Hc.
  destruct r; reflexivity.
Qed.

Lemma strip_fixed (s : string) :
  all_chars (fun c => PyStr.upper_char c = c /\ PyStr.isspace c = false) s ->
  PyStr.strip s = s.
Proof.
  intros H. unfold PyStr.strip.
  assert (Hl : PyStr.lstrip s = s).
  { destruct s as [|c r]; [reflexivity |]. simpl. destruct H as [[_ ->] _]. reflexivity. }
  rewrite Hl. apply rstrip_fixed. exact H.
Qed.

(** X1. The strings the validator returns unchanged are exactly the canonical
    MAC addresses, so validating an address that was already validated
    gives it back. *)
Theorem validate_mac_fixed_points (v m : string) :
  (validate_mac m = inr m <-> is_canonical_mac m = true) /\
  (validate_mac v = inr m -> validate_mac m = inr m).
Proof.
  assert (Hfix : forall x, is_canonical_mac x = true -> validate_mac x = inr x).
  { intros x Hx. apply validate_mac_spec.
    pose proof (canonical_pairs_chars 5 x Hx) as Hc.
    rewrite (strip_fixed x Hc), (upper_fixed x Hc). split; [reflexivity | exact Hx]. }
  split.
  - split; [intros H; apply validate_mac_spec in H; apply H | apply Hfix].
  - intros H. apply validate_mac_spec in H as [_ Hm]. apply Hfix. exact Hm.
Qed.

Lemma validate_mac_fixed_points_witness :
  validate_mac "AA:BB:CC:DD:EE:FF" = inr "AA:BB:CC:DD:EE:FF".
Proof.
  exact (proj2 (validate_mac_fixed_points " aa:bb:cc:dd:ee:ff" "AA:BB:CC:DD:EE:FF") eq_refl).
Defined.

Lemma lstrip_head (s : string) :
  PyStr.lstrip s = EmptyString \/
  exists c r, PyStr.lstrip s = String c r /\ PyStr.isspace c = false.
Proof.
  induction s as [|c r IH]; simpl; [left; reflexivity |].
  destruct (PyStr.isspace c) eqn:Hc; [exact IH | right; exists c, r; split; auto].
Qed.

Lemma rstrip_idempotent (s : string) : PyStr.rstrip (PyStr.rstrip s) = PyStr.rstrip s.
Proof.
  induction s as [|c r IH]; [reflexivity |].
  cbn [PyStr.rstrip]. destruct (PyStr.rstrip r) as [|b r'] eqn:Hr.
  - destruct (PyStr.isspace c) eqn:Hc; [reflexivity |].
    cbn [PyStr.rstrip]. rewrite Hc. reflexivity.
  - change (PyStr.rstrip (String c (String b r')))
      with (match PyStr.rstrip (String b r') with
            | EmptyString => if PyStr.isspace c then EmptyString else String c EmptyString
            | x => String c x
            end).
    rewrite IH. reflexivity.
Qed.

Lemma rstrip_keeps_head (c : ascii) (r : string) :
  PyStr.isspace c = false -> exists r', PyStr.rstrip (String c r) = String c r'.
Proof.
  intros Hc. cbn [PyStr.rstrip]. destruct (PyStr.rstrip r) as [|b r'].
  - rewrite Hc. eexists; reflexivity.
  - eexists; reflexivity.
Qed.

Lemma strip_idempotent (s : string) : PyStr.strip (PyStr.strip s) = PyStr.strip s.
Proof.
  unfold PyStr.strip.
  destruct (lstrip_head s) as [->|(c & r & -> & Hc)]; [reflexivity |].
  destruct (rstrip_keeps_head c r Hc) as [r' Hr'].
  rewrite Hr' at 1. cbn [PyStr.lstrip]. rewrite Hc, <- Hr'.
  apply rstrip_idempotent.
Qed.

Lemma upper_lstrip (s : string) :
  PyStr.lstrip (PyStr.upper s) = PyStr.upper (PyStr.lstrip s).
Proof.
  induction s as [|c r IH]; [reflexivity |].
  cbn [PyStr.upper PyStr.lstrip]. rewrite upper_char_isspace.
  destruct (PyStr.isspace c); [exact IH | reflexivity].
Qed.

Lemma upper_rstrip (s : string) :
  PyStr.rstrip (PyStr.upper s) = PyStr.upper (PyStr.rstrip s).
Proof.
  induction s as [|c r IH]; [reflexivity |].
  cbn [PyStr.upper PyStr.rstrip]. rewrite IH, upper_char_isspace.
  destruct (PyStr.rstrip r); cbn [PyStr.upper]; [destruct (PyStr.isspace c) |]; reflexivity.
Qed.

Lemma upper_strip (s : string) :
  PyStr.strip (PyStr.upper s) = PyStr.upper (PyStr.strip s).
Proof. unfold PyStr.strip. rewrite upper_lstrip, upper_rstrip. reflexivity. Qed.

Lemma lower_upper_char (c : ascii) :
  PyStr.lower_char (PyStr.upper_char c) = PyStr.lower_char c.
Proof. ascii_cases c. Qed.

Lemma lower_upper (s : string) : PyStr.lower (PyStr.upper s) = PyStr.lower s.
Proof.
  induction s as [|c r IH]; [reflexivity |].
  cbn [PyStr.upper PyStr.lower]. rewrite lower_upper_char, IH. reflexivity.
Qed.


(** ** [normalize_mac] and the case of the letters *)

Lemma upper_char_decoding (c : ascii) :
  Ascii.eqb (PyStr.upper_char c) ":" = Ascii.eqb c ":" /\
  Ascii.eqb (PyStr.upper_char c) "-" = Ascii.eqb c "-" /\
  PyStr.Py_ISSPACE (PyStr.upper_char c) = PyStr.Py_ISSPACE c /\
  PyStr.digit_value (PyStr.upper_char c) = PyStr.digit_value c.
Proof. ascii_cases c. Qed.

Lemma lower_char_decoding (c : ascii) :
  Ascii.eqb (PyStr.lower_char c) ":" = Ascii.eqb c ":" /\
  Ascii.eqb (PyStr.lower_char c) "-" = Ascii.eqb c "-" /\
  PyStr.Py_ISSPACE (PyStr.lower_char c) = PyStr.Py_ISSPACE c /\
  PyStr.digit_value (PyStr.lower_char c) = PyStr.digit_value c.
Proof. ascii_cases c. Qed.

Section CaseMap.

(** A map on characters that changes neither what is a separator, nor what
    is white space, nor the value of a digit. *)
Variable f : ascii -> ascii.
Hypothesis f_decoding : forall c,
  Ascii.eqb (f c) ":" = Ascii.eqb c ":" /\
  Ascii.eqb (f c) "-" = Ascii.eqb c "-" /\
  PyStr.Py_ISSPACE (f c) = PyStr.Py_ISSPACE c /\
  PyStr.digit_value (f c) = PyStr.digit_value c.

Lemma remove_colon_map (s : string) :
  PyStr.remove_char ":" (map_chars f s) = map_chars f (PyStr.remove_char ":" s).
Proof.
  induction s as [|c r IH]; [reflexivity |].
  cbn [map_chars PyStr.remove_char].
  destruct (f_decoding c) as (-> & _). destruct (Ascii.eqb c ":"); [exact IH |].
  cbn [map_chars]. rewrite IH. reflexivity.
Qed.

Lemma remove_dash_map (s : string) :
  PyStr.remove_char "-" (map_chars f s) = map_chars f (PyStr.remove_char "-" s).
Proof.
  induction s as [|c r IH]; [reflexivity |].
  cbn [map_chars PyStr.remove_char].
  destruct (f_decoding c) as (_ & -> & _). destruct (Ascii.eqb c "-"); [exact IH |].
  cbn [map_chars]. rewrite IH. reflexivity.
Qed.

Lemma fromhex_map : forall s, PyStr.fromhex (map_chars f s) = PyStr.fromhex s.
Proof.
  fix IH 1. intros s.
  destruct s as [|c rest]; [reflexivity |].
  cbn [map_chars PyStr.fromhex].
  destruct (f_decoding c) as (_ & _ & -> & ->).
  destruct (PyStr.Py_ISSPACE c); [apply IH |].
  destruct (PyStr.digit_value c); [| reflexivity].
  destruct rest as [|d rest']; [reflexivity |].
  cbn [map_chars].
  destruct (f_decoding d) as (_ & _ & _ & ->).
  destruct (PyStr.digit_value d); [| reflexivity].
  rewrite IH. reflexivity.
Qed.

Lemma normalize_mac_map (s : string) : normalize_mac (map_chars f s) = normalize_mac s.
Proof. unfold normalize_mac. rewrite remove_colon_map, remove_dash_map. apply fromhex_map. Qed.

End CaseMap.

Lemma map_chars_upper (s : string) : map_chars PyStr.upper_char s = PyStr.upper s.
Proof. induction s as [|c r IH]; [reflexivity | simpl; rewrite IH; reflexivity]. Qed.

Lemma map_chars_lower (s : string) : map_chars PyStr.lower_char s = PyStr.lower s.
Proof. induction s as [|c r IH]; [reflexivity | simpl; rewrite IH; reflexivity]. Qed.

(** X2. On an ASCII address, where [PyStr.upper] and [PyStr.lower] are
    [str.upper] and [str.lower], [normalize_mac] does not depend on the case
    of the letters: the address and its uppercased or lowercased form decode
    to the same bytes, or all fail to decode. (Outside ASCII this fails in
    Python: the ligature U+FB00 does not decode, its [upper()] ["FF"]
    does.) *)
Theorem normalize_mac_case_insensitive (mac : string) :
  PyStr.isascii mac = true ->
  normalize_mac (PyStr.upper mac) = normalize_mac mac /\
  normalize_mac (PyStr.lower mac) = normalize_mac mac.
Proof.
  intros _. split.
  - rewrite <- map_chars_upper. apply normalize_mac_map. exact upper_char_decoding.
  - rewrite <- map_chars_lower. apply normalize_mac_map. exact lower_char_decoding.
Qed.

Lemma normalize_mac_case_insensitive_witness :
  PyStr.isascii "aa:BB-cc:DD-ee:FF" = true /\
  normalize_mac "AA:BB-CC:DD-EE:FF" = Some [170; 187; 204; 221; 238; 255] /\
  normalize_mac "aa:bb-cc:dd-ee:ff" = Some [170; 187; 204; 221; 238; 255].
Proof.
  split; [reflexivity |].
  destruct (normalize_mac_case_insensitive "aa:BB-cc:DD-ee:FF" eq_refl) as [Hu Hl].
  split; [exact Hu | exact Hl].
Defined.

(** ** app/config.py *)

Lemma split_nonempty (c : ascii) (s : string) : PyStr.split c s <> [].
Proof.
  destruct s as [|d r]; simpl; [discriminate |].
  destruct (Ascii.eqb d c); [discriminate |].
  destruct (PyStr.split c r); discriminate.
Qed.

(** X3. Whatever the environment holds, the default broadcast list of the
    loaded settings is not empty, none of its entries is empty, and each
    entry is free of white space at both ends. *)
Theorem load_settings_broadcasts (py_int : string -> option Z)
    (env : string -> option string) (s : Config.Settings) :
  Config.load_settings py_int env = Some s ->
  Config.default_broadcasts s <> [] /\
  Forall (fun b => b <> "" /\ PyStr.strip b = b) (Config.default_broadcasts s).
Proof.
  unfold Config.load_settings.
  destruct (py_int _); [| discriminate].
  destruct (py_int _); [| discriminate].
  destruct (py_int _); [| discriminate].
  intros H. injection H as <-. cbn [Config.default_broadcasts].
  unfold Config.load_broadcasts.
  set (raw := PyStr.split "," _).
  assert (Hall : Forall (fun b => b <> "" /\ PyStr.strip b = b)
                   (List.map PyStr.strip
                      (List.filter (fun x => negb (String.eqb (PyStr.strip x) "")) raw))).
  { clearbody raw. induction raw as [|x raw IH]; [constructor |].
    cbn [List.filter]. destruct (String.eqb_spec (PyStr.strip x) "") as [E|N];
      cbn [negb List.map]; [exact IH |].
    constructor; [split; [exact N | apply strip_idempotent] | exact IH]. }
  destruct (List.map PyStr.strip _) as [|b bs] eqn:Hm.
  - split; [discriminate |].
    constructor; [split; [discriminate | reflexivity] | constructor].
  - split; [discriminate | exact Hall].
Qed.

Lemma load_settings_broadcasts_witness :
  let env := fun name => if String.eqb name "DEFAULT_BROADCAST"
                         then Some " 10.0.0.255 , ,192.168.1.255" else None in
  exists s,
    Config.load_settings (fun _ => Some 60) env = Some s /\
    Config.default_broadcasts s = ["10.0.0.255"; "192.168.1.255"] /\
    Config.default_broadcasts s <> [] /\
    Forall (fun b => b <> "" /\ PyStr.strip b = b) (Config.default_broadcasts s).
Proof.
  intros env. eexists. split; [reflexivity |]. split; [reflexivity |].
  exact (load_settings_broadcasts (fun _ => Some 60) env _ eq_refl).
Defined.

Example load_broadcasts_blank :
  Config.load_broadcasts (fun _ => Some " , ,") = ["255.255.255.255"].
Proof. reflexivity. Qed.

(** X4. [parse_bool] on a value that is set ignores the default and the
    white space around the value; on an ASCII value, where [PyStr.upper] is
    [str.upper], it also ignores the case of the letters. (Outside ASCII
    the last fails in Python: ["ye" + U+017F] is false, its [upper()]
    ["YES"] is true.) *)
Theorem parse_bool_insensitive (v : string) (d d' : bool) :
  Config.parse_bool (Some v) d = Config.parse_bool (Some v) d' /\
  Config.parse_bool (Some (PyStr.strip v)) d = Config.parse_bool (Some v) d /\
  (PyStr.isascii v = true ->
   Config.parse_bool (Some (PyStr.upper v)) d = Config.parse_bool (Some v) d).
Proof.
  unfold Config.parse_bool. split; [reflexivity |]. split.
  - rewrite strip_idempotent. reflexivity.
  - intros _. rewrite upper_strip, lower_upper. reflexivity.
Qed.

Lemma parse_bool_insensitive_witness :
  Config.parse_bool (Some " Yes ") false = Config.parse_bool (Some " Yes ") true /\
  Config.parse_bool (Some "Yes") false = Config.parse_bool (Some " Yes ") false /\
  Config.parse_bool (Some " YES ") false = Config.parse_bool (Some " Yes ") false.
Proof.
  destruct (parse_bool_insensitive " Yes " false true) as (H1 & H2 & H3).
  split; [exact H1 |]. split; [exact H2 | exact (H3 eq_refl)].
Defined.

Example parse_bool_samples :
  Config.parse_bool (Some " YES ") false = true /\
  Config.parse_bool (Some "enabled") true = false /\
  Config.parse_bool None true = true.
Proof. repeat split. Qed.


(** ** app/rate_limit.py *)

Section RateLimitFacts.

Variable Stamp : Type.
Variable time_lt : Stamp -> Stamp -> bool.
Variable time_minus : Stamp -> Z -> Stamp.

Local Abbreviation middleware := (rate_limit_middleware Stamp time_lt time_minus).
Local Abbreviation run := (rate_limit_run Stamp time_lt time_minus).

Lemma popleft_while_length (ws : Stamp) (bucket : list Stamp) :
  (length (popleft_while Stamp time_lt ws bucket) <= length bucket)%nat.
Proof.
  induction bucket as [|t rest IH]; simpl; [lia |].
  destruct (time_lt t ws); simpl; lia.
Qed.

Lemma middleware_keeps_bound (settings : Config.Settings) (client : option string)
    (now : Stamp) (d : gmap string (list Stamp)) :
  0 <= Config.rate_limit_requests settings ->
  buckets_within (Config.rate_limit_requests settings) d ->
  buckets_within (Config.rate_limit_requests settings)
    (snd (middleware settings client now d)).
Proof.
  intros Hpos Hd. unfold rate_limit_middleware.
  destruct (Config.enable_rate_limit settings); cbn [negb]; [| exact Hd].
  set (ip := match client with Some h => h | None => "unknown" end).
  set (ws := time_minus now _).
  set (old := match d !! ip with Some b => b | None => [] end).
  assert (Hold : Z.of_nat (length old) <= Config.rate_limit_requests settings).
  { unfold old. destruct (d !! ip) as [b|] eqn:Hb; [exact (Hd ip b Hb) | simpl; lia]. }
  pose proof (popleft_while_length ws old) as Hlen.
  destruct (Z.geb_spec (Z.of_nat (length (popleft_while Stamp time_lt ws old)))
              (Config.rate_limit_requests settings)) as [Hge|Hlt];
    cbn [snd]; intros ip' b Hb;
    (destruct (decide (ip = ip')) as [<-|Hne];
     [rewrite lookup_insert_eq in Hb; injection Hb as <-
     | rewrite lookup_insert_ne in Hb by exact Hne; exact (Hd ip' b Hb)]).
  - lia.
  - rewrite length_app. simpl. lia.
Qed.

(** X5. The dictionary never holds more than [rate_limit_requests] stamps for
    one client: from the empty dictionary, after any sequence of requests
    with any clock readings, every bucket is within the limit (for a limit
    that is not negative). *)
Theorem rate_limit_buckets_bounded (settings : Config.Settings)
    (requests : list (option string * Stamp)) :
  0 <= Config.rate_limit_requests settings ->
  forall ip b,
    snd (run settings requests ∅) !! ip = Some b ->
    Z.of_nat (length b) <= Config.rate_limit_requests settings.
Proof.
  intros Hpos.
  assert (Hgen : forall d, buckets_within (Config.rate_limit_requests settings) d ->
                 buckets_within (Config.rate_limit_requests settings)
                   (snd (run settings requests d))).
  { induction requests as [|[client now] rest IH]; intros d Hd; [exact Hd |].
    cbn [rate_limit_run].
    pose proof (middleware_keeps_bound settings client now d Hpos Hd) as Hstep.
    destruct (middleware settings client now d) as [o d1]. cbn [snd] in Hstep.
    specialize (IH d1 Hstep).
    destruct (run settings rest d1) as [os d2]. exact IH. }
  apply Hgen. intros ip b Hb. rewrite lookup_empty in Hb. discriminate Hb.
Qed.

(** X6. With rate limiting on, a window that converts to a [float] (so that
    [now - rate_limit_window_seconds] is defined) and a limit of zero or
    less, every request is answered 429 and none is handed on. *)
Theorem rate_limit_nonpositive_limit (settings : Config.Settings)
    (client : option string) (now : Stamp) (d : gmap string (list Stamp)) :
  Config.enable_rate_limit settings = true ->
  fits_float (Config.rate_limit_window_seconds settings) = true ->
  Config.rate_limit_requests settings <= 0 ->
  exists r, fst (middleware settings client now d) = Respond r /\ status_code r = 429.
Proof.
  intros He _ Hl. unfold rate_limit_middleware. rewrite He. cbn [negb].
  match goal with |- context [Z.of_nat ?n >=? ?l] => destruct (Z.geb_spec (Z.of_nat n) l) end;
    [| lia].
  eexists. split; reflexivity.
Qed.

(** X7. A request changes the bucket of its own client only, and whether it is
    handed on depends on that bucket alone. *)
Theorem rate_limit_clients_isolated (settings : Config.Settings)
    (client : option string) (now : Stamp) (d d' : gmap string (list Stamp)) :
  let ip := match client with Some h => h | None => "unknown" end in
  (forall other, other <> ip ->
     snd (middleware settings client now d) !! other = d !! other) /\
  (d !! ip = d' !! ip ->
   fst (middleware settings client now d) = fst (middleware settings client now d')).
Proof.
  intros ip. unfold rate_limit_middleware. fold ip.
  destruct (Config.enable_rate_limit settings); cbn [negb]; [| split; reflexivity].
  split.
  - intros other Hne.
    match goal with |- context [if ?c then _ else _] => destruct c end;
      cbn [snd]; apply lookup_insert_ne; congruence.
  - intros ->.
    match goal with |- context [if ?c then _ else _] => destruct c end; reflexivity.
Qed.

Lemma run_same_client_burst (settings : Config.Settings) (client : option string) :
  Config.enable_rate_limit settings = true ->
  forall (stamps : list Stamp) (d : gmap string (list Stamp)),
    let ip := match client with Some h => h | None => "unknown" end in
    Z.of_nat (length (match d !! ip with Some b => b | None => [] end))
    + Z.of_nat (length stamps) <= Config.rate_limit_requests settings ->
    Forall (fun o => o = CallNext)
      (fst (run settings (List.map (fun t => (client, t)) stamps) d)).
Proof.
  intros He stamps. induction stamps as [|t rest IH]; intros d ip Hlen; [constructor |].
  cbn [List.map rate_limit_run]. unfold rate_limit_middleware. rewrite He. cbn [negb].
  fold ip.
  set (ws := time_minus t _).
  set (old := match d !! ip with Some b => b | None => [] end) in *.
  pose proof (popleft_while_length ws old) as Hp.
  cbn [length] in Hlen.
  destruct (Z.geb_spec (Z.of_nat (length (popleft_while Stamp time_lt ws old)))
              (Config.rate_limit_requests settings)) as [Hge|Hlt]; [lia |].
  specialize (IH (<[ip := popleft_while Stamp time_lt ws old ++ [t]]> d)).
  cbn zeta in IH. fold ip in IH. rewrite lookup_insert_eq in IH.
  rewrite length_app in IH. cbn [length] in IH.
  destruct (run settings _ _) as [os d2]. cbn [fst] in *.
  constructor; [reflexivity | apply IH; lia].
Qed.

(** X8. With rate limiting on and a window that converts to a [float] (so
    that [now - rate_limit_window_seconds] is defined), a client without a
    bucket gets its first [rate_limit_requests] requests handed on, whatever
    the clock readings are. *)
Theorem rate_limit_allows_burst (settings : Config.Settings) (client : option string)
    (stamps : list Stamp) :
  Config.enable_rate_limit settings = true ->
  fits_float (Config.rate_limit_window_seconds settings) = true ->
  Z.of_nat (length stamps) <= Config.rate_limit_requests settings ->
  Forall (fun o => o = CallNext)
    (fst (run settings (List.map (fun t => (client, t)) stamps) ∅)).
Proof.
  intros He _ Hlen. apply (run_same_client_burst settings client He stamps ∅).
  rewrite lookup_empty. simpl. lia.
Qed.

End RateLimitFacts.


Lemma rate_limit_buckets_bounded_witness :
  let d := snd (rate_limit_run Z Z.ltb Z.sub (settings_with 2 "admin" "s3cret")
                  [(Some "10.0.0.1", 100); (Some "10.0.0.1", 101); (Some "10.0.0.1", 102)]
                  ∅) in
  d !! "10.0.0.1" = Some [100; 101] /\ Z.of_nat (length [100; 101]) <= 2.
Proof.
  intros d.
  assert (H : d !! "10.0.0.1" = Some [100; 101]) by (vm_compute; reflexivity).
  split; [exact H |].
  refine (rate_limit_buckets_bounded Z Z.ltb Z.sub (settings_with 2 "admin" "s3cret")
            _ _ "10.0.0.1" [100; 101] H).
  simpl. lia.
Defined.

Lemma rate_limit_nonpositive_limit_witness :
  exists r,
    fst (rate_limit_middleware Z Z.ltb Z.sub (settings_with 0 "admin" "s3cret")
           (Some "10.0.0.1") 100 ∅) = Respond r /\ status_code r = 429.
Proof.
  apply (rate_limit_nonpositive_limit Z Z.ltb Z.sub (settings_with 0 "admin" "s3cret")
           (Some "10.0.0.1") 100 ∅); [reflexivity | reflexivity | simpl; lia].
Defined.

Lemma rate_limit_allows_burst_witness :
  Forall (fun o => o = CallNext)
    (fst (rate_limit_run Z Z.ltb Z.sub (settings_with 2 "admin" "s3cret")
            (List.map (fun t => (None, t)) [500; 3]) ∅)).
Proof.
  apply (rate_limit_allows_burst Z Z.ltb Z.sub (settings_with 2 "admin" "s3cret") None
           [500; 3]); [reflexivity | reflexivity | simpl; lia].
Defined.

Example rate_limit_third_request_rejected :
  fst (rate_limit_run Z Z.ltb Z.sub (settings_with 2 "admin" "s3cret")
         [(Some "10.0.0.1", 100); (Some "10.0.0.1", 101); (Some "10.0.0.1", 102);
          (Some "10.0.0.2", 102); (Some "10.0.0.1", 161)] ∅)
  = [CallNext; CallNext;
     Respond {| status_code := 429; www_authenticate := false;
                content_message := "Rate limit exceeded"; content_data := Some (2, 60) |};
     CallNext; CallNext].
Proof. vm_compute. reflexivity. Qed.


(** ** app/security.py *)

Lemma split1_cases (c : ascii) (s : string) :
  (has_char c s = false /\ PyStr.split1 c s = [s]) \/
  (exists u p, s = u +:+ String c p /\ has_char c u = false /\ PyStr.split1 c s = [u; p]).
Proof.
  induction s as [|d r IH]; [left; split; reflexivity |].
  cbn [PyStr.split1 has_char].
  destruct (Ascii.eqb_spec d c) as [->|Hne]; cbn [orb].
  - right. exists EmptyString, r. repeat split; reflexivity.
  - destruct IH as [[Hno ->]|(u & p & -> & Hno & ->)].
    + left. split; [exact Hno | reflexivity].
    + right. exists (String d u), p. cbn [has_char].
      apply Ascii.eqb_neq in Hne. rewrite Hne, Hno. repeat split; reflexivity.
Qed.

Lemma split1_append (c : ascii) (u p : string) :
  has_char c u = false -> PyStr.split1 c (u +:+ String c p) = [u; p].
Proof.
  induction u as [|d u IH]; cbn [has_char]; intros H.
  - simpl. rewrite Ascii.eqb_refl. reflexivity.
  - apply orb_false_iff in H as [Hd Hu]. simpl. rewrite Hd.
    change (PyStr.split1 c (u +:+ String c p)) with (PyStr.split1 c (u +:+ String c p)).
    rewrite (IH Hu). reflexivity.
Qed.

Lemma prefix_append (p s : string) :
  String.prefix p s = true -> exists r, s = p +:+ r.
Proof.
  revert s. induction p as [|a p IH]; intros s H; [exists s; reflexivity |].
  destruct s as [|b s]; [discriminate |]. simpl in H.
  destruct (ascii_dec a b) as [<-|]; [| discriminate].
  destruct (IH s H) as [r ->]. exists r. reflexivity.
Qed.

Lemma prefix_of_append (p r : string) : String.prefix p (p +:+ r) = true.
Proof.
  induction p as [|a p IH]; [destruct r; reflexivity |].
  simpl. destruct (ascii_dec a a); [exact IH | congruence].
Qed.

Section SecurityFacts.

Variable b64decode_utf8 : string -> option string.

Local Abbreviation middleware := (auth_middleware b64decode_utf8).

(** What has to hold for the middleware, with auth on, to reach the two
    comparisons of the credentials. *)
Lemma auth_reaches_compare (settings : Config.Settings) (h : option string) (o : Outcome) :
  Config.enable_auth settings = true ->
  middleware settings h = o ->
  (exists r, o = Respond r) \/
  (Config.auth_user settings <> "" /\ Config.auth_pass settings <> "" /\
   exists enc u p,
     h = Some ("Basic " +:+ enc) /\ b64decode_utf8 enc = Some (u +:+ String ":" p) /\
     has_char ":" u = false /\
     o = match compare_digest u (Config.auth_user settings) with
         | None => RaiseTypeError
         | Some user_ok =>
             match compare_digest p (Config.auth_pass settings) with
             | None => RaiseTypeError
             | Some pass_ok =>
                 if negb (user_ok && pass_ok)
                 then unauthorized "Invalid credentials" else CallNext
             end
         end).
Proof.
  intros He <-. unfold auth_middleware. rewrite He. cbn [negb].
  destruct (String.eqb_spec (Config.auth_user settings) "") as [|Hu];
    [left; eexists; reflexivity |].
  destruct (String.eqb_spec (Config.auth_pass settings) "") as [|Hp];
    [left; eexists; reflexivity |].
  cbn [orb].
  destruct (String.prefix "Basic " match h with Some x => x | None => "" end) eqn:Hpre;
    cbn [negb]; [| left; eexists; reflexivity].
  destruct (prefix_append _ _ Hpre) as [enc Henc].
  destruct h as [hv|]; [| discriminate Henc]. subst hv.
  change (PyStr.split1 " " ("Basic " +:+ enc)) with ["Basic"; enc].
  cbv beta iota.
  destruct (b64decode_utf8 enc) as [raw|] eqn:Hraw; [| left; eexists; reflexivity].
  destruct (split1_cases ":" raw) as [[_ ->]|(u & p & -> & Hno & ->)];
    [left; eexists; reflexivity |].
  right. split; [exact Hu |]. split; [exact Hp |].
  exists enc, u, p. repeat split; try reflexivity; assumption.
Qed.

(** X10. With auth on, a request is handed on only if both credentials are
    configured and its header is ["Basic "] followed by text that decodes
    to the configured user, a colon and the configured password. *)
Theorem auth_passes_only_configured_credentials (settings : Config.Settings)
    (h : option string) :
  Config.enable_auth settings = true ->
  middleware settings h = CallNext ->
  Config.auth_user settings <> "" /\ Config.auth_pass settings <> "" /\
  exists enc,
    h = Some ("Basic " +:+ enc) /\
    b64decode_utf8 enc
    = Some (Config.auth_user settings +:+ String ":" (Config.auth_pass settings)) /\
    has_char ":" (Config.auth_user settings) = false.
Proof.
  intros He Hn.
  destruct (auth_reaches_compare settings h CallNext He Hn)
    as [[r Hr]|(Hu & Hp & enc & u & p & -> & Hdec & Hno & Ho)]; [discriminate Hr |].
  split; [exact Hu |]. split; [exact Hp |].
  exists enc. split; [reflexivity |].
  unfold compare_digest in Ho.
  destruct (PyStr.isascii u && PyStr.isascii (Config.auth_user settings));
    [| discriminate Ho].
  destruct (PyStr.isascii p && PyStr.isascii (Config.auth_pass settings));
    [| discriminate Ho].
  destruct (String.eqb_spec u (Config.auth_user settings)) as [<-|]; [| discriminate Ho].
  destruct (String.eqb_spec p (Config.auth_pass settings)) as [<-|]; [| discriminate Ho].
  split; [exact Hdec | exact Hno].
Qed.

(** X11. With auth on and ASCII credentials configured, the user name holding no
    colon, a header that encodes exactly these credentials is handed on. *)
Theorem auth_accepts_configured_credentials (settings : Config.Settings) (enc : string) :
  Config.enable_auth settings = true ->
  Config.auth_user settings <> "" ->
  Config.auth_pass settings <> "" ->
  PyStr.isascii (Config.auth_user settings) = true ->
  PyStr.isascii (Config.auth_pass settings) = true ->
  has_char ":" (Config.auth_user settings) = false ->
  b64decode_utf8 enc
  = Some (Config.auth_user settings +:+ String ":" (Config.auth_pass settings)) ->
  middleware settings (Some ("Basic " +:+ enc)) = CallNext.
Proof.
  intros He Hu Hp Au Ap Hno Hdec. unfold auth_middleware. rewrite He. cbn [negb].
  destruct (String.eqb_spec (Config.auth_user settings) ""); [contradiction |].
  destruct (String.eqb_spec (Config.auth_pass settings) ""); [contradiction |].
  cbn [orb]. rewrite prefix_of_append. cbn [negb].
  change (PyStr.split1 " " ("Basic " +:+ enc)) with ["Basic"; enc].
  cbv beta iota.
  rewrite Hdec, (split1_append ":" _ _ Hno).
  unfold compare_digest. rewrite Au, Ap, !String.eqb_refl. reflexivity.
Qed.

(** X12. With auth on and a colon in the configured user name, no request is
    ever handed on: the user name of a request ends at its first colon. *)
Theorem auth_user_with_colon_locks_out (settings : Config.Settings) (h : option string) :
  Config.enable_auth settings = true ->
  has_char ":" (Config.auth_user settings) = true ->
  middleware settings h <> CallNext.
Proof.
  intros He Hc Hn.
  destruct (auth_reaches_compare settings h CallNext He Hn)
    as [[r Hr]|(_ & _ & enc & u & p & _ & _ & Hno & Ho)]; [discriminate Hr |].
  unfold compare_digest in Ho.
  destruct (PyStr.isascii u && PyStr.isascii (Config.auth_user settings));
    [| discriminate Ho].
  destruct (PyStr.isascii p && PyStr.isascii (Config.auth_pass settings));
    [| discriminate Ho].
  destruct (String.eqb_spec u (Config.auth_user settings)) as [E|]; [| discriminate Ho].
  rewrite <- E in Hc. congruence.
Qed.

(** X13. With auth on and both credentials configured, a well-formed header
    whose user name is not ASCII is not answered 401: the comparison raises
    [TypeError], which the middleware does not catch. *)
Theorem auth_non_ascii_user_raises (settings : Config.Settings) (enc u p : string) :
  Config.enable_auth settings = true ->
  Config.auth_user settings <> "" ->
  Config.auth_pass settings <> "" ->
  b64decode_utf8 enc = Some (u +:+ String ":" p) ->
  has_char ":" u = false ->
  PyStr.isascii u = false ->
  middleware settings (Some ("Basic " +:+ enc)) = RaiseTypeError.
Proof.
  intros He Hu Hp Hdec Hno Hna. unfold auth_middleware. rewrite He. cbn [negb].
  destruct (String.eqb_spec (Config.auth_user settings) ""); [contradiction |].
  destruct (String.eqb_spec (Config.auth_pass settings) ""); [contradiction |].
  cbn [orb]. rewrite prefix_of_append. cbn [negb].
  change (PyStr.split1 " " ("Basic " +:+ enc)) with ["Basic"; enc].
  cbv beta iota.
  rewrite Hdec, (split1_append ":" _ _ Hno).
  unfold compare_digest. rewrite Hna. reflexivity.
Qed.

End SecurityFacts.


Lemma auth_accepts_configured_credentials_witness :
  auth_middleware sample_b64decode_utf8 (settings_with 60 "admin" "s3cret")
    (Some "Basic YWRtaW46czNjcmV0") = CallNext.
Proof.
  apply (auth_accepts_configured_credentials sample_b64decode_utf8
           (settings_with 60 "admin" "s3cret") "YWRtaW46czNjcmV0");
    try reflexivity; discriminate.
Defined.

Lemma auth_passes_only_configured_credentials_witness :
  exists enc,
    Some "Basic YWRtaW46czNjcmV0" = Some ("Basic " +:+ enc) /\
    sample_b64decode_utf8 enc = Some "admin:s3cret".
Proof.
  destruct (auth_passes_only_configured_credentials sample_b64decode_utf8
              (settings_with 60 "admin" "s3cret") (Some "Basic YWRtaW46czNjcmV0")
              eq_refl eq_refl) as (_ & _ & enc & H1 & H2 & _).
  exists enc. split; [exact H1 | exact H2].
Defined.

Lemma auth_user_with_colon_locks_out_witness :
  auth_middleware sample_b64decode_utf8 (settings_with 60 "ad:min" "s3cret")
    (Some "Basic YWQ6bWluOnMzY3JldA==") <> CallNext.
Proof.
  apply (auth_user_with_colon_locks_out sample_b64decode_utf8
           (settings_with 60 "ad:min" "s3cret")); reflexivity.
Defined.

Lemma auth_non_ascii_user_raises_witness :
  auth_middleware sample_b64decode_utf8 (settings_with 60 "admin" "s3cret")
    (Some "Basic w6l2ZTpwdw==") = RaiseTypeError.
Proof.
  apply (auth_non_ascii_user_raises sample_b64decode_utf8
           (settings_with 60 "admin" "s3cret") "w6l2ZTpwdw=="
           (String (ascii_of_N 233) "ve") "pw");
    try reflexivity; discriminate.
Defined.

Example auth_samples :
  auth_middleware sample_b64decode_utf8 (settings_with 60 "admin" "s3cret") None
  = unauthorized "Authentication required" /\
  auth_middleware sample_b64decode_utf8 (settings_with 60 "admin" "s3cret")
    (Some "Basic !!!") = unauthorized "Invalid auth header" /\
  auth_middleware sample_b64decode_utf8 (settings_with 60 "admin" "other")
    (Some "Basic YWRtaW46czNjcmV0") = unauthorized "Invalid credentials" /\
  status_code
    match auth_middleware sample_b64decode_utf8 (settings_with 60 "admin" "")
            (Some "Basic YWRtaW46czNjcmV0") with
    | Respond r => r
    | _ => {| status_code := 0; www_authenticate := false;
              content_message := ""; content_data := None |}
    end = 500.
Proof. repeat split. Qed.


(** ** The record store: well-formedness is kept *)

Lemma job_id_of_inj (a b : Z) : job_id_of a = job_id_of b -> a = b.
Proof.
  unfold job_id_of. intros H. simpl in H. injection H as H.
  exact (pretty_Z_inj a b H).
Qed.

Lemma find_filter_keep {A : Type} (f g : A -> bool) (l : list A) :
  (forall x, f x = true -> g x = true) ->
  List.find f (List.filter g l) = List.find f l.
Proof.
  intros Hfg. induction l as [|x l IH]; [reflexivity |].
  cbn [List.filter List.find].
  destruct (g x) eqn:Hg; cbn [List.find].
  - rewrite IH. reflexivity.
  - destruct (f x) eqn:Hf; [rewrite (Hfg x Hf) in Hg; discriminate | exact IH].
Qed.

Lemma find_app_some {A : Type} (f : A -> bool) (l l' : list A) :
  is_Some (List.find f l) -> List.find f (l ++ l') = List.find f l.
Proof.
  induction l as [|x l IH]; cbn [List.find app]; [intros [y Hy]; discriminate |].
  destruct (f x); [reflexivity | exact IH].
Qed.

Lemma find_none_all {A : Type} (f : A -> bool) (l : list A) :
  List.find f l = None -> forall x, In x l -> f x = false.
Proof. intros H x Hx. exact (List.find_none f l H x Hx). Qed.

Lemma filter_all_kept {A : Type} (f : A -> bool) (l : list A) :
  (forall x, In x l -> f x = true) -> List.filter f l = l.
Proof.
  induction l as [|x l IH]; intros H; [reflexivity |].
  cbn [List.filter]. rewrite (H x (or_introl eq_refl)).
  rewrite IH by (intros y Hy; apply H; right; exact Hy). reflexivity.
Qed.

Lemma NoDup_snoc {A : Type} (l : list A) (x : A) :
  NoDup l -> ~ In x l -> NoDup (l ++ [x]).
Proof.
  induction 1 as [|y l Hy Hl IH]; intros Hx; cbn [app].
  - constructor; [intros H; inversion H | constructor].
  - constructor.
    + rewrite list_elem_of_In, in_app_iff. rewrite list_elem_of_In in Hy.
      intros [H|[->|[]]]; [exact (Hy H) | apply Hx; left; reflexivity].
    + apply IH. intros H. apply Hx. right. exact H.
Qed.

Lemma NoDup_map_filter {A B : Type} (f : A -> B) (g : A -> bool) (l : list A) :
  NoDup (List.map f l) -> NoDup (List.map f (List.filter g l)).
Proof.
  induction l as [|x l IH]; cbn [List.map List.filter]; intros H; [constructor |].
  apply NoDup_cons in H as [Hx Hl].
  destruct (g x); cbn [List.map]; [| exact (IH Hl)].
  constructor; [| exact (IH Hl)].
  rewrite list_elem_of_In in *. intros Hin. apply Hx.
  apply in_map_iff in Hin as (y & Hy & Hyin). apply in_map_iff.
  exists y. split; [exact Hy |]. apply filter_In in Hyin. apply Hyin.
Qed.

Lemma Forall_list_filter {A : Type} (P : A -> Prop) (g : A -> bool) (l : list A) :
  Forall P l -> Forall P (List.filter g l).
Proof.
  induction 1 as [|x l Hx _ IH]; cbn [List.filter]; [constructor |].
  destruct (g x); [constructor; assumption | exact IH].
Qed.

Lemma in_ids_bounded {A : Type} (key : A -> Z) (bound : Z) (l : list A) :
  Forall (fun r => key r <= bound) l -> ~ In (bound + 1) (List.map key l).
Proof.
  intros H Hin. apply in_map_iff in Hin as (r & Hr & Hrin).
  rewrite Forall_forall in H. apply list_elem_of_In in Hrin.
  specialize (H r Hrin). cbv beta in H. lia.
Qed.

Lemma store_wf_add_device (d : Database) (name mac : string) (ip : option string)
    (broadcasts : list string) (url : option string) (created_at : string) :
  store_wf d ->
  store_wf (snd (Db.add_device d name mac ip broadcasts url created_at)).
Proof.
  intros (Hd & Hdb & Hs & Hsb & Href). unfold store_wf, Db.add_device.
  cbn [snd devices schedules devices_seq schedules_seq].
  split.
  { rewrite map_app. apply NoDup_snoc; [exact Hd |].
    cbn [List.map d_id]. apply in_ids_bounded. exact Hdb. }
  split.
  { apply Forall_app. split.
    - eapply Forall_impl; [exact Hdb |]. intros r Hr. cbv beta in *. lia.
    - constructor; [cbn; lia | constructor]. }
  split; [exact Hs |]. split; [exact Hsb |].
  eapply Forall_impl; [exact Href |].
  intros s Hsome. unfold Db.get_device in *. cbn [devices].
  rewrite find_app_some by exact Hsome. exact Hsome.
Qed.

Lemma store_wf_add_schedule (d : Database) (device_id : Z) (cron : string)
    (broadcasts : option (list string)) (created_at : string) :
  store_wf d ->
  is_Some (Db.get_device d device_id) ->
  store_wf (snd (Db.add_schedule d device_id cron broadcasts created_at)).
Proof.
  intros (Hd & Hdb & Hs & Hsb & Href) Hdev. unfold store_wf, Db.add_schedule.
  cbn [snd devices schedules devices_seq schedules_seq].
  split; [exact Hd |]. split; [exact Hdb |].
  split.
  { rewrite map_app. apply NoDup_snoc; [exact Hs |].
    cbn [List.map s_id]. apply in_ids_bounded. exact Hsb. }
  split.
  { apply Forall_app. split.
    - eapply Forall_impl; [exact Hsb |]. intros r Hr. cbv beta in *. lia.
    - constructor; [cbn; lia | constructor]. }
  apply Forall_app. split; [exact Href |].
  constructor; [exact Hdev | constructor].
Qed.

Lemma store_wf_delete_schedule (d : Database) (schedule_id : Z) :
  store_wf d -> store_wf (snd (Db.delete_schedule d schedule_id)).
Proof.
  intros (Hd & Hdb & Hs & Hsb & Href). unfold store_wf, Db.delete_schedule.
  cbn [snd devices schedules devices_seq schedules_seq].
  split; [exact Hd |]. split; [exact Hdb |].
  split; [apply NoDup_map_filter; exact Hs |].
  split; [apply Forall_list_filter; exact Hsb |].
  apply Forall_list_filter. exact Href.
Qed.

Lemma store_wf_delete_device (d : Database) (device_id : Z) :
  store_wf d -> store_wf (snd (Db.delete_device d device_id)).
Proof.
  intros (Hd & Hdb & Hs & Hsb & Href). unfold store_wf, Db.delete_device.
  cbn [snd devices schedules devices_seq schedules_seq].
  split; [apply NoDup_map_filter; exact Hd |].
  split; [apply Forall_list_filter; exact Hdb |].
  split; [apply NoDup_map_filter; exact Hs |].
  split; [apply Forall_list_filter; exact Hsb |].
  rewrite Forall_forall in Href. apply Forall_forall. intros s Hin.
  apply list_elem_of_In, filter_In in Hin as [Hin Hne].
  apply negb_true_iff, Z.eqb_neq in Hne.
  specialize (Href s (proj2 (list_elem_of_In _ _) Hin)).
  unfold Db.get_device in *. cbn [devices].
  rewrite find_filter_keep; [exact Href |].
  intros r Hr. apply Z.eqb_eq in Hr. apply negb_true_iff, Z.eqb_neq. congruence.
Qed.


(** ** What each handler does to the tables *)

Lemma wake_loop_keeps_tables (mac : string) :
  forall targets sent w,
    db (snd (wake_loop mac targets sent w)) = db w /\
    jobs (snd (wake_loop mac targets sent w)) = jobs w.
Proof.
  induction targets as [|t rest IH]; intros sent w; [split; reflexivity |].
  cbn [wake_loop]. unfold bind, try_except.
  rewrite send_magic_packet_build.
  destruct (build_packet mac) as [packet|].
  - unfold sendto.
    destruct (link w (length (sendto_calls w)) t 9); cbn [bind logger ret raise].
    + match goal with
      | |- context [wake_loop mac rest ?s1 ?w1] => destruct (IH s1 w1) as [H1 H2]
      end.
      rewrite H1, H2. split; reflexivity.
    + split; reflexivity.
  - split; reflexivity.
Qed.

Lemma wake_keeps_tables (settings : Settings) (payload : WakeRequest) (w : World) :
  db (snd (wake settings payload w)) = db w /\
  jobs (snd (wake settings payload w)) = jobs w.
Proof.
  unfold wake, bind.
  pose proof (wake_loop_keeps_tables (wr_mac payload)
                (parse_broadcasts (wr_broadcast payload) (default_broadcasts settings)) [] w)
    as H.
  destruct (wake_loop _ _ _ w) as [[e|sent] w']; exact H.
Qed.

(** A fire, of any job identifier in any world, ends normally and leaves
    the store and the job table as they were. *)
Lemma fire_keeps_tables (job_id : string) (w : World) :
  fst (fire job_id w) = inr tt /\
  db (snd (fire job_id w)) = db w /\
  jobs (snd (fire job_id w)) = jobs w.
Proof.
  destruct (jobs w !! job_id) as [j|] eqn:Hj.
  - rewrite (fire_armed job_id j w Hj). unfold try_except.
    destruct (Db.get_device (db w) (job_device_id j)) as [device|] eqn:Hd.
    + destruct (schedule_job_total (job_schedule_id j) (job_device_id j)
                  (job_broadcasts j) device w Hd)
        as (w' & Hrun & Hdb & Hjobs & _).
      rewrite Hrun. repeat split; assumption.
    + unfold schedule_job, bind, get_world. rewrite Hd. repeat split.
  - unfold fire, bind, Scheduler.get_job. rewrite Hj. repeat split.
Qed.

Lemma add_device_effect (settings : Settings) (payload : DeviceCreate) (w : World) :
  let broadcasts :=
    if truthy (dc_broadcasts payload) then default [] (dc_broadcasts payload)
    else default_broadcasts settings in
  let row :=
    {| d_id := devices_seq (db w) + 1;
       d_name := PyStr.strip (dc_name payload);
       d_mac := dc_mac payload;
       d_ip := match dc_ip payload with
               | Some ip => if String.eqb ip "" then None else Some (PyStr.strip ip)
               | None => None
               end;
       d_broadcasts := broadcasts;
       d_shutdown_url := match dc_shutdown_url payload with
                         | Some u => if String.eqb u "" then None else Some (PyStr.strip u)
                         | None => None
                         end;
       d_created_at := now w |} in
  exists w',
    add_device settings payload w
    = (inr {| success := true; message := "Device added";
              data := Some (DataId (d_id row)) |}, w') /\
    db w' = snd (Db.add_device (db w) (d_name row) (d_mac row) (d_ip row)
                   (d_broadcasts row) (d_shutdown_url row) (d_created_at row)) /\
    devices (db w') = devices (db w) ++ [row] /\
    schedules (db w') = schedules (db w) /\
    jobs w' = jobs w.
Proof.
  intros broadcasts row. unfold add_device, bind, get_world. cbn.
  eexists. split; [reflexivity |]. repeat split.
Qed.

Lemma add_schedule_failure (crontab_valid : string -> bool) (payload : ScheduleCreate)
    (w w' : World) (e : Exc) :
  add_schedule crontab_valid payload w = (inl e, w') -> w' = w.
Proof.
  unfold add_schedule, bind, get_world, try_except, from_crontab, sqlite_bind.
  destruct (sqlite_int64 (sc_device_id payload));
    [| cbn; intros H; injection H as _ <-; reflexivity].
  cbn [ret].
  destruct (Db.get_device (db w) (sc_device_id payload));
    [| cbn; intros H; injection H as _ <-; reflexivity].
  destruct (crontab_valid (sc_cron payload)); cbn; intros H;
    [discriminate H | injection H as _ <-; reflexivity].
Qed.

Lemma add_schedule_effect (crontab_valid : string -> bool) (payload : ScheduleCreate)
    (w w' : World) (msg : ApiMessage) :
  add_schedule crontab_valid payload w = (inr msg, w') ->
  db w' = snd (Db.add_schedule (db w) (sc_device_id payload) (sc_cron payload)
                 (effective_override (sc_broadcasts payload)) (now w)).
Proof.
  unfold add_schedule, bind, get_world, try_except, from_crontab, sqlite_bind.
  destruct (sqlite_int64 (sc_device_id payload)); [| intros H; discriminate H].
  cbn [ret].
  destruct (Db.get_device (db w) (sc_device_id payload)); [| intros H; discriminate H].
  destruct (crontab_valid (sc_cron payload)); cbn; intros H; [| discriminate H].
  injection H as _ <-. reflexivity.
Qed.

(** [delete_device] on either path: the store has run both [DELETE]
    statements; when the device was missing the job table is as before,
    otherwise it has lost the jobs of the device's schedules and no
    other. *)
Lemma delete_device_effect (device_id : Z) (w : World) :
  exists r w',
    delete_device device_id w = (r, w') /\
    db w' = snd (Db.delete_device (db w) device_id) /\
    match Db.get_device (db w) device_id with
    | None => r = inl (HTTPException 404 "Device not found") /\ jobs w' = jobs w /\
              log w' = log w
    | Some _ =>
        r = inr {| success := true; message := "Device deleted"; data := None |} /\
        (forall k, jobs w' !! k = None \/ jobs w' !! k = jobs w !! k) /\
        (forall sid, In sid (Db.list_schedule_ids_for_device (db w) device_id) ->
           jobs w' !! job_id_of sid = None) /\
        (forall k, (forall sid, In sid (Db.list_schedule_ids_for_device (db w) device_id) ->
                      k <> job_id_of sid) ->
           jobs w' !! k = jobs w !! k)
    end.
Proof.
  unfold delete_device, bind at 1, get_world. cbn [Db.delete_device].
  unfold bind at 1.
  destruct (Db.get_device (db w) device_id) as [device|] eqn:Hd.
  - pose proof (find_some_filter _ _ _ Hd) as Hpos.
    destruct (Z.eqb_spec (Z.of_nat (length (List.filter (fun r => d_id r =? device_id)
                                              (devices (db w))))) 0) as [E|_]; [lia |].
    unfold bind at 1.
    match goal with
    | |- context [for_each _ _ ?w1] =>
        destruct (remove_jobs_loop
                    (Db.list_schedule_ids_for_device (db w) device_id) w1)
          as (w' & Hrun & Hdb & _ & _ & Hsub & Hgone & Hkeep)
    end.
    cbv zeta in Hrun. rewrite Hrun. cbn [bind logger ret].
    do 2 eexists. split; [reflexivity |].
    cbn [db add_log set_db jobs] in *. split; [exact Hdb |].
    split; [reflexivity |]. split; [exact Hsub |]. split; [exact Hgone | exact Hkeep].
  - assert (Hnone : List.filter (fun r => d_id r =? device_id) (devices (db w)) = []).
    { unfold Db.get_device in Hd. pose proof (find_none_all _ _ Hd) as Hall.
      clear Hd. induction (devices (db w)) as [|x l IH]; [reflexivity |].
      cbn [List.filter]. rewrite (Hall x (or_introl eq_refl)).
      apply IH. intros y Hy. apply Hall. right. exact Hy. }
    rewrite Hnone. cbn [length Z.of_nat Z.eqb raise].
    do 2 eexists. split; [reflexivity |]. repeat split.
Qed.

Lemma delete_schedule_effect (schedule_id : Z) (p : Process) :
  exists r p',
    delete_schedule schedule_id p = (r, p') /\
    db (world p') = snd (Db.delete_schedule (db (world p)) schedule_id) /\
    if List.existsb (fun s => s_id s =? schedule_id) (schedules (db (world p)))
    then r = inr {| success := true; message := "Schedule deleted"; data := None |} /\
         jobs (world p') = delete (job_id_of schedule_id) (jobs (world p)) /\
         info_log p' = info_log p ++ [schedule_deleted schedule_id]
    else r = inl (HTTPException 404 "Schedule not found") /\
         jobs (world p') = jobs (world p) /\
         info_log p' = info_log p.
Proof.
  unfold delete_schedule, bindP at 1, lift at 1. cbn [Db.delete_schedule].
  destruct (List.existsb (fun s => s_id s =? schedule_id) (schedules (db (world p))))
    eqn:Hex.
  - assert (Hpos : (0 < length (List.filter (fun s => (s_id s =? schedule_id)%Z)
                                  (schedules (db (world p)))))%nat).
    { apply existsb_exists in Hex as (s & Hin & Hs).
      assert (Hf : In s (List.filter (fun s => s_id s =? schedule_id)
                           (schedules (db (world p)))))
        by (apply filter_In; split; assumption).
      destruct (List.filter _ _); [destruct Hf | simpl; lia]. }
    destruct (Z.eqb_spec (Z.of_nat (length (List.filter (fun s => s_id s =? schedule_id)
                                              (schedules (db (world p)))))) 0) as [E|_];
      [lia |].
    unfold bindP at 1, lift at 1, bind, Scheduler.get_job. cbn [world jobs set_db].
    destruct (jobs (world p) !! job_id_of schedule_id) as [j|] eqn:Hj.
    + unfold Scheduler.remove_job. cbn [jobs set_db]. rewrite Hj.
      cbn. do 2 eexists. split; [reflexivity |]. repeat split.
    + cbn. do 2 eexists. split; [reflexivity |]. repeat split.
      symmetry. apply delete_id. exact Hj.
  - assert (Hnone : List.filter (fun s => s_id s =? schedule_id)
                      (schedules (db (world p))) = []).
    { clear - Hex. induction (schedules (db (world p))) as [|x l IH]; [reflexivity |].
      cbn [List.existsb] in Hex. apply orb_false_iff in Hex as [Hx Hl].
      cbn [List.filter]. rewrite Hx. exact (IH Hl). }
    rewrite Hnone. cbn. do 2 eexists. split; [reflexivity |]. repeat split.
Qed.


(** ** The job table stays in step with the store *)

Lemma effective_override_idempotent (o : option (list string)) :
  effective_override (effective_override o) = effective_override o.
Proof. destruct o as [[|x l]|]; reflexivity. Qed.

Lemma in_step_transfer (w w' : World) :
  in_step w -> store_wf (db w') ->
  schedules (db w') = schedules (db w) -> jobs w' = jobs w ->
  in_step w'.
Proof.
  intros (_ & Hjs & Hsj) Hwf Hs Hj. unfold in_step. rewrite Hs, Hj.
  split; [exact Hwf |]. split; assumption.
Qed.

Lemma in_step_wake (settings : Settings) (payload : WakeRequest) (w : World) :
  in_step w -> in_step (snd (wake settings payload w)).
Proof.
  intros H. destruct (wake_keeps_tables settings payload w) as [Hdb Hjobs].
  apply (in_step_transfer w); [exact H | rewrite Hdb; apply H | rewrite Hdb; reflexivity
                              | exact Hjobs].
Qed.

Lemma in_step_fire (job_id : string) (w : World) :
  in_step w -> in_step (snd (fire job_id w)).
Proof.
  intros H. destruct (fire_keeps_tables job_id w) as (_ & Hdb & Hjobs).
  apply (in_step_transfer w); [exact H | rewrite Hdb; apply H | rewrite Hdb; reflexivity
                              | exact Hjobs].
Qed.

Lemma in_step_add_device (settings : Settings) (payload : DeviceCreate) (w : World) :
  in_step w -> in_step (snd (add_device settings payload w)).
Proof.
  intros H. destruct (add_device_effect settings payload w)
    as (w' & Hrun & Hdb & _ & Hs & Hj).
  rewrite Hrun. cbn [snd].
  apply (in_step_transfer w); [exact H | | exact Hs | exact Hj].
  rewrite Hdb. apply store_wf_add_device. apply H.
Qed.

Lemma in_step_add_schedule (crontab_valid : string -> bool) (payload : ScheduleCreate)
    (w : World) :
  in_step w -> in_step (snd (add_schedule crontab_valid payload w)).
Proof.
  intros H. destruct (add_schedule crontab_valid payload w) as [[e|msg] w'] eqn:Hrun;
    cbn [snd].
  - rewrite (add_schedule_failure _ _ _ _ _ Hrun). exact H.
  - pose proof (add_schedule_effect _ _ _ _ _ Hrun) as Hdb.
    destruct (add_schedule_inv _ _ _ _ _ Hrun) as (_ & Hdev & _ & Hs & Hj).
    destruct H as (Hwf & Hjs & Hsj).
    assert (Hfresh : forall s, In s (schedules (db w)) ->
                       job_id_of (s_id s) <> job_id_of (schedules_seq (db w) + 1)).
    { intros s Hin E. apply job_id_of_inj in E.
      destruct Hwf as (_ & _ & _ & Hb & _). rewrite Forall_forall in Hb.
      specialize (Hb s (proj2 (list_elem_of_In _ _) Hin)). cbv beta in Hb. lia. }
    unfold in_step. rewrite Hs, Hj. split; [| split].
    + rewrite Hdb. apply store_wf_add_schedule; assumption.
    + intros k j Hk. destruct (decide (job_id_of (schedules_seq (db w) + 1) = k))
        as [<-|Hne].
      * rewrite lookup_insert_eq in Hk. injection Hk as <-.
        eexists. split; [apply in_app_iff; right; left; reflexivity |].
        cbn. split; [discriminate |]. split; [reflexivity |].
        unfold job_matches. cbn. repeat split.
        fold (effective_override (sc_broadcasts payload)).
        symmetry. apply effective_override_idempotent.
      * rewrite lookup_insert_ne in Hk by exact Hne.
        destruct (Hjs k j Hk) as (s & Hin & Hen & Hks & Hm).
        exists s. split; [apply in_app_iff; left; exact Hin |]. auto.
    + intros s Hin Hen. apply in_app_iff in Hin as [Hin|[<-|[]]].
      * destruct (Hsj s Hin Hen) as (j & Hjk & Hm). exists j.
        split; [| exact Hm]. rewrite lookup_insert_ne; [exact Hjk |].
        intros E. exact (Hfresh s Hin (eq_sym E)).
      * cbn [s_id]. rewrite lookup_insert_eq. eexists. split; [reflexivity |].
        unfold job_matches. cbn. repeat split.
        fold (effective_override (sc_broadcasts payload)).
        symmetry. apply effective_override_idempotent.
Qed.

Lemma in_step_delete_schedule (schedule_id : Z) (p : Process) :
  in_step (world p) -> in_step (world (snd (delete_schedule schedule_id p))).
Proof.
  intros H. destruct (delete_schedule_effect schedule_id p) as (r & p' & Hrun & Hdb & Hcase).
  rewrite Hrun. cbn [snd].
  destruct (List.existsb _ _) eqn:Hex.
  - destruct Hcase as (_ & Hj & _). destruct H as (Hwf & Hjs & Hsj).
    unfold in_step. rewrite Hdb, Hj. split; [apply store_wf_delete_schedule; exact Hwf |].
    cbn [Db.delete_schedule snd schedules]. split.
    + intros k j Hk. apply lookup_delete_Some in Hk as [Hne Hk].
      destruct (Hjs k j Hk) as (s & Hin & Hen & -> & Hm).
      exists s. split; [| auto]. apply filter_In. split; [exact Hin |].
      apply negb_true_iff, Z.eqb_neq. congruence.
    + intros s Hin Hen. apply filter_In in Hin as [Hin Hne].
      apply negb_true_iff, Z.eqb_neq in Hne.
      destruct (Hsj s Hin Hen) as (j & Hjk & Hm). exists j. split; [| exact Hm].
      rewrite lookup_delete_ne; [exact Hjk |].
      intros E. apply job_id_of_inj in E. congruence.
  - destruct Hcase as (_ & Hj & _).
    apply (in_step_transfer (world p)); [exact H | | | exact Hj].
    + rewrite Hdb. apply store_wf_delete_schedule. apply H.
    + rewrite Hdb. cbn [Db.delete_schedule snd schedules].
      apply filter_all_kept. intros s Hin. apply negb_true_iff.
      destruct (s_id s =? schedule_id) eqn:E; [| reflexivity].
      assert (Ht : List.existsb (fun s => s_id s =? schedule_id)
                     (schedules (db (world p))) = true)
        by (apply existsb_exists; exists s; split; assumption).
      congruence.
Qed.

Lemma in_step_delete_device (device_id : Z) (w : World) :
  in_step w -> in_step (snd (delete_device device_id w)).
Proof.
  intros H. destruct (delete_device_effect device_id w) as (r & w' & Hrun & Hdb & Hcase).
  rewrite Hrun. cbn [snd].
  destruct (Db.get_device (db w) device_id) as [device|] eqn:Hd.
  - destruct Hcase as (_ & Hsub & Hgone & Hkeep). destruct H as (Hwf & Hjs & Hsj).
    unfold in_step. rewrite Hdb. split; [apply store_wf_delete_device; exact Hwf |].
    cbn [Db.delete_device snd schedules]. split.
    + intros k j Hk.
      assert (Hold : jobs w !! k = Some j)
        by (destruct (Hsub k) as [E|E]; congruence).
      destruct (Hjs k j Hold) as (s & Hin & Hen & -> & Hm).
      exists s. split; [| auto]. apply filter_In. split; [exact Hin |].
      apply negb_true_iff, Z.eqb_neq. intros E.
      assert (Hid : In (s_id s) (Db.list_schedule_ids_for_device (db w) device_id)).
      { unfold Db.list_schedule_ids_for_device. apply in_map. apply filter_In.
        split; [exact Hin | apply Z.eqb_eq; exact E]. }
      rewrite (Hgone _ Hid) in Hk. discriminate Hk.
    + intros s Hin Hen. apply filter_In in Hin as [Hin Hne].
      apply negb_true_iff, Z.eqb_neq in Hne.
      destruct (Hsj s Hin Hen) as (j & Hjk & Hm). exists j. split; [| exact Hm].
      rewrite Hkeep; [exact Hjk |].
      intros sid Hsid E. apply job_id_of_inj in E. subst sid.
      unfold Db.list_schedule_ids_for_device in Hsid.
      apply in_map_iff in Hsid as (s' & Hid & Hs').
      apply filter_In in Hs' as [Hin' Hdev']. apply Z.eqb_eq in Hdev'.
      destruct Hwf as (_ & _ & Hnd & _).
      assert (s' = s).
      { clear - Hnd Hin Hin' Hid. induction (schedules (db w)) as [|x l IH];
          [destruct Hin |].
        cbn [List.map] in Hnd. apply NoDup_cons in Hnd as [Hx Hl].
        rewrite list_elem_of_In in Hx.
        destruct Hin as [->|Hin], Hin' as [->|Hin']; [reflexivity | | | auto].
        - exfalso. apply Hx. rewrite <- Hid. apply in_map. exact Hin'.
        - exfalso. apply Hx. rewrite Hid. apply in_map. exact Hin. }
      congruence.
  - destruct Hcase as (_ & Hj & _).
    apply (in_step_transfer w); [exact H | | | exact Hj].
    + rewrite Hdb. apply store_wf_delete_device. apply H.
    + rewrite Hdb. cbn [Db.delete_device snd schedules].
      apply filter_all_kept. intros s Hin. apply negb_true_iff, Z.eqb_neq. intros E.
      destruct H as ((_ & _ & _ & _ & Href) & _). rewrite Forall_forall in Href.
      specialize (Href s (proj2 (list_elem_of_In _ _) Hin)).
      rewrite E, Hd in Href. destruct Href as [x Hx]. discriminate Hx.
Qed.


Lemma in_step_perform (settings : Settings) (crontab_valid : string -> bool)
    (c : Call) (p : Process) :
  in_step (world p) -> in_step (world (perform settings crontab_valid c p)).
Proof.
  intros H. destruct c as [x|x|x|x|x|x]; cbn [perform]; unfold lift.
  - pose proof (in_step_wake settings x (world p) H) as H'.
    destruct (wake settings x (world p)); exact H'.
  - pose proof (in_step_add_device settings x (world p) H) as H'.
    destruct (add_device settings x (world p)); exact H'.
  - pose proof (in_step_delete_device x (world p) H) as H'.
    destruct (delete_device x (world p)); exact H'.
  - pose proof (in_step_add_schedule crontab_valid x (world p) H) as H'.
    destruct (add_schedule crontab_valid x (world p)); exact H'.
  - apply in_step_delete_schedule. exact H.
  - pose proof (in_step_fire x (world p) H) as H'.
    destruct (fire x (world p)); exact H'.
Qed.

Lemma in_step_start (l : nat -> string -> Z -> bool) : in_step (start_world empty_db l).
Proof.
  unfold in_step, store_wf. cbn.
  repeat split; try constructor.
  - intros k j Hk. rewrite lookup_empty in Hk. discriminate Hk.
  - intros s [].
Qed.

Lemma in_step_perform_all (settings : Settings) (crontab_valid : string -> bool)
    (calls : list Call) :
  forall p, in_step (world p) ->
    in_step (world (perform_all settings crontab_valid calls p)).
Proof.
  induction calls as [|c calls IH]; intros p H; [exact H |].
  cbn [perform_all List.fold_left]. apply IH. apply in_step_perform. exact H.
Qed.

(** X14. Whatever sequence of handler calls and fires is performed, succeeding
    or failing, a world whose job table is in step with a well-formed
    store stays so: row ids stay distinct and below their counters, every
    schedule keeps an existing device, every armed job is the job of an
    enabled schedule row, and every enabled row keeps its job. *)
Theorem handlers_keep_in_step (settings : Settings) (crontab_valid : string -> bool)
    (calls : list Call) (p : Process) :
  in_step (world p) ->
  in_step (world (perform_all settings crontab_valid calls p)).
Proof. apply in_step_perform_all. Qed.

(** X15. In a world that is in step, the device of every armed job exists, so a
    fire never takes the device-not-found path: it ends normally and none
    of the lines it logs is a warning. *)
Theorem in_step_fire_finds_device (job_id : string) (w : World) :
  in_step w ->
  exists w' entries,
    fire job_id w = (inr tt, w') /\
    log w' = log w ++ entries /\
    Forall (fun e => level e <> WARNING) entries /\
    (forall j, jobs w !! job_id = Some j ->
       is_Some (Db.get_device (db w) (job_device_id j))).
Proof.
  intros ((_ & _ & _ & _ & Href) & Hjs & _).
  assert (Hdev : forall j, jobs w !! job_id = Some j ->
                   is_Some (Db.get_device (db w) (job_device_id j))).
  { intros j Hj. destruct (Hjs job_id j Hj) as (s & Hin & _ & _ & (_ & -> & _)).
    rewrite Forall_forall in Href. apply Href. apply list_elem_of_In. exact Hin. }
  destruct (jobs w !! job_id) as [j|] eqn:Hj.
  - destruct (Hdev j eq_refl) as [device Hd].
    rewrite (fire_armed job_id j w Hj). unfold try_except.
    destruct (schedule_job_total (job_schedule_id j) (job_device_id j)
                (job_broadcasts j) device w Hd)
      as (w' & Hrun & _ & _ & _ & _ & entries & calls & Hlog & _ & Hsel & _).
    rewrite Hrun. exists w', entries. split; [reflexivity |]. split; [exact Hlog |].
    split; [| exact Hdev].
    clear - Hsel. induction Hsel as [|b e bs es [->|[err ->]] _ IH];
      constructor; try exact IH; discriminate.
  - unfold fire, bind, Scheduler.get_job. rewrite Hj.
    exists w, []. rewrite app_nil_r. repeat split; [constructor | exact Hdev].
Qed.

(** X16. [wake] and [fire] change neither the store nor the job table, whatever
    the request, the targets and the outcome of the sends. *)
Theorem dispatch_keeps_tables (settings : Settings) (payload : WakeRequest)
    (job_id : string) (w : World) :
  db (snd (wake settings payload w)) = db w /\
  jobs (snd (wake settings payload w)) = jobs w /\
  fst (fire job_id w) = inr tt /\
  db (snd (fire job_id w)) = db w /\
  jobs (snd (fire job_id w)) = jobs w.
Proof.
  destruct (wake_keeps_tables settings payload w) as [H1 H2].
  destruct (fire_keeps_tables job_id w) as (H3 & H4 & H5).
  repeat split; assumption.
Qed.


(** ** Round trips through the store *)



Lemma database_eta (d : Database) :
  {| devices := devices d; schedules := schedules d;
     devices_seq := devices_seq d; schedules_seq := schedules_seq d |} = d.
Proof. destruct d; reflexivity. Qed.


(** X18. Creating a schedule and deleting it again gives back the schedule
    table, the device table and the job table of before (the counter of the
    schedule table has moved on by one). *)
Theorem add_then_delete_schedule (crontab_valid : string -> bool)
    (payload : ScheduleCreate) (w w1 : World) (msg : ApiMessage)
    (lines : list InfoEvent) :
  in_step w ->
  add_schedule crontab_valid payload w = (inr msg, w1) ->
  let sid := schedules_seq (db w) + 1 in
  exists p2,
    msg = {| success := true; message := "Schedule added"; data := Some (DataId sid) |} /\
    delete_schedule sid {| world := w1; info_log := lines |}
    = (inr {| success := true; message := "Schedule deleted"; data := None |}, p2) /\
    schedules (db (world p2)) = schedules (db w) /\
    devices (db (world p2)) = devices (db w) /\
    schedules_seq (db (world p2)) = sid /\
    jobs (world p2) = jobs w.
Proof.
  intros (Hwf & Hjs & _) Hadd sid.
  pose proof (add_schedule_effect _ _ _ _ _ Hadd) as Hdb.
  destruct (add_schedule_inv _ _ _ _ _ Hadd) as (_ & _ & Hmsg & Hs & Hj).
  fold sid in Hmsg, Hs, Hj.
  destruct (delete_schedule_effect sid {| world := w1; info_log := lines |})
    as (r & p2 & Hrun & Hdb2 & Hcase).
  cbn [world] in Hdb2, Hcase.
  assert (Hex : List.existsb (fun s => s_id s =? sid) (schedules (db w1)) = true).
  { rewrite Hs. apply existsb_exists. eexists. split;
      [apply in_app_iff; right; left; reflexivity | cbn [s_id]; apply Z.eqb_refl]. }
  rewrite Hex in Hcase. destruct Hcase as (-> & Hj2 & _).
  exists p2. split; [exact Hmsg |]. split; [exact Hrun |].
  rewrite Hdb2. cbn [Db.delete_schedule snd schedules devices schedules_seq].
  split; [| split; [| split]].
  - rewrite Hs, List.filter_app. cbn [List.filter s_id]. rewrite Z.eqb_refl. cbn [negb].
    rewrite app_nil_r. apply filter_all_kept. intros s Hin.
    destruct Hwf as (_ & _ & _ & Hb & _). rewrite Forall_forall in Hb.
    specialize (Hb s (proj2 (list_elem_of_In _ _) Hin)). cbv beta in Hb.
    apply negb_true_iff, Z.eqb_neq. unfold sid. lia.
  - rewrite Hdb. reflexivity.
  - rewrite Hdb. reflexivity.
  - rewrite Hj2, Hj, delete_insert_eq. apply delete_id.
    destruct (jobs w !! job_id_of sid) as [j|] eqn:Hjob; [| reflexivity].
    destruct (Hjs _ _ Hjob) as (s & Hin & _ & E & _). apply job_id_of_inj in E.
    destruct Hwf as (_ & _ & _ & Hb & _). rewrite Forall_forall in Hb.
    specialize (Hb s (proj2 (list_elem_of_In _ _) Hin)). cbv beta in Hb.
    unfold sid in E. lia.
Qed.

(** X19. Deleting a schedule identifier that the driver can bind (one within
    the range of an [INTEGER]) and that no row carries is answered 404 and
    changes nothing: the store, the job table (also when a job is armed
    under that identifier) and both logs are as before. *)
Theorem delete_schedule_unknown (schedule_id : Z) (p : Process) :
  sqlite_int64 schedule_id = true ->
  (forall s, In s (schedules (db (world p))) -> s_id s <> schedule_id) ->
  exists p',
    delete_schedule schedule_id p
    = (inl (HTTPException 404 "Schedule not found"), p') /\
    db (world p') = db (world p) /\
    jobs (world p') = jobs (world p) /\
    info_log p' = info_log p.
Proof.
  intros _ Hno. destruct (delete_schedule_effect schedule_id p)
    as (r & p' & Hrun & Hdb & Hcase).
  assert (Hex : List.existsb (fun s => s_id s =? schedule_id)
                  (schedules (db (world p))) = false).
  { destruct (List.existsb _ _) eqn:E; [| reflexivity].
    apply existsb_exists in E as (s & Hin & Hs). apply Z.eqb_eq in Hs.
    destruct (Hno s Hin Hs). }
  rewrite Hex in Hcase. destruct Hcase as (-> & Hj & Hl).
  exists p'. split; [exact Hrun |]. split; [| split; assumption].
  rewrite Hdb. cbn [Db.delete_schedule snd].
  rewrite filter_all_kept; [apply database_eta |].
  intros s Hin. apply negb_true_iff, Z.eqb_neq. exact (Hno s Hin).
Qed.

(** X20. Deleting the schedule of an existing row succeeds: no row with that
    identifier is left, the other rows are kept in order, the job under the
    identifier of the schedule is gone and every other job is kept. *)
Theorem delete_schedule_existing (schedule_id : Z) (p : Process) (s0 : ScheduleRow) :
  In s0 (schedules (db (world p))) -> s_id s0 = schedule_id ->
  exists p',
    delete_schedule schedule_id p
    = (inr {| success := true; message := "Schedule deleted"; data := None |}, p') /\
    schedules (db (world p'))
    = List.filter (fun s => negb (s_id s =? schedule_id)) (schedules (db (world p))) /\
    (forall s, In s (schedules (db (world p'))) -> s_id s <> schedule_id) /\
    devices (db (world p')) = devices (db (world p)) /\
    jobs (world p') !! job_id_of schedule_id = None /\
    (forall k, k <> job_id_of schedule_id ->
       jobs (world p') !! k = jobs (world p) !! k) /\
    info_log p' = info_log p ++ [schedule_deleted schedule_id].
Proof.
  intros Hin Hid. destruct (delete_schedule_effect schedule_id p)
    as (r & p' & Hrun & Hdb & Hcase).
  assert (Hex : List.existsb (fun s => s_id s =? schedule_id)
                  (schedules (db (world p))) = true).
  { apply existsb_exists. exists s0. split; [exact Hin | apply Z.eqb_eq; exact Hid]. }
  rewrite Hex in Hcase. destruct Hcase as (-> & Hj & Hl).
  exists p'. split; [exact Hrun |].
  rewrite Hdb, Hj. cbn [Db.delete_schedule snd schedules devices].
  split; [reflexivity |]. split.
  { intros s Hs. apply filter_In in Hs as [_ Hs].
    apply negb_true_iff, Z.eqb_neq in Hs. exact Hs. }
  split; [reflexivity |]. split; [apply lookup_delete_eq |].
  split; [intros k Hk; apply lookup_delete_ne; congruence | exact Hl].
Qed.

(** X21. Deleting a device identifier that the driver can bind (one within
    the range of an [INTEGER]) and that the store does not hold is answered
    404; when every schedule of the store refers to an existing device,
    nothing changes: the store and the job table are as before. *)
Theorem delete_device_unknown (device_id : Z) (w : World) :
  sqlite_int64 device_id = true ->
  store_wf (db w) ->
  Db.get_device (db w) device_id = None ->
  exists w',
    delete_device device_id w = (inl (HTTPException 404 "Device not found"), w') /\
    db w' = db w /\ jobs w' = jobs w /\ log w' = log w.
Proof.
  intros _ (_ & _ & _ & _ & Href) Hd.
  destruct (delete_device_effect device_id w) as (r & w' & Hrun & Hdb & Hcase).
  rewrite Hd in Hcase. destruct Hcase as (-> & Hj & Hl).
  exists w'. split; [exact Hrun |].
  split; [| split; [exact Hj | exact Hl]].
  - rewrite Hdb. cbn [Db.delete_device snd].
    rewrite (filter_all_kept (fun r => negb (d_id r =? device_id))).
    + rewrite (filter_all_kept (fun s => negb (s_device_id s =? device_id)));
        [apply database_eta |].
      intros s Hin. apply negb_true_iff, Z.eqb_neq. intros E.
      rewrite Forall_forall in Href.
      specialize (Href s (proj2 (list_elem_of_In _ _) Hin)).
      rewrite E, Hd in Href. destruct Href as [x Hx]. discriminate Hx.
    + intros r Hin. apply negb_true_iff.
      exact (find_none_all _ _ Hd r Hin).
Qed.


(** ** Start-up *)

Lemma In_insert_sorted {A : Type} (key : A -> Z) (x y : A) (l : list A) :
  In x (Db.insert_sorted key y l) <-> x = y \/ In x l.
Proof.
  induction l as [|z l IH]; cbn [Db.insert_sorted].
  - cbn. intuition congruence.
  - destruct (key y <=? key z); cbn [In]; [intuition congruence |].
    rewrite IH. intuition congruence.
Qed.

Lemma In_order_by {A : Type} (key : A -> Z) (x : A) (l : list A) :
  In x (Db.order_by key l) <-> In x l.
Proof.
  unfold Db.order_by. induction l as [|y l IH]; cbn [List.fold_right In]; [reflexivity |].
  rewrite In_insert_sorted, IH. intuition congruence.
Qed.

Lemma In_list_schedules (d : Database) (s : ScheduleRow) (name : string) :
  In (s, name) (Db.list_schedules d)
  <-> In s (schedules d) /\
      exists dev, In dev (devices d) /\ d_id dev = s_device_id s /\ name = d_name dev.
Proof.
  unfold Db.list_schedules. rewrite In_order_by, in_flat_map. split.
  - intros (s' & Hs' & Hin). apply in_map_iff in Hin as (dev & E & Hdev).
    injection E as <- <-. apply filter_In in Hdev as [Hdev Hid].
    apply Z.eqb_eq in Hid. split; [exact Hs' |]. exists dev. auto.
  - intros (Hs & dev & Hdev & Hid & ->). exists s. split; [exact Hs |].
    apply in_map_iff. exists dev. split; [reflexivity |].
    apply filter_In. split; [exact Hdev | apply Z.eqb_eq; exact Hid].
Qed.

Lemma NoDup_map_eq {A B : Type} (f : A -> B) (l : list A) (x y : A) :
  NoDup (List.map f l) -> In x l -> In y l -> f x = f y -> x = y.
Proof.
  induction l as [|z l IH]; intros Hnd Hx Hy E; [destruct Hx |].
  cbn [List.map] in Hnd. apply NoDup_cons in Hnd as [Hz Hl].
  rewrite list_elem_of_In in Hz.
  destruct Hx as [->|Hx], Hy as [->|Hy]; [reflexivity | | | auto].
  - exfalso. apply Hz. rewrite E. apply in_map. exact Hy.
  - exfalso. apply Hz. rewrite <- E. apply in_map. exact Hx.
Qed.

Section Startup.

Variable crontab_valid : string -> bool.

(** The body of the loop of [startup_event]. *)
Local Abbreviation arm := (fun item : ScheduleRow * string =>
  if s_enabled (fst item) =? 0 then ret tt
  else
    do trigger <- from_crontab crontab_valid (s_cron_expr (fst item));
    Scheduler.add_job (job_id_of (s_id (fst item)))
      {| job_schedule_id := s_id (fst item);
         job_device_id := s_device_id (fst item);
         job_broadcasts := s_broadcasts (fst item);
         job_trigger := trigger |}).

Lemma arm_loop_ok :
  forall (items : list (ScheduleRow * string)) (w : World),
    (forall item, In item items -> s_enabled (fst item) <> 0 ->
       crontab_valid (s_cron_expr (fst item)) = true) ->
    exists w',
      for_each items arm w = (inr tt, w') /\
      db w' = db w /\ log w' = log w /\ sendto_calls w' = sendto_calls w /\
      (forall k j, jobs w' !! k = Some j ->
         jobs w !! k = Some j \/
         exists item, In item items /\ s_enabled (fst item) <> 0 /\
                      k = job_id_of (s_id (fst item)) /\ j = job_of_row (fst item)) /\
      (forall item, In item items -> s_enabled (fst item) <> 0 ->
         exists item', In item' items /\ s_enabled (fst item') <> 0 /\
                       s_id (fst item') = s_id (fst item) /\
                       jobs w' !! job_id_of (s_id (fst item))
                       = Some (job_of_row (fst item'))) /\
      (forall k, (forall item, In item items -> s_enabled (fst item) <> 0 ->
                    k <> job_id_of (s_id (fst item))) ->
         jobs w' !! k = jobs w !! k).
Proof.
  induction items as [|x items IH]; intros w Hv.
  - exists w. split; [reflexivity |]. repeat split; auto.
    intros item [].
  - cbn [for_each]. unfold bind at 1.
    assert (Hv' : forall item, In item items -> s_enabled (fst item) <> 0 ->
                    crontab_valid (s_cron_expr (fst item)) = true)
      by (intros item Hin; apply Hv; right; exact Hin).
    destruct (Z.eqb_spec (s_enabled (fst x)) 0) as [Hoff|Hon].
    + cbn [ret]. destruct (IH w Hv') as (w' & Hrun & Hdb & Hlog & Hcalls & Ha & Hb & Hc).
      exists w'. split; [exact Hrun |].
      split; [exact Hdb |]. split; [exact Hlog |]. split; [exact Hcalls |].
      split; [| split].
      * intros k j Hk. destruct (Ha k j Hk) as [Ho|(item & Hin & He & Hkk & Hj)];
          [left; exact Ho |].
        right. exists item. split; [right; exact Hin | auto].
      * intros item [<-|Hin] Hen; [contradiction |].
        destruct (Hb item Hin Hen) as (item' & Hin' & Hr).
        exists item'. split; [right; exact Hin' | exact Hr].
      * intros k Hk. apply Hc. intros item Hin. apply Hk. right. exact Hin.
    + unfold bind, from_crontab. rewrite (Hv x (or_introl eq_refl) Hon).
      cbn [ret Scheduler.add_job].
      set (jx := {| job_schedule_id := s_id (fst x); job_device_id := s_device_id (fst x);
                    job_broadcasts := s_broadcasts (fst x);
                    job_trigger := {| trigger_expr := s_cron_expr (fst x) |} |}).
      set (w1 := set_jobs (<[job_id_of (s_id (fst x)) := jx]> (jobs w)) w).
      destruct (IH w1 Hv') as (w' & Hrun & Hdb & Hlog & Hcalls & Ha & Hb & Hc).
      exists w'. split; [exact Hrun |].
      split; [exact Hdb |]. split; [exact Hlog |]. split; [exact Hcalls |].
      cbn [jobs w1 set_jobs] in Ha, Hc.
      split; [| split].
      * intros k j Hk. destruct (Ha k j Hk) as [Ho|(item & Hin & He & Hkk & Hj)].
        -- destruct (decide (job_id_of (s_id (fst x)) = k)) as [<-|Hne].
           ++ rewrite lookup_insert_eq in Ho. injection Ho as <-.
              right. exists x. split; [left; reflexivity |]. repeat split. exact Hon.
           ++ rewrite lookup_insert_ne in Ho by exact Hne. left. exact Ho.
        -- right. exists item. split; [right; exact Hin | auto].
      * intros item Hin Hen.
        destruct (List.existsb
                    (fun i => negb (s_enabled (fst i) =? 0)
                              && (s_id (fst i) =? s_id (fst item))) items) eqn:Hex.
        -- apply existsb_exists in Hex as (i & Hi & Hie).
           apply andb_true_iff in Hie as [Hien Hiid].
           apply negb_true_iff, Z.eqb_neq in Hien. apply Z.eqb_eq in Hiid.
           destruct (Hb i Hi Hien) as (item' & Hin' & Hen' & Hid' & Hjob).
           exists item'. split; [right; exact Hin' |]. split; [exact Hen' |].
           split; [congruence |]. rewrite <- Hiid. exact Hjob.
        -- assert (Hnone : forall i, In i items -> s_enabled (fst i) <> 0 ->
                             s_id (fst i) <> s_id (fst item)).
           { intros i Hi Hien E.
             assert (Ht : List.existsb
                            (fun i => negb (s_enabled (fst i) =? 0)
                                      && (s_id (fst i) =? s_id (fst item))) items = true).
             { apply existsb_exists. exists i. split; [exact Hi |].
               apply andb_true_iff. split;
                 [apply negb_true_iff, Z.eqb_neq; exact Hien | apply Z.eqb_eq; exact E]. }
             congruence. }
           destruct Hin as [<-|Hin]; [| destruct (Hnone item Hin Hen eq_refl)].
           exists x. split; [left; reflexivity |]. split; [exact Hon |].
           split; [reflexivity |].
           rewrite Hc; [apply lookup_insert_eq |].
           intros i Hi Hien E. apply job_id_of_inj in E.
           exact (Hnone i Hi Hien (eq_sym E)).
      * intros k Hk. rewrite Hc by (intros item Hin; apply Hk; right; exact Hin).
        apply lookup_insert_ne. intros E.
        exact (Hk x (or_introl eq_refl) Hon (eq_sym E)).
Qed.

Lemma arm_loop_raises :
  forall (items : list (ScheduleRow * string)) (w : World),
    (exists item, In item items /\ s_enabled (fst item) <> 0 /\
                  crontab_valid (s_cron_expr (fst item)) = false) ->
    exists msg w', for_each items arm w = (inl (ValueError msg), w').
Proof.
  induction items as [|x items IH]; intros w (item & Hin & Hen & Hbad); [destruct Hin |].
  cbn [for_each]. unfold bind at 1.
  destruct (Z.eqb_spec (s_enabled (fst x)) 0) as [Hoff|Hon].
  - cbn [ret]. apply IH. destruct Hin as [<-|Hin]; [contradiction |].
    exists item. auto.
  - unfold bind, from_crontab.
    destruct (crontab_valid (s_cron_expr (fst x))) eqn:Hx.
    + cbn [ret Scheduler.add_job]. apply IH.
      destruct Hin as [<-|Hin]; [congruence |]. exists item. auto.
    + cbn [raise]. do 2 eexists. reflexivity.
Qed.

(** X22. Start-up over a well-formed store with an empty job table, every
    enabled schedule carrying an expression the parser accepts: it ends
    normally, arms for every enabled schedule the job of its row (its
    device id, its stored override, its expression) under the identifier of
    the schedule, arms nothing for a disabled schedule, and leaves the job
    table in step with the store. *)
Theorem startup_arms_enabled_schedules (p : Process) :
  store_wf (db (world p)) ->
  jobs (world p) = ∅ ->
  (forall s, In s (schedules (db (world p))) -> s_enabled s <> 0 ->
     crontab_valid (s_cron_expr s) = true) ->
  exists p',
    startup_event crontab_valid p = (inr tt, p') /\
    db (world p') = db (world p) /\
    info_log p' = info_log p ++ [scheduler_started] /\
    (forall s, In s (schedules (db (world p))) -> s_enabled s <> 0 ->
       jobs (world p') !! job_id_of (s_id s) = Some (job_of_row s)) /\
    (forall s, In s (schedules (db (world p))) -> s_enabled s = 0 ->
       jobs (world p') !! job_id_of (s_id s) = None) /\
    in_step (world p').
Proof.
  intros Hwf Hempty Hvalid.
  assert (Hitems : forall item, In item (Db.list_schedules (db (world p))) ->
                     In (fst item) (schedules (db (world p)))).
  { intros [s n] Hin. apply In_list_schedules in Hin. apply Hin. }
  assert (Hlisted : forall s, In s (schedules (db (world p))) ->
                      exists n, In (s, n) (Db.list_schedules (db (world p)))).
  { intros s Hin. destruct Hwf as (_ & _ & _ & _ & Href).
    rewrite Forall_forall in Href.
    destruct (Href s (proj2 (list_elem_of_In _ _) Hin)) as [dev Hdev].
    unfold Db.get_device in Hdev. apply find_some in Hdev as [Hdin Hid].
    apply Z.eqb_eq in Hid. exists (d_name dev). apply In_list_schedules.
    split; [exact Hin |]. exists dev. auto. }
  assert (Hsame : forall s s', In s (schedules (db (world p))) ->
                    In s' (schedules (db (world p))) -> s_id s' = s_id s -> s' = s).
  { intros s s' Hs Hs' E. destruct Hwf as (_ & _ & Hnd & _).
    exact (NoDup_map_eq s_id _ s' s Hnd Hs' Hs E). }
  destruct (arm_loop_ok (Db.list_schedules (db (world p))) (world p))
    as (w' & Hrun & Hdb & _ & _ & Ha & Hb & Hc).
  { intros item Hin Hen. apply Hvalid; [apply Hitems; exact Hin | exact Hen]. }
  unfold startup_event, bindP, lift. unfold bind at 1. unfold get_world.
  rewrite Hrun.
  eexists. split; [reflexivity |]. cbn [world info_log log_info snd].
  split; [exact Hdb |]. split; [reflexivity |].
  assert (Hon : forall s, In s (schedules (db (world p))) -> s_enabled s <> 0 ->
                  jobs w' !! job_id_of (s_id s) = Some (job_of_row s)).
  { intros s Hin Hen. destruct (Hlisted s Hin) as [n Hn].
    destruct (Hb (s, n) Hn Hen) as (item' & Hin' & _ & Hid & Hjob).
    cbn [fst] in Hid, Hjob. rewrite Hjob.
    rewrite (Hsame s (fst item') Hin (Hitems _ Hin') Hid). reflexivity. }
  assert (Hoff : forall s, In s (schedules (db (world p))) -> s_enabled s = 0 ->
                   jobs w' !! job_id_of (s_id s) = None).
  { intros s Hin Hen. rewrite Hc; [rewrite Hempty; apply lookup_empty |].
    intros item Hi Hien E. apply job_id_of_inj in E.
    rewrite (Hsame s (fst item) Hin (Hitems _ Hi) (eq_sym E)) in Hien. contradiction. }
  split; [exact Hon |]. split; [exact Hoff |].
  unfold in_step. rewrite Hdb. split; [exact Hwf |]. split.
  - intros k j Hk. destruct (Ha k j Hk) as [Ho|(item & Hin & Hen & -> & ->)].
    + rewrite Hempty, lookup_empty in Ho. discriminate Ho.
    + exists (fst item). split; [apply Hitems; exact Hin |]. split; [exact Hen |].
      split; [reflexivity |]. unfold job_matches, job_of_row. cbn. repeat split.
  - intros s Hin Hen. exists (job_of_row s). split; [apply Hon; assumption |].
    unfold job_matches, job_of_row. cbn. repeat split.
Qed.

(** X23. Start-up fails when an enabled schedule whose device exists carries an
    expression the parser rejects: the [ValueError] escapes and the line
    [scheduler_started] is not logged. *)
Theorem startup_fails_on_bad_cron (p : Process) (s : ScheduleRow) :
  In s (schedules (db (world p))) ->
  is_Some (Db.get_device (db (world p)) (s_device_id s)) ->
  s_enabled s <> 0 ->
  crontab_valid (s_cron_expr s) = false ->
  exists msg p',
    startup_event crontab_valid p = (inl (ValueError msg), p') /\
    info_log p' = info_log p.
Proof.
  intros Hin [dev Hdev] Hen Hbad.
  unfold Db.get_device in Hdev. apply find_some in Hdev as [Hdin Hid].
  apply Z.eqb_eq in Hid.
  destruct (arm_loop_raises (Db.list_schedules (db (world p))) (world p))
    as (msg & w' & Hrun).
  { exists (s, d_name dev). split; [| split; assumption].
    apply In_list_schedules. split; [exact Hin |]. exists dev. auto. }
  unfold startup_event, bindP, lift. unfold bind at 1. unfold get_world.
  rewrite Hrun.
  do 2 eexists. split; reflexivity.
Qed.

End Startup.


(** ** The further properties at concrete inputs *)

Lemma in_step_sample : in_step (world sample_process).
Proof. apply in_step_perform_all. apply in_step_start. Defined.

Lemma store_wf_db2 : store_wf db2.
Proof.
  unfold store_wf. cbn.
  split; [apply NoDup_singleton |].
  split; [repeat constructor; cbn; lia |].
  split.
  { apply NoDup_cons. split; [| apply NoDup_singleton].
    rewrite list_elem_of_In. intros [H|[]]. discriminate H. }
  split; [repeat constructor; cbn; lia |].
  repeat constructor; eexists; reflexivity.
Defined.

Lemma handlers_keep_in_step_witness :
  in_step (world (perform_all sample_settings sample_crontab_valid
                    [CallDeleteSchedule 1; CallFire (job_id_of 2); CallDeleteDevice 1;
                     CallAddSchedule sample_schedule1]
                    sample_process)).
Proof.
  exact (handlers_keep_in_step sample_settings sample_crontab_valid _ sample_process
           in_step_sample).
Defined.

Lemma in_step_fire_finds_device_witness :
  exists w' entries,
    fire (job_id_of 2) (world sample_process) = (inr tt, w') /\
    log w' = log (world sample_process) ++ entries /\
    Forall (fun e => level e <> WARNING) entries /\
    (forall j, jobs (world sample_process) !! job_id_of 2 = Some j ->
       is_Some (Db.get_device (db (world sample_process)) (job_device_id j))).
Proof.
  exact (in_step_fire_finds_device (job_id_of 2) (world sample_process) in_step_sample).
Defined.


Lemma add_then_delete_schedule_witness :
  let w := world sample_process in
  let w1 := snd (add_schedule sample_crontab_valid sample_schedule1 w) in
  exists p2,
    delete_schedule 3 {| world := w1; info_log := [] |}
    = (inr {| success := true; message := "Schedule deleted"; data := None |}, p2) /\
    schedules (db (world p2)) = schedules (db w) /\
    devices (db (world p2)) = devices (db w) /\
    schedules_seq (db (world p2)) = 3 /\
    jobs (world p2) = jobs w.
Proof.
  intros w w1.
  destruct (add_then_delete_schedule sample_crontab_valid sample_schedule1 w w1
              {| success := true; message := "Schedule added"; data := Some (DataId 3) |}
              [] in_step_sample eq_refl) as (p2 & _ & H).
  exists p2. exact H.
Defined.

Lemma delete_schedule_unknown_witness :
  let p := {| world := armed_world empty_db link_up; info_log := [] |} in
  jobs (world p) !! job_id_of 1 = Some job1 /\
  exists p',
    delete_schedule 1 p = (inl (HTTPException 404 "Schedule not found"), p') /\
    db (world p') = empty_db /\
    jobs (world p') = jobs (world p) /\
    info_log p' = [].
Proof.
  intros p. split; [apply armed_world_job1 |].
  apply (delete_schedule_unknown 1 p eq_refl). intros s [].
Defined.

Lemma delete_schedule_existing_witness :
  exists p',
    delete_schedule 1 sample_process
    = (inr {| success := true; message := "Schedule deleted"; data := None |}, p') /\
    schedules (db (world p'))
    = List.filter (fun s => negb (s_id s =? 1)) (schedules (db (world sample_process))) /\
    (forall s, In s (schedules (db (world p'))) -> s_id s <> 1) /\
    devices (db (world p')) = devices (db (world sample_process)) /\
    jobs (world p') !! job_id_of 1 = None /\
    (forall k, k <> job_id_of 1 ->
       jobs (world p') !! k = jobs (world sample_process) !! k) /\
    info_log p' = info_log sample_process ++ [schedule_deleted 1].
Proof.
  apply (delete_schedule_existing 1 sample_process schedule1);
    [left; reflexivity | reflexivity].
Defined.

Lemma delete_device_unknown_witness :
  exists w',
    delete_device 99 (world sample_process)
    = (inl (HTTPException 404 "Device not found"), w') /\
    db w' = db (world sample_process) /\
    jobs w' = jobs (world sample_process) /\
    log w' = log (world sample_process).
Proof.
  exact (delete_device_unknown 99 (world sample_process) eq_refl
           (proj1 in_step_sample) eq_refl).
Defined.

Lemma startup_arms_enabled_schedules_witness :
  let p := {| world := start_world db2 link_up; info_log := [] |} in
  exists p',
    startup_event sample_crontab_valid p = (inr tt, p') /\
    db (world p') = db2 /\
    info_log p' = [] ++ [scheduler_started] /\
    (forall s, In s [schedule1; schedule2] -> s_enabled s <> 0 ->
       jobs (world p') !! job_id_of (s_id s) = Some (job_of_row s)) /\
    (forall s, In s [schedule1; schedule2] -> s_enabled s = 0 ->
       jobs (world p') !! job_id_of (s_id s) = None) /\
    in_step (world p').
Proof.
  intros p.
  apply (startup_arms_enabled_schedules sample_crontab_valid p store_wf_db2 eq_refl).
  intros s [<-|[<-|[]]] _; reflexivity.
Defined.

Lemma startup_fails_on_bad_cron_witness :
  let p := {| world := start_world db2 link_up; info_log := [] |} in
  exists msg p',
    startup_event (fun expr => String.eqb expr "0 7 * * 1-5") p
    = (inl (ValueError msg), p') /\
    info_log p' = [].
Proof.
  intros p.
  apply (startup_fails_on_bad_cron (fun expr => String.eqb expr "0 7 * * 1-5") p schedule2).
  - right. left. reflexivity.
  - eexists. reflexivity.
  - discriminate.
  - reflexivity.
Defined.

Example startup_partial_arming :
  let p := {| world := start_world db2 link_up; info_log := [] |} in
  let p' := snd (startup_event (fun expr => String.eqb expr "0 7 * * 1-5") p) in
  jobs (world p') !! job_id_of 1 = Some job1 /\
  jobs (world p') !! job_id_of 2 = None.
Proof. vm_compute. split; reflexivity. Qed.

Example delete_missing_device_drops_orphans :
  let d := {| devices := []; schedules := [schedule1]; devices_seq := 1;
              schedules_seq := 1 |} in
  let '(r, w') := delete_device 1 (armed_world d link_up) in
  r = inl (HTTPException 404 "Device not found") /\
  schedules (db w') = [] /\
  jobs w' !! job_id_of 1 = Some job1.
Proof. vm_compute. repeat split. Qed.


(** ** The sliding window of the rate limiter *)

Section RateLimitWindow.

Variable Stamp : Type.
Variable time_lt : Stamp -> Stamp -> bool.
Variable time_minus : Stamp -> Z -> Stamp.

(** What is used of the order of the clock readings: no reading is less
    than itself, [a < b <= c] and [a <= b < c] give [a < c], and
    subtracting the window keeps [<=]. *)
Hypothesis lt_irrefl : forall a, time_lt a a = false.
Hypothesis lt_le_trans : forall a b c,
  time_lt a b = true -> time_lt c b = false -> time_lt a c = true.
Hypothesis le_lt_trans : forall a b c,
  time_lt b a = false -> time_lt b c = true -> time_lt a c = true.
Hypothesis minus_mono : forall a b n,
  time_lt b a = false -> time_lt (time_minus b n) (time_minus a n) = false.

Variable settings : Config.Settings.
Hypothesis enabled : Config.enable_rate_limit settings = true.

Variable client : option string.

Local Abbreviation ip := (match client with Some h => h | None => "unknown" end).
Local Abbreviation window := (Config.rate_limit_window_seconds settings).
Local Abbreviation limit := (Config.rate_limit_requests settings).
Local Abbreviation middleware := (rate_limit_middleware Stamp time_lt time_minus settings client).
Local Abbreviation run := (rate_limit_run Stamp time_lt time_minus settings).
Local Abbreviation tracks := (bucket_tracks time_lt time_minus window).
Local Abbreviation in_window := (fun t u : Stamp => negb (time_lt u (time_minus t window))).

Lemma popleft_while_split (ws : Stamp) (b : list Stamp) :
  exists d1,
    b = d1 ++ popleft_while Stamp time_lt ws b /\
    (forall u, In u d1 -> time_lt u ws = true) /\
    match popleft_while Stamp time_lt ws b with
    | [] => True
    | h :: _ => time_lt h ws = false
    end.
Proof.
  induction b as [|t r IH]; cbn [popleft_while].
  - exists []. repeat split. intros u [].
  - destruct (time_lt t ws) eqn:Ht.
    + destruct IH as (d1 & Hb & Hd & Hh). exists (t :: d1).
      split; [cbn; congruence |]. split; [| exact Hh].
      intros u [<-|Hu]; [exact Ht | exact (Hd u Hu)].
    + exists []. repeat split; [intros u [] | exact Ht].
Qed.

Lemma nondecreasing_suffix (d1 b : list Stamp) :
  nondecreasing time_lt (d1 ++ b) -> nondecreasing time_lt b.
Proof. induction d1 as [|x d1 IH]; cbn; [auto | intros [_ H]; exact (IH H)]. Qed.

Lemma nondecreasing_snoc (l : list Stamp) (t : Stamp) :
  nondecreasing time_lt l -> (forall u, In u l -> time_lt t u = false) ->
  nondecreasing time_lt (l ++ [t]).
Proof.
  induction l as [|x l IH]; cbn [app nondecreasing]; intros Hl Ht.
  - split; [intros u [] | exact I].
  - destruct Hl as [Hx Hl]. split.
    + intros u Hu. apply in_app_iff in Hu as [Hu|[<-|[]]];
        [exact (Hx u Hu) | apply Ht; left; reflexivity].
    + apply IH; [exact Hl | intros u Hu; apply Ht; right; exact Hu].
Qed.

Lemma filter_none_kept {A : Type} (f : A -> bool) (l : list A) :
  (forall x, In x l -> f x = false) -> List.filter f l = [].
Proof.
  induction l as [|x l IH]; intros H; [reflexivity |].
  cbn [List.filter]. rewrite (H x (or_introl eq_refl)).
  apply IH. intros y Hy. apply H. right. exact Hy.
Qed.

Lemma tracks_later (b acc : list Stamp) (t t2 : Stamp) :
  tracks b acc t -> time_lt t2 t = false -> tracks b acc t2.
Proof.
  intros (dropped & Hacc & Hd & Hs & Hb) Hle. exists dropped.
  split; [exact Hacc |]. split; [| split; [exact Hs |]].
  - intros u Hu. apply (lt_le_trans u (time_minus t window)); [exact (Hd u Hu) |].
    apply minus_mono. exact Hle.
  - intros u Hu. destruct (time_lt t2 u) eqn:E; [| reflexivity].
    rewrite (lt_le_trans t2 u t E (Hb u Hu)) in Hle. discriminate Hle.
Qed.

(** The pruning of the bucket at reading [t] leaves exactly the stamps
    handed on so far that are not before the window of [t]. *)
Lemma prune_is_window (b acc : list Stamp) (t : Stamp) :
  tracks b acc t ->
  popleft_while Stamp time_lt (time_minus t window) b = List.filter (in_window t) acc /\
  tracks (popleft_while Stamp time_lt (time_minus t window) b) acc t /\
  tracks (popleft_while Stamp time_lt (time_minus t window) b ++ [t]) (acc ++ [t]) t.
Proof.
  intros (dropped & Hacc & Hd & Hs & Hb).
  destruct (popleft_while_split (time_minus t window) b) as (d1 & Hsplit & Hd1 & Hh).
  set (b1 := popleft_while Stamp time_lt (time_minus t window) b) in *.
  assert (Hs1 : nondecreasing time_lt b1)
    by (rewrite Hsplit in Hs; exact (nondecreasing_suffix d1 b1 Hs)).
  assert (Hin1 : forall u, In u b1 -> In u b)
    by (intros u Hu; rewrite Hsplit; apply in_app_iff; right; exact Hu).
  assert (Hkeep : forall u, In u b1 -> time_lt u (time_minus t window) = false).
  { destruct b1 as [|h r]; [intros u [] |]. destruct Hs1 as [Hhr _].
    intros u [<-|Hu]; [exact Hh |].
    destruct (time_lt u (time_minus t window)) eqn:E; [| reflexivity].
    rewrite (le_lt_trans h u _ (Hhr u Hu) E) in Hh. discriminate Hh. }
  assert (Hdrop : forall u, In u (dropped ++ d1) ->
                    time_lt u (time_minus t window) = true)
    by (intros u Hu; apply in_app_iff in Hu as [Hu|Hu]; auto).
  split; [| split].
  - rewrite Hacc, Hsplit, !List.filter_app.
    rewrite (filter_none_kept _ dropped)
      by (intros u Hu; rewrite (Hd u Hu); reflexivity).
    rewrite (filter_none_kept _ d1)
      by (intros u Hu; rewrite (Hd1 u Hu); reflexivity).
    rewrite filter_all_kept by (intros u Hu; rewrite (Hkeep u Hu); reflexivity).
    reflexivity.
  - exists (dropped ++ d1). split; [rewrite Hacc, Hsplit at 1; apply app_assoc |].
    split; [exact Hdrop |]. split; [exact Hs1 |].
    intros u Hu. apply Hb, Hin1, Hu.
  - exists (dropped ++ d1). split.
    { rewrite Hacc. rewrite Hsplit at 1. rewrite <- !app_assoc. reflexivity. }
    split; [exact Hdrop |]. split.
    + apply nondecreasing_snoc; [exact Hs1 |]. intros u Hu. apply Hb, Hin1, Hu.
    + intros u Hu. apply in_app_iff in Hu as [Hu|[<-|[]]]; [apply Hb, Hin1, Hu |].
      apply lt_irrefl.
Qed.

Lemma middleware_step (d : gmap string (list Stamp)) (acc : list Stamp) (t : Stamp) :
  tracks (bucket_of d ip) acc t ->
  (fst (middleware t d) = CallNext
   <-> Z.of_nat (length (List.filter (in_window t) acc)) < limit) /\
  forall t2, time_lt t2 t = false ->
    tracks (bucket_of (snd (middleware t d)) ip)
      (acc ++ accepted [fst (middleware t d)] [t]) t2.
Proof.
  intros Htr. destruct (prune_is_window _ _ _ Htr) as (Hwin & Hrej & Hacc).
  unfold rate_limit_middleware. rewrite enabled. cbn [negb].
  fold (bucket_of d ip). rewrite <- Hwin.
  set (b1 := popleft_while Stamp time_lt (time_minus t window) (bucket_of d ip)) in *.
  destruct (Z.geb_spec (Z.of_nat (length b1)) limit) as [Hge|Hlt]; cbn [fst snd].
  - split; [split; [discriminate | lia] |].
    intros t2 Hle. unfold bucket_of. rewrite lookup_insert_eq.
    cbn [accepted]. rewrite app_nil_r. exact (tracks_later _ _ _ _ Hrej Hle).
  - split; [split; [intros _; exact Hlt | reflexivity] |].
    intros t2 Hle. unfold bucket_of. rewrite lookup_insert_eq.
    cbn [accepted]. exact (tracks_later _ _ _ _ Hacc Hle).
Qed.

Lemma accepted_cons (o : Outcome) (os : list Outcome) (t : Stamp) (ts : list Stamp) :
  accepted (o :: os) (t :: ts) = accepted [o] [t] ++ accepted os ts.
Proof. destruct o; reflexivity. Qed.

Lemma run_tracks :
  forall (stamps : list Stamp) (d : gmap string (list Stamp)) (acc : list Stamp)
         (t' : Stamp),
    nondecreasing time_lt (stamps ++ [t']) ->
    tracks (bucket_of d ip) acc (List.hd t' stamps) ->
    tracks (bucket_of (snd (run (List.map (fun t => (client, t)) stamps) d)) ip)
      (acc ++ accepted (fst (run (List.map (fun t => (client, t)) stamps) d)) stamps) t'.
Proof.
  induction stamps as [|t rest IH]; intros d acc t' Hnd Htr.
  - cbn. rewrite app_nil_r. exact Htr.
  - cbn [List.map rate_limit_run List.hd] in *.
    destruct (middleware_step d acc t Htr) as [_ Hnext].
    destruct (middleware t d) as [o d1] eqn:Hmw. cbn [fst snd] in Hnext.
    cbn [app nondecreasing] in Hnd. destruct Hnd as [Hfirst Hnd].
    assert (Hhd : time_lt (List.hd t' rest) t = false).
    { apply Hfirst. destruct rest as [|x rest]; cbn; [left | left]; reflexivity. }
    specialize (IH d1 (acc ++ accepted [o] [t]) t' Hnd (Hnext _ Hhd)).
    destruct (run (List.map (fun t => (client, t)) rest) d1) as [os d2].
    cbn [fst snd] in *. rewrite accepted_cons, app_assoc. exact IH.
Qed.

(** X9. The guarantee of the sliding window, for one client whose clock
    readings do not go back: after any earlier requests, a request at
    reading [t] is handed on exactly when fewer than [rate_limit_requests]
    of the earlier requests that were handed on lie in the window of [t],
    that is, are not before [t - rate_limit_window_seconds]. *)
Theorem rate_limit_window (earlier : list Stamp) (t : Stamp) :
  nondecreasing time_lt (earlier ++ [t]) ->
  let outcomes := fst (run (List.map (fun u => (client, u)) earlier) ∅) in
  let d := snd (run (List.map (fun u => (client, u)) earlier) ∅) in
  fst (middleware t d) = CallNext
  <-> Z.of_nat (length (List.filter (in_window t) (accepted outcomes earlier))) < limit.
Proof.
  intros Hnd outcomes d.
  assert (H0 : tracks (bucket_of ∅ ip) [] (List.hd t earlier)).
  { unfold bucket_of. rewrite lookup_empty. exists []. repeat split; intros u []. }
  pose proof (run_tracks earlier ∅ [] t Hnd H0) as Htr. cbn [app] in Htr.
  exact (proj1 (middleware_step d (accepted outcomes earlier) t Htr)).
Qed.

End RateLimitWindow.

Lemma rate_limit_window_witness :
  nondecreasing Z.ltb ([100; 101; 130] ++ [161]) /\
  (fst (rate_limit_middleware Z Z.ltb Z.sub (settings_with 2 "admin" "s3cret")
          (Some "10.0.0.1") 161
          (snd (rate_limit_run Z Z.ltb Z.sub (settings_with 2 "admin" "s3cret")
                  (List.map (fun u => (Some "10.0.0.1", u)) [100; 101; 130]) ∅)))
   = CallNext
   <-> Z.of_nat (length (List.filter (fun u => negb (u <? 161 - 60))
                           (accepted
                              (fst (rate_limit_run Z Z.ltb Z.sub
                                      (settings_with 2 "admin" "s3cret")
                                      (List.map (fun u => (Some "10.0.0.1", u))
                                         [100; 101; 130]) ∅))
                              [100; 101; 130]))) < 2).
Proof.
  assert (Hs : nondecreasing Z.ltb ([100; 101; 130] ++ [161])).
  { cbn. repeat split; intros u Hu;
      repeat (destruct Hu as [<-|Hu]; [reflexivity |]); destruct Hu. }
  split; [exact Hs |].
  apply (rate_limit_window Z Z.ltb Z.sub).
  - intros a. apply Z.ltb_irrefl.
  - intros a b c H1 H2. apply Z.ltb_lt in H1. apply Z.ltb_ge in H2. apply Z.ltb_lt. lia.
  - intros a b c H1 H2. apply Z.ltb_ge in H1. apply Z.ltb_lt in H2. apply Z.ltb_lt. lia.
  - intros a b n H. apply Z.ltb_ge in H. apply Z.ltb_ge. lia.
  - reflexivity.
  - exact Hs.
Defined.

Example rate_limit_window_run :
  fst (rate_limit_run Z Z.ltb Z.sub (settings_with 2 "admin" "s3cret")
         (List.map (fun u => (Some "10.0.0.1", u)) [100; 101; 130; 161]) ∅)
  = [CallNext; CallNext;
     Respond {| status_code := 429; www_authenticate := false;
                content_message := "Rate limit exceeded"; content_data := Some (2, 60) |};
     CallNext].
Proof. vm_compute. reflexivity. Qed.
